(** * logstor: a log-structured block store (g_logstor.c)

    A shallow embedding of the core of [g_logstor.c] and the properties of
    its superblock manager, segment allocator, read and write paths and
    metadata buffer cache.

    Conventions.  C integers are [Z] with the wrap-around written out
    ([u32], [u16], [i32]).  A pointer into the [sc->fbuf] array is the index
    of the buffer ([nat]); a nullable pointer is an [option nat].  The
    constant [SECTOR_SIZE] comes from [g_logstor.h], which is not part of
    the sources at hand: functions that use it take it as a parameter. *)

From Stdlib Require Import ZArith List Bool Lia Arith PeanoNat Permutation.
Import ListNotations.
Local Open Scope Z_scope.

(* ================================================================= *)
(** ** Machine integers *)

Definition u32 (x : Z) : Z := x mod 2 ^ 32.
Definition u16 (x : Z) : Z := x mod 2 ^ 16.
Definition u8 (x : Z) : Z := x mod 2 ^ 8.

(** [int32_t]: two's complement wrap-around. *)
Definition i32 (x : Z) : Z := (x + 2 ^ 31) mod 2 ^ 32 - 2 ^ 31.

(* ================================================================= *)
(** ** Constants of g_logstor.c *)

Definition SIG_LOGSTOR : Z := 0x4C4F4753.
Definition VER_MAJOR : Z := 0.
Definition VER_MINOR : Z := 1.

Definition SEG_DATA_START : Z := 1.
Definition SEG_SIZE : Z := 0x400000.
Definition SA2SEGA_SHIFT : Z := 10.
Definition CLEAN_WINDOW : Z := 6.
Definition CLEAN_AGE_LIMIT : Z := 4.

Definition META_BASE : Z := 0xC0000000.
Definition META_INVALID : Z := 0.
Definition SECTOR_NULL : Z := 0.
Definition META_LEAF_DEPTH : Z := 2.
Definition FILE_BUCKET_COUNT : Z := 12899.

Definition FD_BASE : Z := 0.
Definition FD_ACTIVE : Z := 1.
Definition FD_DELTA : Z := 2.
Definition FD_COUNT : Z := 3.

(** Constants that depend on [SECTOR_SIZE]. *)
Definition SECTORS_PER_SEG (SECTOR_SIZE : Z) : Z := SEG_SIZE / SECTOR_SIZE.
Definition SEG_SUM_OFF (SECTOR_SIZE : Z) : Z := SECTORS_PER_SEG SECTOR_SIZE - 1.
Definition BLOCKS_PER_SEG (SECTOR_SIZE : Z) : Z := SEG_SIZE / SECTOR_SIZE - 1.

(** [sizeof(struct _superblock)]: sig, two version bytes, sb_gen,
    max_block_cnt, four int32 and ftab[FD_COUNT]. *)
Definition sizeof_superblock : Z := 4 + 1 + 1 + 2 + 4 + 4 * 4 + 4 * FD_COUNT.

(** [sizeof(struct _seg_sum) - sizeof(struct _ss_soft)]:
    ss_rm[SECTORS_PER_SEG - 1], ss_gen and ss_alloc_p. *)
Definition sizeof_seg_sum_disk (SECTOR_SIZE : Z) : Z :=
  4 * (SECTORS_PER_SEG SECTOR_SIZE - 1) + 2 + 2.

(** The two [_Static_assert]s on the on-disk structures. *)
Definition static_asserts (SECTOR_SIZE : Z) : Prop :=
  sizeof_superblock < SECTOR_SIZE /\
  sizeof_seg_sum_disk SECTOR_SIZE = SECTOR_SIZE.

Definition IS_META_ADDR (x : Z) : bool := Z.land x META_BASE =? META_BASE.

(** [sega2sa]: segment address to sector address. *)
Definition sega2sa (sega : Z) : Z := u32 (Z.shiftl sega SA2SEGA_SHIFT).

(* ================================================================= *)
(** ** Metadata addresses ([union meta_addr])

    bit fields, least significant first: index:20, depth:2, fd:2, resv0:6,
    meta:2. *)

Definition ma_index (ma : Z) : Z := Z.land ma 0xFFFFF.
Definition ma_depth (ma : Z) : Z := Z.land (Z.shiftr ma 20) 3.
Definition ma_fd (ma : Z) : Z := Z.land (Z.shiftr ma 22) 3.
Definition ma_meta (ma : Z) : Z := Z.land (Z.shiftr ma 30) 3.

Definition ma_set_depth (ma d : Z) : Z :=
  Z.lor (Z.land ma 0xFFCFFFFF) (Z.shiftl (Z.land d 3) 20).
Definition ma_set_fd (ma fd : Z) : Z :=
  Z.lor (Z.land ma 0xFF3FFFFF) (Z.shiftl (Z.land fd 3) 22).

(** [ma_index_get]; [None] is [MY_PANIC ()]. *)
Definition ma_index_get (ma depth : Z) : option Z :=
  if depth =? 0 then Some (Z.land (Z.shiftr ma 10) 0x3ff)
  else if depth =? 1 then Some (Z.land ma 0x3ff)
  else None.

(** [ma_index_set]; [None] is [MY_PANIC ()]. *)
Definition ma_index_set (ma depth index : Z) : option Z :=
  if depth =? 0 then
    Some (Z.lor (Z.land ma 0xfff003ff) (u32 (Z.shiftl index 10)))
  else if depth =? 1 then
    Some (Z.lor (Z.land ma 0xfffffc00) index)
  else None.

(** The address computation of [file_access]: the byte offset into the
    buffer's data and the leaf metadata address. *)
Definition file_access_buf_off (offset : Z) : Z := Z.land offset 0xfff.
Definition file_access_ma (fd offset : Z) : Z :=
  ma_set_fd (ma_set_depth (u32 (META_BASE + Z.shiftr offset 12)) META_LEAF_DEPTH) fd.

(** The byte offset [file_read_4byte] and [file_write_4byte] pass on. *)
Definition file_4byte_offset (ba : Z) : Z := u32 (Z.shiftl ba 2).

(** Entries of a [struct _fbuf]'s [data] array. *)
Definition fbuf_data_len (SECTOR_SIZE : Z) : Z := SECTOR_SIZE / 4.

(* ================================================================= *)
(** ** Results of the embedded functions

    A function of the source either returns, or runs into undefined
    behaviour or [MY_PANIC] ([Fault]), or is still looping when the fuel of
    its model is used up ([OutOfFuel]).

    [MY_ASSERT] is declared in the missing header.  Its handler [my_debug]
    (g_logstor.c, line 52) prints a message and returns, so an assertion
    changes neither the control flow nor the state, and the state
    transformers below leave assertions out; where a property depends on an
    asserted condition, the condition is a definition of its own. *)

Inductive result (A : Type) : Type :=
| Ok (a : A)
| Fault
| OutOfFuel.
Arguments Ok {A} a.
Arguments Fault {A}.
Arguments OutOfFuel {A}.

Definition bind {A B : Type} (m : result A) (k : A -> result B) : result B :=
  match m with
  | Ok a => k a
  | Fault => Fault
  | OutOfFuel => OutOfFuel
  end.

Notation "'do' x <- m ; k" := (bind m (fun x => k))
  (at level 10, x pattern, m at level 100, k at level 200).

Definition of_option {A : Type} (o : option A) : result A :=
  match o with Some a => Ok a | None => Fault end.

(** Whether a call returned. *)
Definition is_ok {A : Type} (m : result A) : bool :=
  match m with Ok _ => true | _ => false end.

(* ================================================================= *)
(** ** Lists as C arrays *)

Fixpoint upd_nth {A : Type} (n : nat) (x : A) (l : list A) : list A :=
  match l, n with
  | [], _ => []
  | _ :: t, O => x :: t
  | h :: t, S n' => h :: upd_nth n' x t
  end.

Definition zget (l : list Z) (i : Z) : Z := nth (Z.to_nat i) l 0.
Definition zset (l : list Z) (i v : Z) : list Z := upd_nth (Z.to_nat i) v l.

(* ================================================================= *)
(** ** The backing device

    [blk sa] is the sector at sector address [sa], as 32-bit little-endian
    words.  A write to a sector in [wr_fail] fails with [EIO] and leaves the
    device as it was. *)

Definition EIO : Z := 5.
Definition EINVAL : Z := 22.

Record device : Type := mkDevice {
  blk : Z -> list Z;
  wr_fail : Z -> bool;
  mediasize : Z          (* cp->provider->mediasize, in bytes *)
}.

Definition dev_read (d : device) (sa : Z) : list Z := blk d sa.

Definition dev_write (d : device) (sa : Z) (w : list Z) : device * Z :=
  (mkDevice (fun a => if negb (wr_fail d sa) && (a =? sa) then w else blk d a)
     (wr_fail d) (mediasize d),
   if wr_fail d sa then EIO else 0).


(* ================================================================= *)
(** ** [struct _superblock] and its sector image *)

Record superblock : Type := mkSuperblock {
  sig : Z;
  ver_major : Z;
  ver_minor : Z;
  sb_gen : Z;            (* uint16_t *)
  max_block_cnt : Z;     (* uint32_t *)
  seg_cnt : Z;           (* int32_t *)
  seg_free_cnt : Z;      (* int32_t *)
  seg_alloc_p : Z;       (* int32_t *)
  seg_reclaim_p : Z;     (* int32_t *)
  ftab : list Z          (* uint32_t [FD_COUNT] *)
}.

Definition set_sb_gen (sb : superblock) (v : Z) : superblock :=
  mkSuperblock (sig sb) (ver_major sb) (ver_minor sb) v (max_block_cnt sb)
    (seg_cnt sb) (seg_free_cnt sb) (seg_alloc_p sb) (seg_reclaim_p sb) (ftab sb).
Definition set_seg_free_cnt (sb : superblock) (v : Z) : superblock :=
  mkSuperblock (sig sb) (ver_major sb) (ver_minor sb) (sb_gen sb) (max_block_cnt sb)
    (seg_cnt sb) v (seg_alloc_p sb) (seg_reclaim_p sb) (ftab sb).
Definition set_seg_alloc_p (sb : superblock) (v : Z) : superblock :=
  mkSuperblock (sig sb) (ver_major sb) (ver_minor sb) (sb_gen sb) (max_block_cnt sb)
    (seg_cnt sb) (seg_free_cnt sb) v (seg_reclaim_p sb) (ftab sb).
Definition set_seg_reclaim_p (sb : superblock) (v : Z) : superblock :=
  mkSuperblock (sig sb) (ver_major sb) (ver_minor sb) (sb_gen sb) (max_block_cnt sb)
    (seg_cnt sb) (seg_free_cnt sb) (seg_alloc_p sb) v (ftab sb).
Definition set_ftab (sb : superblock) (v : list Z) : superblock :=
  mkSuperblock (sig sb) (ver_major sb) (ver_minor sb) (sb_gen sb) (max_block_cnt sb)
    (seg_cnt sb) (seg_free_cnt sb) (seg_alloc_p sb) (seg_reclaim_p sb) v.

(** The fixed part of the superblock, overlaid on the words of a sector
    ([memcpy (&sc->superblock, buf, sizeof (sc->superblock))]). *)
Definition sb_of_words (w : list Z) : superblock :=
  mkSuperblock
    (zget w 0)
    (Z.land (zget w 1) 0xff)
    (Z.land (Z.shiftr (zget w 1) 8) 0xff)
    (Z.land (Z.shiftr (zget w 1) 16) 0xffff)
    (zget w 2)
    (i32 (zget w 3)) (i32 (zget w 4)) (i32 (zget w 5)) (i32 (zget w 6))
    [zget w 7; zget w 8; zget w 9].

(** Byte [k] of the flexible array [seg_age] in a sector image. *)
Definition age_byte_of_words (w : list Z) (k : Z) : Z :=
  Z.land (Z.shiftr (zget w (10 + k / 4)) (8 * (k mod 4))) 0xff.

(** The first [n] bytes of [seg_age] in a sector image
    ([memcpy (sc->seg_age, sb_in->seg_age, sb_in->seg_cnt)]).  The bytes
    are those of the sector read as long as they lie inside the buffer of
    [SECTOR_SIZE] bytes it was read into; the source reads on behind the
    buffer for a larger [n]. *)
Definition seg_age_of_words (w : list Z) (n : Z) : list Z :=
  map (fun k => age_byte_of_words w (Z.of_nat k)) (seq 0 (Z.to_nat n)).

(** Four bytes packed into one little-endian word. *)
Definition pack4 (l : list Z) (k : Z) : Z :=
  Z.lor (Z.lor (u8 (zget l (4 * k))) (Z.shiftl (u8 (zget l (4 * k + 1))) 8))
        (Z.lor (Z.shiftl (u8 (zget l (4 * k + 2))) 16)
               (Z.shiftl (u8 (zget l (4 * k + 3))) 24)).

(** The sector written for a superblock ([char buf[SECTOR_SIZE]] after the
    two [memcpy]): the fixed part, then the first [seg_cnt] bytes of
    [seg_age].  [rest] is what the stack buffer held before, as words; the
    source does not initialise it, so the bytes of the last word of the
    ages that the second [memcpy] does not reach, and all the words after
    it, are those of [rest].

    This is the buffer of the source as long as the ages fit into it
    ([sizeof (struct _superblock) + seg_cnt < SECTOR_SIZE], the condition
    [superblock_init] asserts, with [0 <= seg_cnt]) and [seg_age] holds
    [seg_cnt] bytes; beyond that the source writes past [buf] or reads past
    [seg_age], and the properties proved of the image carry these
    conditions as hypotheses. *)
Definition words_of_sb (sb : superblock) (age : list Z) (rest : list Z) : list Z :=
  let n := Z.to_nat (seg_cnt sb) in
  let nw := ((n + 3) / 4)%nat in
  let bytes := firstn n age ++ repeat 0 (n - length age)%nat
               ++ map (fun j => age_byte_of_words rest (Z.of_nat j))
                    (seq n (4 * nw - n)) in
  [ u32 (sig sb);
    Z.lor (Z.lor (u8 (ver_major sb)) (Z.shiftl (u8 (ver_minor sb)) 8))
          (Z.shiftl (u16 (sb_gen sb)) 16);
    u32 (max_block_cnt sb);
    u32 (seg_cnt sb); u32 (seg_free_cnt sb);
    u32 (seg_alloc_p sb); u32 (seg_reclaim_p sb);
    u32 (nth 0 (ftab sb) 0); u32 (nth 1 (ftab sb) 0); u32 (nth 2 (ftab sb) 0) ]
  ++ map (fun k => pack4 bytes (Z.of_nat k)) (seq 0 nw)
  ++ skipn (10 + nw)%nat rest.

(* ================================================================= *)
(** ** [struct _seg_sum] *)

Record seg_sum : Type := mkSegSum {
  ss_rm : list Z;        (* uint32_t [SECTORS_PER_SEG - 1] *)
  ss_gen : Z;            (* uint16_t *)
  ss_alloc_p : Z;        (* uint16_t *)
  sega : Z;              (* ss_soft.sega, uint32_t *)
  live_count : Z         (* ss_soft.live_count, unsigned *)
}.

Definition set_sega (s : seg_sum) (v : Z) : seg_sum :=
  mkSegSum (ss_rm s) (ss_gen s) (ss_alloc_p s) v (live_count s).
Definition set_ss_alloc_p (s : seg_sum) (v : Z) : seg_sum :=
  mkSegSum (ss_rm s) (ss_gen s) v (sega s) (live_count s).
Definition set_ss_gen (s : seg_sum) (v : Z) : seg_sum :=
  mkSegSum (ss_rm s) v (ss_alloc_p s) (sega s) (live_count s).
Definition set_ss_rm (s : seg_sum) (v : list Z) : seg_sum :=
  mkSegSum v (ss_gen s) (ss_alloc_p s) (sega s) (live_count s).
Definition set_live_count (s : seg_sum) (v : Z) : seg_sum :=
  mkSegSum (ss_rm s) (ss_gen s) (ss_alloc_p s) (sega s) v.

(** The on-disk part of a segment summary as a sector: the reverse map,
    then [ss_gen] and [ss_alloc_p] in one word. *)
Definition words_of_seg_sum (s : seg_sum) : list Z :=
  ss_rm s ++ [Z.lor (u16 (ss_gen s)) (Z.shiftl (u16 (ss_alloc_p s)) 16)].

(** Reading a sector over the on-disk part; the soft part is kept. *)
Definition seg_sum_of_words (n : nat) (w : list Z) (s : seg_sum) : seg_sum :=
  mkSegSum (firstn n w)
    (Z.land (zget w (Z.of_nat n)) 0xffff)
    (Z.land (Z.shiftr (zget w (Z.of_nat n)) 16) 0xffff)
    (sega s) (live_count s).

(* ================================================================= *)
(** ** [struct _fbuf]

    The queue links of a buffer ([indir_queue], [cir_queue],
    [buffer_bucket_queue]) are kept in the queues of [softc] below. *)

Record fbuf : Type := mkFbuf {
  ref_cnt : Z;           (* uint16_t *)
  on_cir_queue : bool;
  accessed : bool;
  modified : bool;
  parent : option nat;   (* struct _fbuf * *)
  ma : Z;                (* union meta_addr *)
  data : list Z          (* uint32_t [SECTOR_SIZE / 4] *)
}.

Definition set_ref_cnt (b : fbuf) (v : Z) : fbuf :=
  mkFbuf v (on_cir_queue b) (accessed b) (modified b) (parent b) (ma b) (data b).
Definition set_on_cir_queue (b : fbuf) (v : bool) : fbuf :=
  mkFbuf (ref_cnt b) v (accessed b) (modified b) (parent b) (ma b) (data b).
Definition set_accessed (b : fbuf) (v : bool) : fbuf :=
  mkFbuf (ref_cnt b) (on_cir_queue b) v (modified b) (parent b) (ma b) (data b).
Definition set_modified (b : fbuf) (v : bool) : fbuf :=
  mkFbuf (ref_cnt b) (on_cir_queue b) (accessed b) v (parent b) (ma b) (data b).
Definition set_parent (b : fbuf) (v : option nat) : fbuf :=
  mkFbuf (ref_cnt b) (on_cir_queue b) (accessed b) (modified b) v (ma b) (data b).
Definition set_ma (b : fbuf) (v : Z) : fbuf :=
  mkFbuf (ref_cnt b) (on_cir_queue b) (accessed b) (modified b) (parent b) v (data b).
Definition set_data (b : fbuf) (v : list Z) : fbuf :=
  mkFbuf (ref_cnt b) (on_cir_queue b) (accessed b) (modified b) (parent b) (ma b) v.

(* ================================================================= *)
(** ** Actions on the outside world

    The ghost field [trace] of [softc] records, latest first, the writes sent
    to the device and the updates of the two maps. *)

Inductive event : Type :=
| EvDataWrite (sa count : Z)      (* g_io_request of client data *)
| EvMetaWrite (sa ma : Z)         (* g_write_data in fbuf_write *)
| EvSegSumWrite (sa : Z)          (* g_write_data in seg_sum_write *)
| EvSbWrite (sa : Z)              (* superblock_init, superblock_write *)
| EvSbRead (sa : Z)               (* g_logstor_read_superblock *)
| EvRevMap (sega slot ba : Z)     (* ss_rm[slot] = ba in the segment sega *)
| EvSegAlloc (sega : Z)           (* seg_alloc bound sega *)
| EvCleanCheck                    (* call of clean_check *)
| EvFwdMap (fd ba sa : Z).        (* file_write_4byte (fd, ba, sa) *)

(** A [struct _seg_sum *] argument. *)
Inductive ss_ptr : Type :=
| PCold
| PHot
| PCand (i : nat).

(* ================================================================= *)
(** ** [struct g_logstor_softc] *)

Record softc : Type := mkSoftc {
  seg_sum_cold : seg_sum;   (* segment summary for the cold segment *)
  seg_sum_hot : seg_sum;   (* segment summary for the hot segment *)
  clean_candidate : list seg_sum;   (* [CLEAN_WINDOW] candidates *)
  cleaner_disabled : Z;   (* unsigned char *)
  clean_low_water : Z;   (* uint32_t *)
  clean_high_water : Z;   (* uint32_t *)
  fbuf_count : Z;   (* int *)
  fbuf_modified_count : Z;   (* int *)
  fbufs : nat -> fbuf;   (* the array sc->fbuf *)
  fbuf_bucket : Z -> list nat;   (* the hash chains, head first *)
  cir_queue : list nat;   (* the circular queue, from cir_buffer_head along next *)
  indirect_head : Z -> list nat;   (* the indirect queues, head first *)
  data_write_count : Z;   (* unsigned *)
  other_write_count : Z;   (* unsigned *)
  fbuf_hit : Z;   (* unsigned *)
  fbuf_miss : Z;   (* unsigned *)
  sb_modified : bool;
  sb_sa : Z;   (* uint32_t *)
  seg_age : option (list Z);   (* uint8_t *, NULL until allocated *)
  sb : superblock;   (* the field superblock *)
  dev : device;   (* the consumer cp *)
  trace : list event   (* ghost: the actions taken so far, latest first *)
}.

Definition set_seg_sum_cold (sc : softc) (v : seg_sum) : softc :=
  mkSoftc v (seg_sum_hot sc) (clean_candidate sc) (cleaner_disabled sc) (clean_low_water sc) (clean_high_water sc) (fbuf_count sc) (fbuf_modified_count sc) (fbufs sc) (fbuf_bucket sc) (cir_queue sc) (indirect_head sc) (data_write_count sc) (other_write_count sc) (fbuf_hit sc) (fbuf_miss sc) (sb_modified sc) (sb_sa sc) (seg_age sc) (sb sc) (dev sc) (trace sc).
Definition set_seg_sum_hot (sc : softc) (v : seg_sum) : softc :=
  mkSoftc (seg_sum_cold sc) v (clean_candidate sc) (cleaner_disabled sc) (clean_low_water sc) (clean_high_water sc) (fbuf_count sc) (fbuf_modified_count sc) (fbufs sc) (fbuf_bucket sc) (cir_queue sc) (indirect_head sc) (data_write_count sc) (other_write_count sc) (fbuf_hit sc) (fbuf_miss sc) (sb_modified sc) (sb_sa sc) (seg_age sc) (sb sc) (dev sc) (trace sc).
Definition set_clean_candidate (sc : softc) (v : list seg_sum) : softc :=
  mkSoftc (seg_sum_cold sc) (seg_sum_hot sc) v (cleaner_disabled sc) (clean_low_water sc) (clean_high_water sc) (fbuf_count sc) (fbuf_modified_count sc) (fbufs sc) (fbuf_bucket sc) (cir_queue sc) (indirect_head sc) (data_write_count sc) (other_write_count sc) (fbuf_hit sc) (fbuf_miss sc) (sb_modified sc) (sb_sa sc) (seg_age sc) (sb sc) (dev sc) (trace sc).
Definition set_cleaner_disabled (sc : softc) (v : Z) : softc :=
  mkSoftc (seg_sum_cold sc) (seg_sum_hot sc) (clean_candidate sc) v (clean_low_water sc) (clean_high_water sc) (fbuf_count sc) (fbuf_modified_count sc) (fbufs sc) (fbuf_bucket sc) (cir_queue sc) (indirect_head sc) (data_write_count sc) (other_write_count sc) (fbuf_hit sc) (fbuf_miss sc) (sb_modified sc) (sb_sa sc) (seg_age sc) (sb sc) (dev sc) (trace sc).
Definition set_clean_low_water (sc : softc) (v : Z) : softc :=
  mkSoftc (seg_sum_cold sc) (seg_sum_hot sc) (clean_candidate sc) (cleaner_disabled sc) v (clean_high_water sc) (fbuf_count sc) (fbuf_modified_count sc) (fbufs sc) (fbuf_bucket sc) (cir_queue sc) (indirect_head sc) (data_write_count sc) (other_write_count sc) (fbuf_hit sc) (fbuf_miss sc) (sb_modified sc) (sb_sa sc) (seg_age sc) (sb sc) (dev sc) (trace sc).
Definition set_clean_high_water (sc : softc) (v : Z) : softc :=
  mkSoftc (seg_sum_cold sc) (seg_sum_hot sc) (clean_candidate sc) (cleaner_disabled sc) (clean_low_water sc) v (fbuf_count sc) (fbuf_modified_count sc) (fbufs sc) (fbuf_bucket sc) (cir_queue sc) (indirect_head sc) (data_write_count sc) (other_write_count sc) (fbuf_hit sc) (fbuf_miss sc) (sb_modified sc) (sb_sa sc) (seg_age sc) (sb sc) (dev sc) (trace sc).
Definition set_fbuf_count (sc : softc) (v : Z) : softc :=
  mkSoftc (seg_sum_cold sc) (seg_sum_hot sc) (clean_candidate sc) (cleaner_disabled sc) (clean_low_water sc) (clean_high_water sc) v (fbuf_modified_count sc) (fbufs sc) (fbuf_bucket sc) (cir_queue sc) (indirect_head sc) (data_write_count sc) (other_write_count sc) (fbuf_hit sc) (fbuf_miss sc) (sb_modified sc) (sb_sa sc) (seg_age sc) (sb sc) (dev sc) (trace sc).
Definition set_fbuf_modified_count (sc : softc) (v : Z) : softc :=
  mkSoftc (seg_sum_cold sc) (seg_sum_hot sc) (clean_candidate sc) (cleaner_disabled sc) (clean_low_water sc) (clean_high_water sc) (fbuf_count sc) v (fbufs sc) (fbuf_bucket sc) (cir_queue sc) (indirect_head sc) (data_write_count sc) (other_write_count sc) (fbuf_hit sc) (fbuf_miss sc) (sb_modified sc) (sb_sa sc) (seg_age sc) (sb sc) (dev sc) (trace sc).
Definition set_fbufs (sc : softc) (v : nat -> fbuf) : softc :=
  mkSoftc (seg_sum_cold sc) (seg_sum_hot sc) (clean_candidate sc) (cleaner_disabled sc) (clean_low_water sc) (clean_high_water sc) (fbuf_count sc) (fbuf_modified_count sc) v (fbuf_bucket sc) (cir_queue sc) (indirect_head sc) (data_write_count sc) (other_write_count sc) (fbuf_hit sc) (fbuf_miss sc) (sb_modified sc) (sb_sa sc) (seg_age sc) (sb sc) (dev sc) (trace sc).
Definition set_fbuf_bucket (sc : softc) (v : Z -> list nat) : softc :=
  mkSoftc (seg_sum_cold sc) (seg_sum_hot sc) (clean_candidate sc) (cleaner_disabled sc) (clean_low_water sc) (clean_high_water sc) (fbuf_count sc) (fbuf_modified_count sc) (fbufs sc) v (cir_queue sc) (indirect_head sc) (data_write_count sc) (other_write_count sc) (fbuf_hit sc) (fbuf_miss sc) (sb_modified sc) (sb_sa sc) (seg_age sc) (sb sc) (dev sc) (trace sc).
Definition set_cir_queue (sc : softc) (v : list nat) : softc :=
  mkSoftc (seg_sum_cold sc) (seg_sum_hot sc) (clean_candidate sc) (cleaner_disabled sc) (clean_low_water sc) (clean_high_water sc) (fbuf_count sc) (fbuf_modified_count sc) (fbufs sc) (fbuf_bucket sc) v (indirect_head sc) (data_write_count sc) (other_write_count sc) (fbuf_hit sc) (fbuf_miss sc) (sb_modified sc) (sb_sa sc) (seg_age sc) (sb sc) (dev sc) (trace sc).
Definition set_indirect_head (sc : softc) (v : Z -> list nat) : softc :=
  mkSoftc (seg_sum_cold sc) (seg_sum_hot sc) (clean_candidate sc) (cleaner_disabled sc) (clean_low_water sc) (clean_high_water sc) (fbuf_count sc) (fbuf_modified_count sc) (fbufs sc) (fbuf_bucket sc) (cir_queue sc) v (data_write_count sc) (other_write_count sc) (fbuf_hit sc) (fbuf_miss sc) (sb_modified sc) (sb_sa sc) (seg_age sc) (sb sc) (dev sc) (trace sc).
Definition set_data_write_count (sc : softc) (v : Z) : softc :=
  mkSoftc (seg_sum_cold sc) (seg_sum_hot sc) (clean_candidate sc) (cleaner_disabled sc) (clean_low_water sc) (clean_high_water sc) (fbuf_count sc) (fbuf_modified_count sc) (fbufs sc) (fbuf_bucket sc) (cir_queue sc) (indirect_head sc) v (other_write_count sc) (fbuf_hit sc) (fbuf_miss sc) (sb_modified sc) (sb_sa sc) (seg_age sc) (sb sc) (dev sc) (trace sc).
Definition set_other_write_count (sc : softc) (v : Z) : softc :=
  mkSoftc (seg_sum_cold sc) (seg_sum_hot sc) (clean_candidate sc) (cleaner_disabled sc) (clean_low_water sc) (clean_high_water sc) (fbuf_count sc) (fbuf_modified_count sc) (fbufs sc) (fbuf_bucket sc) (cir_queue sc) (indirect_head sc) (data_write_count sc) v (fbuf_hit sc) (fbuf_miss sc) (sb_modified sc) (sb_sa sc) (seg_age sc) (sb sc) (dev sc) (trace sc).
Definition set_fbuf_hit (sc : softc) (v : Z) : softc :=
  mkSoftc (seg_sum_cold sc) (seg_sum_hot sc) (clean_candidate sc) (cleaner_disabled sc) (clean_low_water sc) (clean_high_water sc) (fbuf_count sc) (fbuf_modified_count sc) (fbufs sc) (fbuf_bucket sc) (cir_queue sc) (indirect_head sc) (data_write_count sc) (other_write_count sc) v (fbuf_miss sc) (sb_modified sc) (sb_sa sc) (seg_age sc) (sb sc) (dev sc) (trace sc).
Definition set_fbuf_miss (sc : softc) (v : Z) : softc :=
  mkSoftc (seg_sum_cold sc) (seg_sum_hot sc) (clean_candidate sc) (cleaner_disabled sc) (clean_low_water sc) (clean_high_water sc) (fbuf_count sc) (fbuf_modified_count sc) (fbufs sc) (fbuf_bucket sc) (cir_queue sc) (indirect_head sc) (data_write_count sc) (other_write_count sc) (fbuf_hit sc) v (sb_modified sc) (sb_sa sc) (seg_age sc) (sb sc) (dev sc) (trace sc).
Definition set_sb_modified (sc : softc) (v : bool) : softc :=
  mkSoftc (seg_sum_cold sc) (seg_sum_hot sc) (clean_candidate sc) (cleaner_disabled sc) (clean_low_water sc) (clean_high_water sc) (fbuf_count sc) (fbuf_modified_count sc) (fbufs sc) (fbuf_bucket sc) (cir_queue sc) (indirect_head sc) (data_write_count sc) (other_write_count sc) (fbuf_hit sc) (fbuf_miss sc) v (sb_sa sc) (seg_age sc) (sb sc) (dev sc) (trace sc).
Definition set_sb_sa (sc : softc) (v : Z) : softc :=
  mkSoftc (seg_sum_cold sc) (seg_sum_hot sc) (clean_candidate sc) (cleaner_disabled sc) (clean_low_water sc) (clean_high_water sc) (fbuf_count sc) (fbuf_modified_count sc) (fbufs sc) (fbuf_bucket sc) (cir_queue sc) (indirect_head sc) (data_write_count sc) (other_write_count sc) (fbuf_hit sc) (fbuf_miss sc) (sb_modified sc) v (seg_age sc) (sb sc) (dev sc) (trace sc).
Definition set_seg_age (sc : softc) (v : option (list Z)) : softc :=
  mkSoftc (seg_sum_cold sc) (seg_sum_hot sc) (clean_candidate sc) (cleaner_disabled sc) (clean_low_water sc) (clean_high_water sc) (fbuf_count sc) (fbuf_modified_count sc) (fbufs sc) (fbuf_bucket sc) (cir_queue sc) (indirect_head sc) (data_write_count sc) (other_write_count sc) (fbuf_hit sc) (fbuf_miss sc) (sb_modified sc) (sb_sa sc) v (sb sc) (dev sc) (trace sc).
Definition set_sb (sc : softc) (v : superblock) : softc :=
  mkSoftc (seg_sum_cold sc) (seg_sum_hot sc) (clean_candidate sc) (cleaner_disabled sc) (clean_low_water sc) (clean_high_water sc) (fbuf_count sc) (fbuf_modified_count sc) (fbufs sc) (fbuf_bucket sc) (cir_queue sc) (indirect_head sc) (data_write_count sc) (other_write_count sc) (fbuf_hit sc) (fbuf_miss sc) (sb_modified sc) (sb_sa sc) (seg_age sc) v (dev sc) (trace sc).
Definition set_dev (sc : softc) (v : device) : softc :=
  mkSoftc (seg_sum_cold sc) (seg_sum_hot sc) (clean_candidate sc) (cleaner_disabled sc) (clean_low_water sc) (clean_high_water sc) (fbuf_count sc) (fbuf_modified_count sc) (fbufs sc) (fbuf_bucket sc) (cir_queue sc) (indirect_head sc) (data_write_count sc) (other_write_count sc) (fbuf_hit sc) (fbuf_miss sc) (sb_modified sc) (sb_sa sc) (seg_age sc) (sb sc) v (trace sc).
Definition set_trace (sc : softc) (v : list event) : softc :=
  mkSoftc (seg_sum_cold sc) (seg_sum_hot sc) (clean_candidate sc) (cleaner_disabled sc) (clean_low_water sc) (clean_high_water sc) (fbuf_count sc) (fbuf_modified_count sc) (fbufs sc) (fbuf_bucket sc) (cir_queue sc) (indirect_head sc) (data_write_count sc) (other_write_count sc) (fbuf_hit sc) (fbuf_miss sc) (sb_modified sc) (sb_sa sc) (seg_age sc) (sb sc) (dev sc) v.

Definition get_ss (sc : softc) (p : ss_ptr) : seg_sum :=
  match p with
  | PCold => seg_sum_cold sc
  | PHot => seg_sum_hot sc
  | PCand i => nth i (clean_candidate sc) (mkSegSum [] 0 0 0 0)
  end.

Definition set_ss (sc : softc) (p : ss_ptr) (s : seg_sum) : softc :=
  match p with
  | PCold => set_seg_sum_cold sc s
  | PHot => set_seg_sum_hot sc s
  | PCand i => set_clean_candidate sc (upd_nth i s (clean_candidate sc))
  end.

Definition upd_fbuf (sc : softc) (b : nat) (f : fbuf -> fbuf) : softc :=
  set_fbufs sc (fun j => if Nat.eqb j b then f (fbufs sc j) else fbufs sc j).

Definition log (sc : softc) (e : event) : softc := set_trace sc (e :: trace sc).

(** Writing one sector; the error code is returned to the caller. *)
Definition sc_dev_write (sc : softc) (sa : Z) (w : list Z) : softc * Z :=
  (set_dev sc (fst (dev_write (dev sc) sa w)), snd (dev_write (dev sc) sa w)).

(* ================================================================= *)
(** ** Superblock and segment allocator *)

Section Logstor.

Variable SECTOR_SIZE : Z.

Let SPS : Z := SECTORS_PER_SEG SECTOR_SIZE.
Let SUM_OFF : Z := SEG_SUM_OFF SECTOR_SIZE.

(** [seg_sum_write]: the result of [g_write_data] is not looked at. *)
Definition seg_sum_write (sc : softc) (p : ss_ptr) : softc :=
  let s := get_ss sc p in
  let sa := u32 (sega2sa (sega s) + SUM_OFF) in
  let s1 := set_ss_gen s (sb_gen (sb sc)) in
  let sc1 := set_ss sc p s1 in
  let sc2 := fst (sc_dev_write sc1 sa (words_of_seg_sum s1)) in
  let sc3 := log sc2 (EvSegSumWrite sa) in
  set_other_write_count sc3 (u32 (other_write_count sc3 + 1)).

(** [seg_sum_read] *)
Definition seg_sum_read (sc : softc) (p : ss_ptr) : softc :=
  let s := get_ss sc p in
  let sa := u32 (sega2sa (sega s) + SUM_OFF) in
  set_ss sc p (seg_sum_of_words (Z.to_nat SUM_OFF) (dev_read (dev sc) sa) s).

(** The three conditions [seg_alloc] asserts on a candidate [sega], once
    [seg_alloc_p] has been advanced. *)
Definition seg_alloc_asserts (sc : softc) (sega sega_hot : Z) : bool :=
  (seg_alloc_p (sb sc) <? seg_cnt (sb sc)) &&
  negb (i32 (seg_alloc_p (sb sc) + 1) =? seg_reclaim_p (sb sc)) &&
  negb (sega =? sega_hot).

(** One round of the loop of [seg_alloc] from the label [again]: the
    candidate, and the state with [seg_alloc_p] advanced. *)
Definition seg_alloc_advance (sc : softc) : Z * softc :=
  let sega := u32 (seg_alloc_p (sb sc)) in
  let p1 := i32 (seg_alloc_p (sb sc) + 1) in
  let p := if p1 =? seg_cnt (sb sc) then SEG_DATA_START else p1 in
  (sega, set_sb sc (set_seg_alloc_p (sb sc) p)).

(** [sc->seg_age[sega]] *)
Definition age_of (sc : softc) (sega : Z) : option Z :=
  match seg_age sc with
  | None => None
  | Some age => nth_error age (Z.to_nat sega)
  end.

Fixpoint seg_alloc_loop (fuel : nat) (sc : softc) (p : ss_ptr) (sega_cold : Z)
  : result softc :=
  match fuel with
  | O => OutOfFuel
  | S fuel' =>
      let (sega, sc1) := seg_alloc_advance sc in
      if sega =? sega_cold then seg_alloc_loop fuel' sc1 p sega_cold
      else
        do age <- of_option (age_of sc1 sega);
        if negb (age =? 0) then seg_alloc_loop fuel' sc1 p sega_cold
        else
          let s := set_ss_alloc_p (set_sega (get_ss sc1 p) sega) 0 in
          let sc2 := set_ss sc1 p s in
          let sc3 := set_sb sc2
                       (set_seg_free_cnt (sb sc2) (i32 (seg_free_cnt (sb sc2) - 1))) in
          Ok (log sc3 (EvSegAlloc sega))
  end.

(** [seg_alloc] *)
Definition seg_alloc (fuel : nat) (sc : softc) (p : ss_ptr) : result softc :=
  seg_alloc_loop fuel sc p (sega (seg_sum_cold sc)).

(** The sector image [superblock_init] and [superblock_write] send out;
    [junk] is the content of the stack buffer before the two [memcpy]. *)
Definition sb_image (sc : softc) (junk : list Z) : list Z :=
  words_of_sb (sb sc) (match seg_age sc with Some a => a | None => [] end) junk.

(** [superblock_init]; [rnd] is the value of [arc4random ()].  The factor
    [0.9] is a double: for a 32-bit [x] the product [x * 0.9], converted
    back to [uint32_t], is [x * 9 / 10] rounded down.

    The source asserts [sizeof (struct _superblock) + seg_cnt <
    SECTOR_SIZE] (line 843) and goes on; when the assertion fails its
    second [memcpy] runs over [buf], which the image below does not
    describe (see [words_of_sb]).  The same holds for a [seg_age] that is
    already allocated with fewer than [seg_cnt] bytes, and for a negative
    [media_size], where the division of the source truncates. *)
Definition superblock_init (sc : softc) (media_size rnd : Z) (junk : list Z)
  : Z * softc :=
  let sector_cnt := u32 (media_size / SECTOR_SIZE) in
  let cnt := i32 (sector_cnt / SPS) in
  let free := i32 (cnt - SEG_DATA_START) in
  let mbc := u32 (free * BLOCKS_PER_SEG SECTOR_SIZE
                  - (sector_cnt / (SECTOR_SIZE / 4)) * FD_COUNT) in
  let mbc := u32 (mbc * 9 / 10) in
  let sb1 := mkSuperblock SIG_LOGSTOR VER_MAJOR VER_MINOR (u16 rnd) mbc cnt free
               SEG_DATA_START SEG_DATA_START
               [SECTOR_NULL; SECTOR_NULL; SECTOR_NULL] in
  let age :=
    match seg_age sc with
    | None => repeat 0 (Z.to_nat cnt)
    | Some a => repeat 0 (Z.to_nat cnt) ++ skipn (Z.to_nat cnt) a
    end in
  let sc1 := set_seg_age (set_sb sc sb1) (Some age) in
  let sc2 := set_sb_sa sc1 0 in
  let sc3 := fst (sc_dev_write sc2 0 (sb_image sc2 junk)) in
  let sc4 := log sc3 (EvSbWrite 0) in
  (mbc, set_sb_modified sc4 false).

(** The test [superblock_read] applies to the first and to the chosen
    superblock. *)
Definition sb_invalid (s : superblock) : bool :=
  negb (sig s =? SIG_LOGSTOR) ||
  (seg_alloc_p s >=? seg_cnt s) ||
  (seg_reclaim_p s >=? seg_cnt s).

(** [g_logstor_read_superblock] of the sector [i] into [sc->superblock]
    ([memcpy] from the buffer the sector was read into). *)
Definition sb_probe (sc : softc) (i : Z) : softc :=
  log (set_sb sc (sb_of_words (dev_read (dev sc) i))) (EvSbRead i).

(** The probing loop of [superblock_read], entered with [i] and the last
    generation seen; [n] bounds the rounds left.  It returns the value of
    [i] at which the loop ends. *)
Fixpoint sb_scan (n : nat) (sc : softc) (i gen : Z) : Z * softc :=
  match n with
  | O => (i, sc)
  | S n' =>
      if i <? SPS then
        let sc1 := sb_probe sc i in
        if negb (sig (sb sc1) =? SIG_LOGSTOR) then (i, sc1)
        else if negb (sb_gen (sb sc1) =? u16 (gen + 1)) then (i, sc1)
        else sb_scan n' sc1 (i + 1) (sb_gen (sb sc1))
      else (i, sc)
  end.

(** [superblock_read]: the error code and the state.  After the loop the
    superblock is taken from the buffer that holds the sector [i - 1].

    When the chosen superblock passes the test, the source allocates
    [seg_cnt] bytes (if [seg_age] is NULL) and copies [seg_cnt] bytes out
    of the sector buffer.  The state below is that of the source when
    [seg_cnt] is not negative, the ages lie inside the buffer and an
    existing [seg_age] has room for them; otherwise the source reads or
    writes out of bounds, and the properties proved of a successful read
    carry these conditions as hypotheses. *)
Definition superblock_read (sc : softc) : Z * softc :=
  let sc1 := sb_probe sc 0 in
  if sb_invalid (sb sc1) then (EINVAL, sc1)
  else
    let r := sb_scan (Z.to_nat SPS) sc1 1 (sb_gen (sb sc1)) in
    let i := fst r in
    let w := dev_read (dev sc) (i - 1) in
    let s := sb_of_words w in
    let sc2 := set_sb_modified (set_sb (set_sb_sa (snd r) (i - 1)) s) false in
    if sb_invalid s then (EINVAL, sc2)
    else
      let n := Z.to_nat (seg_cnt s) in
      let old := match seg_age sc2 with
                 | None => repeat 0 n
                 | Some a => a
                 end in
      (0, set_seg_age sc2 (Some (seg_age_of_words w (seg_cnt s) ++ skipn n old))).

(** [superblock_write]; the image is that of the source under the
    conditions given at [words_of_sb]. *)
Definition superblock_write (sc : softc) (junk : list Z) : softc :=
  let sc1 := set_sb sc (set_sb_gen (sb sc) (u16 (sb_gen (sb sc) + 1))) in
  let sa := u32 (sb_sa sc1 + 1) in
  let sc2 := set_sb_sa sc1 (if sa =? SPS then 0 else sa) in
  let sc3 := fst (sc_dev_write sc2 (sb_sa sc2) (sb_image sc2 junk)) in
  let sc4 := log sc3 (EvSbWrite (sb_sa sc2)) in
  set_other_write_count sc4 (u32 (other_write_count sc4 + 1)).

(* ================================================================= *)
(** ** The file buffer and indirect block cache *)

Definition bucket_of (key : Z) : Z := key mod FILE_BUCKET_COUNT.

(** [fbuf_search] *)
Definition fbuf_search (sc : softc) (m : Z) : option nat * softc :=
  match find (fun b => ma (fbufs sc b) =? m) (fbuf_bucket sc (bucket_of m)) with
  | Some b => (Some b, set_fbuf_hit sc (u32 (fbuf_hit sc + 1)))
  | None => (None, set_fbuf_miss sc (u32 (fbuf_miss sc + 1)))
  end.

(** [fbuf_hash_insert] *)
Definition fbuf_hash_insert (sc : softc) (b : nat) (key : Z) : softc :=
  set_fbuf_bucket sc
    (fun h => if h =? bucket_of key then b :: fbuf_bucket sc h else fbuf_bucket sc h).

(** [LIST_REMOVE (buf, buffer_bucket_queue)]: the buffer leaves the chain
    it is on. *)
Definition fbuf_hash_remove (sc : softc) (b : nat) : softc :=
  set_fbuf_bucket sc (fun h => remove Nat.eq_dec b (fbuf_bucket sc h)).

(** [LIST_REMOVE (buf, indir_queue)] *)
Definition indir_remove (sc : softc) (b : nat) : softc :=
  set_indirect_head sc (fun d => remove Nat.eq_dec b (indirect_head sc d)).

(** [LIST_INSERT_HEAD (&sc->indirect_head[i], buf, indir_queue)] *)
Definition indir_insert_head (sc : softc) (i : Z) (b : nat) : softc :=
  set_indirect_head sc
    (fun d => if d =? i then b :: indirect_head sc d else indirect_head sc d).

(** [fbuf_cir_queue_insert]: insert before [cir_buffer_head]. *)
Definition fbuf_cir_queue_insert (sc : softc) (b : nat) : result softc :=
  match cir_queue sc with
  | [] => Fault
  | _ :: _ =>
      Ok (upd_fbuf (set_cir_queue sc (cir_queue sc ++ [b])) b
            (fun x => set_on_cir_queue x true))
  end.

(** [fbuf_cir_queue_remove].  The source needs two elements on the queue:
    with one, [cir_buffer_head] is left pointing at the removed buffer. *)
Definition fbuf_cir_queue_remove (sc : softc) (b : nat) : result softc :=
  if in_dec Nat.eq_dec b (cir_queue sc) then
    if (2 <=? length (cir_queue sc))%nat then
      Ok (upd_fbuf (set_cir_queue sc (remove Nat.eq_dec b (cir_queue sc))) b
            (fun x => set_on_cir_queue x false))
    else Fault
  else Fault.

(** [fbuf_write]: the sector address the buffer went to. *)
Definition fbuf_write (fuel : nat) (sc : softc) (b : nat) (p : ss_ptr)
  : result (Z * softc) :=
  let s := get_ss sc p in
  if SUM_OFF <=? ss_alloc_p s then Fault
  else
    let sa := u32 (sega2sa (sega s) + ss_alloc_p s) in
    let sc1 := fst (sc_dev_write sc sa (data (fbufs sc b))) in
    let sc2 := log sc1 (EvMetaWrite sa (ma (fbufs sc b))) in
    let sc3 := upd_fbuf sc2 b (fun x => set_modified x false) in
    let sc4 := set_fbuf_modified_count sc3 (i32 (fbuf_modified_count sc3 - 1)) in
    let sc5 := set_other_write_count sc4 (u32 (other_write_count sc4 + 1)) in
    let s1 := set_ss_alloc_p
                (set_ss_rm s (zset (ss_rm s) (ss_alloc_p s) (ma (fbufs sc b))))
                (u16 (ss_alloc_p s + 1)) in
    let sc6 := log (set_ss sc5 p s1)
                 (EvRevMap (sega s) (ss_alloc_p s) (ma (fbufs sc b))) in
    if ss_alloc_p s1 =? SUM_OFF then
      do sc7 <- seg_alloc fuel (seg_sum_write sc6 p) p;
      Ok (sa, sc7)
    else Ok (sa, sc6).

(** [fbuf_flush] *)
Definition fbuf_flush (fuel : nat) (sc : softc) (b : nat) (p : ss_ptr)
  : result softc :=
  do r <- fbuf_write fuel sc b p;
  let sa := fst r in
  let sc1 := snd r in
  let bf := fbufs sc1 b in
  match parent bf with
  | Some pb =>
      do pindex <- of_option (ma_index_get (ma bf) (ma_depth (ma bf) - 1));
      let sc2 := upd_fbuf sc1 pb (fun x => set_data x (zset (data x) pindex sa)) in
      if modified (fbufs sc2 pb) then Ok sc2
      else
        Ok (set_fbuf_modified_count
              (upd_fbuf sc2 pb (fun x => set_modified x true))
              (i32 (fbuf_modified_count sc2 + 1)))
  | None =>
      let fd := ma_fd (ma bf) in
      if FD_COUNT <=? fd then Fault
      else
        Ok (set_sb_modified
              (set_sb sc1 (set_ftab (sb sc1) (zset (ftab (sb sc1)) fd sa))) true)
  end.

(** The walk of [fbuf_alloc] along the circular queue: the second chance.
    [None]: every buffer had been accessed, the walk is back at
    [cir_buffer_head]. *)
Fixpoint fbuf_alloc_walk (sc : softc) (q : list nat) (k : nat)
  : softc * option (nat * nat) :=
  match q with
  | [] => (sc, None)
  | b :: q' =>
      if negb (accessed (fbufs sc b)) then (sc, Some (b, k))
      else fbuf_alloc_walk (upd_fbuf sc b (fun x => set_accessed x false)) q' (S k)
  end.

(** [fbuf_alloc] *)
Definition fbuf_alloc (fuel : nat) (sc : softc) : result (nat * softc) :=
  match cir_queue sc with
  | [] => Fault
  | h :: _ =>
      let q := cir_queue sc in
      let w := fbuf_alloc_walk sc q 0 in
      let sc1 := fst w in
      let buf := match snd w with Some x => fst x | None => h end in
      let k := match snd w with Some x => snd x | None => O end in
      let sc2 := set_cir_queue sc1 (skipn (S k) q ++ firstn (S k) q) in
      do sc3 <- (if modified (fbufs sc2 buf) then fbuf_flush fuel sc2 buf PHot
                 else Ok sc2);
      match parent (fbufs sc3 buf) with
      | None => Ok (buf, sc3)
      | Some pb =>
          let sc4 := upd_fbuf sc3 buf (fun x => set_parent x None) in
          let sc5 := upd_fbuf sc4 pb
                       (fun x => set_ref_cnt x (u16 (ref_cnt x - 1))) in
          if ref_cnt (fbufs sc5 pb) =? 0 then
            do sc7 <- fbuf_cir_queue_insert (indir_remove sc5 pb) pb;
            Ok (buf, upd_fbuf sc7 pb (fun x => set_accessed x false))
          else Ok (buf, sc5)
      end
  end.

(** [fbuf_read_and_hash] *)
Definition fbuf_read_and_hash (fuel : nat) (sc : softc) (sa m : Z)
  : result (nat * softc) :=
  do r <- fbuf_alloc fuel sc;
  let buf := fst r in
  let sc1 := snd r in
  let d := if sa =? SECTOR_NULL
           then repeat 0 (Z.to_nat (fbuf_data_len SECTOR_SIZE))
           else dev_read (dev sc1) sa in
  let sc2 := upd_fbuf sc1 buf (fun x => set_data x d) in
  let sc3 := upd_fbuf (fbuf_hash_remove sc2 buf) buf (fun x => set_ma x m) in
  Ok (buf, fbuf_hash_insert sc3 buf m).

(** The loop of [fbuf_get] from the root to the node [m]; [n] bounds the
    rounds left (the depth of an address is at most 3). *)
Fixpoint fbuf_get_loop (n fuel : nat) (sc : softc) (m i tma sa : Z)
  (pbuf : option nat) : result (nat * softc) :=
  match n with
  | O => Fault
  | S n' =>
      let tma := ma_set_depth tma i in
      let sr := fbuf_search sc tma in
      do r <- match fst sr with
              | None =>
                  do r <- fbuf_read_and_hash fuel (snd sr) sa tma;
                  Ok (fst r, upd_fbuf (snd r) (fst r) (fun x => set_parent x pbuf))
              | Some b =>
                  Ok (b, match pbuf with
                         | Some pb =>
                             upd_fbuf (snd sr) pb
                               (fun x => set_ref_cnt x (u16 (ref_cnt x - 1)))
                         | None => snd sr
                         end)
              end;
      let buf := fst r in
      let sc2 := snd r in
      if i =? ma_depth m then Ok (buf, sc2)
      else
        do sc3 <- (if on_cir_queue (fbufs sc2 buf) then
                     if META_LEAF_DEPTH <=? i then Fault
                     else
                       do s <- fbuf_cir_queue_remove sc2 buf;
                       Ok (upd_fbuf (indir_insert_head s i buf) buf
                             (fun x => set_ref_cnt x 0))
                   else Ok sc2);
        let sc4 := upd_fbuf sc3 buf (fun x => set_ref_cnt x (u16 (ref_cnt x + 1))) in
        do index <- of_option (ma_index_get m i);
        do tma' <- of_option (ma_index_set tma i index);
        fbuf_get_loop n' fuel sc4 m (i + 1) tma'
          (zget (data (fbufs sc4 buf)) index) (Some buf)
  end.

(** [fbuf_get] *)
Definition fbuf_get (fuel : nat) (sc : softc) (m : Z) : result (nat * softc) :=
  let sr := fbuf_search sc m in
  match fst sr with
  | Some b => Ok (b, snd sr)
  | None =>
      do sa <- of_option (nth_error (ftab (sb (snd sr))) (Z.to_nat (ma_fd m)));
      fbuf_get_loop 4 fuel (snd sr) m 0 (ma_set_fd META_BASE (ma_fd m)) sa None
  end.

(** [file_access]: the buffer and the byte offset into its data. *)
Definition file_access (fuel : nat) (sc : softc) (fd offset : Z) (bl_write : bool)
  : result (nat * Z * softc) :=
  let buf_off := file_access_buf_off offset in
  do r <- fbuf_get fuel sc (file_access_ma fd offset);
  let buf := fst r in
  let sc1 := upd_fbuf (snd r) buf (fun x => set_accessed x true) in
  if negb (modified (fbufs sc1 buf)) && bl_write then
    Ok (buf, buf_off,
        set_fbuf_modified_count (upd_fbuf sc1 buf (fun x => set_modified x true))
          (i32 (fbuf_modified_count sc1 + 1)))
  else Ok (buf, buf_off, sc1).

(** [file_read_4byte] *)
Definition file_read_4byte (fuel : nat) (sc : softc) (fd ba : Z)
  : result (Z * softc) :=
  do r <- file_access fuel sc fd (file_4byte_offset ba) false;
  let buf := fst (fst r) in
  let off := snd (fst r) in
  Ok (zget (data (fbufs (snd r) buf)) (off / 4), snd r).

(** [file_write_4byte] *)
Definition file_write_4byte (fuel : nat) (sc : softc) (fd ba sa : Z)
  : result softc :=
  do r <- file_access fuel sc fd (file_4byte_offset ba) true;
  let buf := fst (fst r) in
  let off := snd (fst r) in
  Ok (log (upd_fbuf (snd r) buf (fun x => set_data x (zset (data x) (off / 4) sa)))
        (EvFwdMap fd ba sa)).

(** [fbuf_ma2sa] *)
Definition fbuf_ma2sa (fuel : nat) (sc : softc) (m : Z) : result (Z * softc) :=
  if ma_depth m =? 0 then
    do sa <- of_option (nth_error (ftab (sb sc)) (Z.to_nat (ma_fd m)));
    Ok (sa, sc)
  else if (ma_depth m =? 1) || (ma_depth m =? 2) then
    do r <- fbuf_get fuel sc m;
    do pb <- of_option (parent (fbufs (snd r) (fst r)));
    do pindex <- of_option (ma_index_get m (ma_depth m - 1));
    Ok (zget (data (fbufs (snd r) pb)) pindex, snd r)
  else Fault.

(** [file_mod_init]: [fbuf_ratio] is 1.0.  For a pool of at least one
    buffer; with [fbuf_count = 0] the source closes the circular queue
    through [fbuf[0]] and [fbuf[fbuf_count - 1]] of an empty allocation
    (lines 1657-1658), which the state below does not describe. *)
Definition file_mod_init (sc : softc) : softc :=
  let n := max_block_cnt (sb sc) / (SECTOR_SIZE / 4) in
  let sc1 := set_fbuf_miss (set_fbuf_hit sc 0) 0 in
  let sc2 := set_fbuf_modified_count (set_fbuf_count sc1 n) 0 in
  let sc3 := set_fbuf_bucket sc2 (fun _ => []) in
  let zero := mkFbuf 0 true false false None META_INVALID
                (repeat 0 (Z.to_nat (fbuf_data_len SECTOR_SIZE))) in
  let sc4 := set_fbufs sc3 (fun _ => zero) in
  let sc5 := fold_left (fun s i => fbuf_hash_insert s i (Z.of_nat i))
               (seq 0 (Z.to_nat n)) sc4 in
  let sc6 := set_cir_queue sc5 (seq 0 (Z.to_nat n)) in
  set_indirect_head sc6 (fun _ => []).

(** [logstor_open] *)
Definition logstor_open (fuel : nat) (sc : softc) (rnd : Z) (junk : list Z)
  : result softc :=
  let r := superblock_read sc in
  let sc1 := if negb (fst r =? 0)
             then snd (superblock_init (snd r) (mediasize (dev (snd r))) rnd junk)
             else snd r in
  do sc2 <- seg_alloc fuel sc1 PCold;
  do sc3 <- seg_alloc fuel sc2 PHot;
  let sc4 := set_other_write_count (set_data_write_count sc3 0) 0 in
  let sc5 := set_clean_low_water sc4 (CLEAN_WINDOW * 2) in
  let sc6 := set_clean_high_water sc5 (u32 (clean_low_water sc5 + CLEAN_WINDOW * 2)) in
  Ok (file_mod_init sc6).

(* ================================================================= *)
(** ** The read path *)











(* ================================================================= *)
(** ** The cleaner's count of live blocks *)

(** One round of the loop of [seg_live_count] for the slot [i]: whether
    the slot is counted, and the state after the look-ups. *)
Definition seg_live_slot (fuel : nat) (sc : softc) (p : ss_ptr) (i : Z)
  : result (bool * softc) :=
  let ba := zget (ss_rm (get_ss sc p)) i in
  let seg_sa := sega2sa (sega (get_ss sc p)) in
  if IS_META_ADDR ba then
    do r <- fbuf_ma2sa fuel sc ba;
    if fst r =? u32 (seg_sa + i) then
      do g <- fbuf_get fuel (snd r) ba;
      let bf := fbufs (snd g) (fst g) in
      Ok (negb (modified bf) && negb (accessed bf), snd g)
    else Ok (false, snd r)
  else
    do r <- file_read_4byte fuel sc FD_ACTIVE ba;
    Ok (fst r =? u32 (seg_sa + i), snd r).

Fixpoint seg_live_count_loop (n fuel : nat) (sc : softc) (p : ss_ptr) (i live : Z)
  : result (Z * softc) :=
  match n with
  | O => Fault
  | S n' =>
      if i <? ss_alloc_p (get_ss sc p) then
        do r <- seg_live_slot fuel sc p i;
        seg_live_count_loop n' fuel (snd r) p (i + 1)
          (if fst r then u32 (live + 1) else live)
      else Ok (live, sc)
  end.

(** [seg_live_count]; [ss_alloc_p] is a [uint16_t], which bounds the
    rounds of the loop. *)
Definition seg_live_count (fuel : nat) (sc : softc) (p : ss_ptr) : result softc :=
  do r <- seg_live_count_loop (Z.to_nat 65536) fuel sc p 0 0;
  Ok (set_ss (snd r) p (set_live_count (get_ss (snd r) p) (fst r))).

(* ================================================================= *)
(** ** The write path

    [clean_check] runs the cleaner.  [seg_clean], which the cleaner calls,
    is not valid C in the source at hand (its call of [_logstor_write_one]
    lacks arguments and is followed by an unfinished call of
    [g_write_data]), so the cleaner is a parameter of the write path: a
    state transformer.  Its call is recorded as [EvCleanCheck]. *)

Section WritePath.

Variable clean_check : softc -> result softc.









End WritePath.

End Logstor.

(* ================================================================= *)
(** ** The softc as [g_malloc] with [M_ZERO] leaves it *)

Definition seg_sum_zero (n : nat) : seg_sum := mkSegSum (repeat 0 n) 0 0 0 0.

Definition softc_zero (SECTOR_SIZE : Z) (d : device) : softc :=
  let n := Z.to_nat (SEG_SUM_OFF SECTOR_SIZE) in
  mkSoftc (seg_sum_zero n) (seg_sum_zero n)
    (repeat (seg_sum_zero n) (Z.to_nat CLEAN_WINDOW))
    0 0 0 0 0
    (fun _ => mkFbuf 0 false false false None 0 [])
    (fun _ => []) [] (fun _ => [])
    0 0 0 0 false 0 None
    (mkSuperblock 0 0 0 0 0 0 0 0 0 [0; 0; 0])
    d [].

(** A device of [size] bytes filled with zeroes, on which no write fails. *)
Definition blank_device (size : Z) : device :=
  mkDevice (fun _ => []) (fun _ => false) size.

(* ================================================================= *)
(** ** The chain of superblocks on a device *)

(** The superblock the sector [i] of the device decodes to. *)
Definition sb_at (d : device) (i : Z) : superblock := sb_of_words (dev_read d i).

(** The sectors [0 .. k] all carry the signature, and each one after the
    first has the generation of its predecessor plus one, modulo 2^16. *)
Definition gen_chain (d : device) (k : Z) : Prop :=
  forall j, 0 <= j <= k ->
    sig (sb_at d j) = SIG_LOGSTOR /\
    (0 < j -> sb_gen (sb_at d j) = u16 (sb_gen (sb_at d (j - 1)) + 1)).

(** The chain [0 .. k] cannot be extended inside the first segment. *)
Definition gen_chain_maximal (SECTOR_SIZE : Z) (d : device) (k : Z) : Prop :=
  gen_chain d k /\
  (k = SECTORS_PER_SEG SECTOR_SIZE - 1 \/
   ~ (sig (sb_at d (k + 1)) = SIG_LOGSTOR /\
      sb_gen (sb_at d (k + 1)) = u16 (sb_gen (sb_at d k) + 1))).

(** [lo; lo + 1; ...], [n] numbers. *)
Definition zseq (lo : Z) (n : nat) : list Z :=
  map (fun k => lo + Z.of_nat k) (seq 0 n).

(** A sector image with the given fixed part of a superblock. *)
Definition sb_sector (gen cnt free alloc_p reclaim_p : Z) : list Z :=
  words_of_sb (mkSuperblock SIG_LOGSTOR VER_MAJOR VER_MINOR gen 0 cnt free
                 alloc_p reclaim_p [0; 0; 0]) [] [].

(** The ages of a superblock fit into a sector after the fixed part: the
    condition [superblock_init] asserts (line 843), for a count of
    segments that is not negative. *)
Definition seg_cnt_fits (SECTOR_SIZE : Z) (s : superblock) : Prop :=
  0 <= seg_cnt s /\ sizeof_superblock + seg_cnt s < SECTOR_SIZE.

(** [sc->seg_age], when it is allocated, holds at least [n] bytes. *)
Definition seg_age_room (sc : softc) (n : Z) : Prop :=
  match seg_age sc with
  | None => True
  | Some a => n <= Z.of_nat (length a)
  end.

(** Ranges of the fields of a superblock in memory. *)
Definition sb_in_range (s : superblock) : Prop :=
  0 <= sig s < 2 ^ 32 /\ 0 <= ver_major s < 2 ^ 8 /\ 0 <= ver_minor s < 2 ^ 8 /\
  0 <= sb_gen s < 2 ^ 16 /\ 0 <= max_block_cnt s < 2 ^ 32 /\
  - 2 ^ 31 <= seg_cnt s < 2 ^ 31 /\ - 2 ^ 31 <= seg_free_cnt s < 2 ^ 31 /\
  - 2 ^ 31 <= seg_alloc_p s < 2 ^ 31 /\ - 2 ^ 31 <= seg_reclaim_p s < 2 ^ 31 /\
  exists f0 f1 f2, ftab s = [f0; f1; f2] /\
    0 <= f0 < 2 ^ 32 /\ 0 <= f1 < 2 ^ 32 /\ 0 <= f2 < 2 ^ 32.


(** A [struct _seg_sum *] that points into the softc. *)
Definition ss_ptr_ok (sc : softc) (p : ss_ptr) : Prop :=
  match p with
  | PCand i => (i < length (clean_candidate sc))%nat
  | _ => True
  end.

(* ================================================================= *)
(** ** The shape of the buffer cache *)

(** The number of buffers of the pool. *)
Definition pool_size (sc : softc) : nat := Z.to_nat (fbuf_count sc).

(** The two indirect queues together (depth 0 and depth 1). *)
Definition indirect_queues (sc : softc) : list nat :=
  indirect_head sc 0 ++ indirect_head sc 1.

(** Whether the buffer [b] has [p] as its parent. *)
Definition is_child (sc : softc) (p b : nat) : bool :=
  match parent (fbufs sc b) with
  | Some x => Nat.eqb x p
  | None => false
  end.

(** The number of buffers of the pool that have [p] as their parent. *)
Definition children (sc : softc) (p : nat) : nat :=
  length (filter (is_child sc p) (seq 0 (pool_size sc))).

(** The address of the block one level up the tree: the root of the file
    for an address of depth 1, else the inner block, the index without its
    low 10 bits. *)
Definition up_ma (m : Z) : Z :=
  if ma_depth m =? 1 then Z.land m 0xFFC00000
  else Z.lor (Z.land m 0xFFCFFC00) 0x100000.

(** A one, for the buffer whose reference count [fbuf_get] has raised ahead
    of attaching a child to it. *)
Definition pin_bit (pin : option nat) (b : nat) : Z :=
  match pin with
  | Some x => if Nat.eqb x b then 1 else 0
  | None => 0
  end.

(** The invariant of the cache.  [pin] is the buffer whose reference count
    is one ahead of its children; [ex] is a buffer that has been taken for
    reuse and is not yet linked to its parent. *)
Record cache_inv (sc : softc) (pin ex : option nat) : Prop := mkCacheInv {
  ci_nodup : NoDup (cir_queue sc ++ indirect_queues sc);
  ci_cover : forall b, In b (cir_queue sc ++ indirect_queues sc) <-> (b < pool_size sc)%nat;
  ci_small : Z.of_nat (pool_size sc) < 65535;
  ci_cir : forall b, In b (cir_queue sc) ->
             on_cir_queue (fbufs sc b) = true /\ ref_cnt (fbufs sc b) = 0;
  ci_ind : forall b, In b (indirect_queues sc) ->
             on_cir_queue (fbufs sc b) = false /\
             ref_cnt (fbufs sc b) = Z.of_nat (children sc b) + pin_bit pin b /\
             0 < ref_cnt (fbufs sc b);
  ci_other : forall d, d <> 0 -> d <> 1 -> indirect_head sc d = [];
  ci_parent : forall b p, (b < pool_size sc)%nat -> parent (fbufs sc b) = Some p ->
                In p (indirect_queues sc);
  ci_pin : forall p, pin = Some p -> In p (indirect_queues sc);
  ci_uniq : forall b b', (b < pool_size sc)%nat -> (b' < pool_size sc)%nat ->
              ma (fbufs sc b) = ma (fbufs sc b') ->
              IS_META_ADDR (ma (fbufs sc b)) = true -> b = b';
  ci_bucket_in : forall h b, In b (fbuf_bucket sc h) -> (b < pool_size sc)%nat;
  ci_bucket : forall b, (b < pool_size sc)%nat ->
                IS_META_ADDR (ma (fbufs sc b)) = true ->
                In b (fbuf_bucket sc (bucket_of (ma (fbufs sc b))));
  ci_struct : forall b, (b < pool_size sc)%nat -> ex <> Some b ->
                IS_META_ADDR (ma (fbufs sc b)) = true ->
                ma_depth (ma (fbufs sc b)) <> 0 ->
                exists p, parent (fbufs sc b) = Some p /\
                          ma (fbufs sc p) = up_ma (ma (fbufs sc b)) /\
                          IS_META_ADDR (ma (fbufs sc p)) = true
}.

(** Two states with the same cache shape: the same queues and hash chains
    and, buffer by buffer, the same links, counts and addresses. *)
Definition same_shape (sc sc' : softc) : Prop :=
  fbuf_count sc' = fbuf_count sc /\
  cir_queue sc' = cir_queue sc /\
  indirect_head sc' = indirect_head sc /\
  fbuf_bucket sc' = fbuf_bucket sc /\
  forall b, ref_cnt (fbufs sc' b) = ref_cnt (fbufs sc b) /\
            on_cir_queue (fbufs sc' b) = on_cir_queue (fbufs sc b) /\
            parent (fbufs sc' b) = parent (fbufs sc b) /\
            ma (fbufs sc' b) = ma (fbufs sc b).

(** The address of the block at depth [i] on the way from the root of its
    file to the block [m]: the tag and the file of [m], the depth [i], and
    of the index of [m] the part the levels above [i] have consumed. *)
Definition anc (m i : Z) : Z :=
  ma_set_depth
    (Z.lor (ma_set_fd META_BASE (ma_fd m))
       (if i =? 0 then 0 else if i =? 1 then Z.land m 0xFFC00 else Z.land m 0xFFFFF))
    i.

(** An address is canonical when it is the end of its own way: no bits
    beside the tag, the file, the depth and the index its depth uses. *)
Definition canonical_ma (m : Z) : Prop := anc m (ma_depth m) = m.

(** Blocks have their length: the data of every buffer and every sector of
    the device hold [SECTOR_SIZE / 4] words, and the reverse map of the hot
    segment summary one word less (the last word of its sector holds
    [ss_gen] and [ss_alloc_p]). *)
Definition len_inv (SECTOR_SIZE : Z) (sc : softc) : Prop :=
  (forall b, length (data (fbufs sc b)) = Z.to_nat (fbuf_data_len SECTOR_SIZE)) /\
  (forall sa, length (dev_read (dev sc) sa) = Z.to_nat (fbuf_data_len SECTOR_SIZE)) /\
  S (length (ss_rm (seg_sum_hot sc))) = Z.to_nat (fbuf_data_len SECTOR_SIZE).

(** A device of [size] bytes with sectors of [n] words, all zero, on which
    no write fails. *)
Definition zero_device (n : nat) (size : Z) : device :=
  mkDevice (fun _ => repeat 0 n) (fun _ => false) size.

(* ================================================================= *)
(** * Properties *)

(** ** Machine integers and bit fields *)

Lemma u32_range x : 0 <= u32 x < 2 ^ 32.
Proof. unfold u32. apply Z.mod_pos_bound. lia. Qed.

Lemma u16_range x : 0 <= u16 x < 2 ^ 16.
Proof. unfold u16. apply Z.mod_pos_bound. lia. Qed.

Lemma u32_small x : 0 <= x < 2 ^ 32 -> u32 x = x.
Proof. intros. unfold u32. apply Z.mod_small. lia. Qed.

Lemma u16_small x : 0 <= x < 2 ^ 16 -> u16 x = x.
Proof. intros. unfold u16. apply Z.mod_small. lia. Qed.

Lemma i32_small x : - 2 ^ 31 <= x < 2 ^ 31 -> i32 x = x.
Proof. intros. unfold i32. rewrite Z.mod_small; lia. Qed.

Lemma land_3ff x : 0 <= Z.land x 0x3ff < 1024.
Proof.
  change 0x3ff with (Z.ones 10). rewrite Z.land_ones by lia.
  apply Z.mod_pos_bound. lia.
Qed.

Lemma land_fff x : 0 <= Z.land x 0xfff < 4096.
Proof.
  change 0xfff with (Z.ones 12). rewrite Z.land_ones by lia.
  apply Z.mod_pos_bound. lia.
Qed.

(** The static assertions of the source pin the sector size down. *)
Lemma static_asserts_sector_size SS : static_asserts SS -> SS = 4096.
Proof.
  unfold static_asserts, sizeof_seg_sum_disk, sizeof_superblock, SECTORS_PER_SEG,
    SEG_SIZE, FD_COUNT.
  intros [Hlt Heq].
  assert (Hpos : 0 < SS) by lia.
  set (q := 4194304 / SS) in *.
  assert (Hq : SS = 4 * q) by lia.
  assert (Hd : 4194304 = SS * q + 4194304 mod SS)
    by (unfold q; apply Z.div_mod; lia).
  assert (Hm : 0 <= 4194304 mod SS < SS) by (apply Z.mod_pos_bound; lia).
  assert (q = 1024) by nia.
  lia.
Qed.

Lemma static_asserts_4096 : static_asserts 4096.
Proof. split; reflexivity. Qed.

(* ================================================================= *)
(** ** C5: the accesses to a forward-map block stay inside the block *)

(** C5, as stated, fails.  With [SECTOR_SIZE = 512] a block holds 128
    entries of four bytes; on a device of 1 GiB the block addresses 128 and
    131072 are below [max_block_cnt], yet [file_access] computes the byte
    offset 512 for the first and [ma_index_get] the index 128 at depth 1
    for the second. *)
Lemma file_access_exceeds_block_of_512 :
  let mbc := fst (superblock_init 512 (softc_zero 512 (blank_device (2 ^ 30)))
                    (2 ^ 30) 0 []) in
  (0 <= 128 < mbc /\
   ~ file_access_buf_off (file_4byte_offset 128) < 512) /\
  (0 <= 131072 < mbc /\
   ma_index_get (file_access_ma FD_ACTIVE (file_4byte_offset 131072)) 1 = Some 128 /\
   ~ 128 < 512 / 4).
Proof. vm_compute. repeat split; try discriminate; intro H; discriminate H. Qed.

(** C5, amended: the sector size the source is written for is 4096 bytes
    (its static assertion on [struct _seg_sum] admits no other), a block
    holds 1024 entries, and for every block address the byte offset
    [file_access] computes is below the sector size, the entry it selects is
    in the block, and so are the indexes [ma_index_get] yields at depth 0
    and 1 for the leaf address. *)
Theorem file_access_within_block (SS ba : Z) :
  static_asserts SS ->
  let off := file_access_buf_off (file_4byte_offset ba) in
  let m := file_access_ma FD_ACTIVE (file_4byte_offset ba) in
  fbuf_data_len SS = 1024 /\
  0 <= off < SS /\
  0 <= off / 4 < fbuf_data_len SS /\
  exists i0 i1,
    ma_index_get m 0 = Some i0 /\ 0 <= i0 < fbuf_data_len SS /\
    ma_index_get m 1 = Some i1 /\ 0 <= i1 < fbuf_data_len SS.
Proof.
  intros HS. apply static_asserts_sector_size in HS. subst SS. cbv zeta.
  assert (HL : fbuf_data_len 4096 = 1024) by reflexivity.
  rewrite HL. split; [reflexivity|].
  pose proof (land_fff (file_4byte_offset ba)) as Hoff.
  unfold file_access_buf_off. split; [lia|]. split.
  - split; [apply Z.div_pos; lia | apply Z.div_lt_upper_bound; lia].
  - set (m := file_access_ma FD_ACTIVE (file_4byte_offset ba)).
    exists (Z.land (Z.shiftr m 10) 0x3ff), (Z.land m 0x3ff).
    split; [reflexivity|]. split; [apply land_3ff|].
    split; [reflexivity|apply land_3ff].
Qed.

Lemma file_access_within_block_witness :
  static_asserts 4096 /\
  0 <= file_access_buf_off (file_4byte_offset 1023) < 4096.
Proof.
  split; [split; reflexivity|].
  apply (file_access_within_block 4096 1023). split; reflexivity.
Defined.

(* ================================================================= *)
(** ** C10: the free segments of a device of 16 MiB after open *)

(** C10, as stated, fails: on a blank device of 16 MiB, [superblock_init]
    followed by [logstor_open] leaves [seg_free_cnt] at 1, not 2, for a
    sector size of 4096 as for one of 512.  Segment 0 holds the
    superblocks, so 3 of the 4 segments are free before the cold and the
    hot segment are taken. *)
Lemma open_16MiB_free_is_not_2 :
  (let d := blank_device (16 * 1024 * 1024) in
   let sc1 := snd (superblock_init 4096 (softc_zero 4096 d) (mediasize d) 7 []) in
   match logstor_open 4096 2 sc1 9 [] with
   | Ok sc' => seg_cnt (sb sc') = 4 /\ seg_free_cnt (sb sc') = 1 /\
               seg_free_cnt (sb sc') <> 2
   | _ => False
   end) /\
  (let d := blank_device (16 * 1024 * 1024) in
   let sc1 := snd (superblock_init 512 (softc_zero 512 d) (mediasize d) 7 []) in
   match logstor_open 512 2 sc1 9 [] with
   | Ok sc' => seg_cnt (sb sc') = 4 /\ seg_free_cnt (sb sc') = 1 /\
               seg_free_cnt (sb sc') <> 2
   | _ => False
   end).
Proof. split; vm_compute; (split; [reflexivity | split; [reflexivity | discriminate]]). Qed.

Lemma superblock_read_no_signature (SS : Z) (sc : softc) :
  sig (sb_of_words (dev_read (dev sc) 0)) <> SIG_LOGSTOR ->
  superblock_read SS sc = (EINVAL, sb_probe sc 0).
Proof.
  intros H. unfold superblock_read, sb_invalid.
  change (sb (sb_probe sc 0)) with (sb_of_words (dev_read (dev sc) 0)).
  apply Z.eqb_neq in H. rewrite H. reflexivity.
Qed.

(** C10, amended: on a device of 16 MiB that carries no superblock,
    [logstor_open] runs [superblock_init] and takes the cold and then the
    hot segment; after it the device has 4 segments, [max_block_cnt] is
    greater than 0 and [seg_free_cnt] equals 1 (segment 0 is kept for the
    superblocks, segments 1 and 2 are the cold and the hot one). *)
Theorem open_16MiB_free_is_1 (SS : Z) (d : device) (rnd : Z) (junk : list Z)
  (fuel : nat) :
  SS = 512 \/ SS = 4096 ->
  mediasize d = 16 * 1024 * 1024 ->
  sig (sb_of_words (dev_read d 0)) <> SIG_LOGSTOR ->
  (1 <= fuel)%nat ->
  match logstor_open SS fuel (softc_zero SS d) rnd junk with
  | Ok sc' =>
      seg_cnt (sb sc') = 4 /\ 0 < max_block_cnt (sb sc') /\
      seg_free_cnt (sb sc') = 1 /\
      sega (seg_sum_cold sc') = 1 /\ sega (seg_sum_hot sc') = 2
  | _ => False
  end.
Proof.
  intros HSS Hm Hsig Hf.
  destruct fuel as [|fuel]; [lia|].
  destruct d as [b w m]. simpl in Hm. subst m.
  unfold logstor_open.
  rewrite superblock_read_no_signature by exact Hsig.
  destruct HSS as [-> | ->]; vm_compute; repeat split.
Qed.

Lemma open_16MiB_free_is_1_witness :
  match logstor_open 4096 1 (softc_zero 4096 (blank_device (16 * 1024 * 1024))) 0 [] with
  | Ok sc' =>
      seg_cnt (sb sc') = 4 /\ 0 < max_block_cnt (sb sc') /\
      seg_free_cnt (sb sc') = 1 /\
      sega (seg_sum_cold sc') = 1 /\ sega (seg_sum_hot sc') = 2
  | _ => False
  end.
Proof.
  apply (open_16MiB_free_is_1 4096 (blank_device (16 * 1024 * 1024)) 0 [] 1).
  - right; reflexivity.
  - reflexivity.
  - vm_compute; discriminate.
  - lia.
Defined.

(* ================================================================= *)
(** ** C3: the superblock [superblock_read] selects *)

Lemma zseq_S lo n : zseq lo (S n) = zseq lo n ++ [lo + Z.of_nat n].
Proof.
  unfold zseq. rewrite seq_S, map_app. reflexivity.
Qed.

Lemma zseq_cons lo n : zseq lo (S n) = lo :: zseq (lo + 1) n.
Proof.
  unfold zseq. simpl. rewrite Z.add_0_r. f_equal.
  rewrite <- seq_shift, map_map. apply map_ext. intros. lia.
Qed.

Lemma gen_chain_step d k :
  0 <= k -> gen_chain d k ->
  sig (sb_at d (k + 1)) = SIG_LOGSTOR ->
  sb_gen (sb_at d (k + 1)) = u16 (sb_gen (sb_at d k) + 1) ->
  gen_chain d (k + 1).
Proof.
  intros Hk Hc Hs Hg j Hj.
  destruct (Z.eq_dec j (k + 1)) as [-> | Hne].
  - split; [exact Hs|]. intros _. replace (k + 1 - 1) with k by lia. exact Hg.
  - apply Hc. lia.
Qed.

Lemma sb_scan_S (SS : Z) (n : nat) (sc : softc) (i gen : Z) :
  sb_scan SS (S n) sc i gen =
  if i <? SECTORS_PER_SEG SS then
    if negb (sig (sb (sb_probe sc i)) =? SIG_LOGSTOR) then (i, sb_probe sc i)
    else if negb (sb_gen (sb (sb_probe sc i)) =? u16 (gen + 1)) then (i, sb_probe sc i)
    else sb_scan SS n (sb_probe sc i) (i + 1) (sb_gen (sb (sb_probe sc i)))
  else (i, sc).
Proof. reflexivity. Qed.

Lemma sb_scan_end (SS : Z) (n : nat) (sc : softc) (gen : Z) :
  sb_scan SS n sc (SECTORS_PER_SEG SS) gen = (SECTORS_PER_SEG SS, sc).
Proof.
  destruct n; [reflexivity|]. rewrite sb_scan_S, Z.ltb_irrefl. reflexivity.
Qed.

Lemma zseq_one (i : Z) : zseq i 1 = [i].
Proof. unfold zseq. cbn [seq map]. rewrite Z.add_0_r. reflexivity. Qed.

(** There is one maximal chain. *)
Lemma gen_chain_maximal_unique (SS : Z) (d : device) (k1 k2 : Z) :
  0 <= k1 < SECTORS_PER_SEG SS -> 0 <= k2 < SECTORS_PER_SEG SS ->
  gen_chain_maximal SS d k1 -> gen_chain_maximal SS d k2 -> k1 = k2.
Proof.
  assert (Hlt : forall a b, 0 <= a < SECTORS_PER_SEG SS -> 0 <= b < SECTORS_PER_SEG SS ->
                  gen_chain_maximal SS d a -> gen_chain_maximal SS d b -> ~ a < b).
  { intros a b Ha Hb [_ Hmax] [Hc _] Hab.
    destruct Hmax as [He | Hn]; [lia|]. apply Hn.
    destruct (Hc (a + 1) ltac:(lia)) as [Hs Hg]. split; [exact Hs|].
    replace (a + 1 - 1) with a in Hg by lia. apply Hg. lia. }
  intros H1 H2 M1 M2.
  pose proof (Hlt k1 k2 H1 H2 M1 M2). pose proof (Hlt k2 k1 H2 H1 M2 M1). lia.
Qed.

(** The probing loop: where it stops, what it has read, and that it reads
    and changes nothing else. *)
Lemma sb_scan_spec (SS : Z) (d : device) :
  forall (n : nat) (sc : softc) (i : Z),
    dev sc = d -> 1 <= i <= SECTORS_PER_SEG SS ->
    SECTORS_PER_SEG SS - i <= Z.of_nat n ->
    gen_chain d (i - 1) ->
    let r := sb_scan SS n sc i (sb_gen (sb_at d (i - 1))) in
    let i' := fst r in
    i <= i' <= SECTORS_PER_SEG SS /\
    gen_chain_maximal SS d (i' - 1) /\
    dev (snd r) = d /\ seg_age (snd r) = seg_age sc /\
    trace (snd r) =
      rev (map EvSbRead (zseq i (Z.to_nat (Z.min (i' + 1) (SECTORS_PER_SEG SS) - i))))
      ++ trace sc.
Proof.
  induction n as [|n IH]; intros sc i Hd Hi Hn Hc; cbv zeta.
  - assert (i = SECTORS_PER_SEG SS) by lia. subst i.
    rewrite sb_scan_end. cbn [fst snd].
    split; [lia|]. split; [split; [exact Hc | left; reflexivity]|].
    split; [exact Hd|]. split; [reflexivity|].
    replace (Z.to_nat _) with 0%nat by lia. reflexivity.
  - destruct (Z.eq_dec i (SECTORS_PER_SEG SS)) as [He | Hne].
    { subst i. rewrite sb_scan_end. cbn [fst snd].
      split; [lia|]. split; [split; [exact Hc | left; reflexivity]|].
      split; [exact Hd|]. split; [reflexivity|].
      replace (Z.to_nat _) with 0%nat by lia. reflexivity. }
    rewrite sb_scan_S.
    assert (Hlt : (i <? SECTORS_PER_SEG SS) = true) by (apply Z.ltb_lt; lia).
    rewrite Hlt.
    assert (Hsb : sb (sb_probe sc i) = sb_at d i)
      by (unfold sb_probe, sb_at; rewrite <- Hd; reflexivity).
    rewrite Hsb.
    assert (Hdev1 : dev (sb_probe sc i) = d) by exact Hd.
    assert (Hage1 : seg_age (sb_probe sc i) = seg_age sc) by reflexivity.
    assert (Htr1 : trace (sb_probe sc i) = EvSbRead i :: trace sc) by reflexivity.
    destruct (sig (sb_at d i) =? SIG_LOGSTOR) eqn:Hs; cbn [negb].
    + destruct (sb_gen (sb_at d i) =? u16 (sb_gen (sb_at d (i - 1)) + 1)) eqn:Hg;
        cbn [negb].
      * apply Z.eqb_eq in Hs, Hg.
        assert (Hc' : gen_chain d i).
        { replace i with (i - 1 + 1) by lia.
          apply gen_chain_step; [lia | exact Hc | |];
            replace (i - 1 + 1) with i by lia; assumption. }
        specialize (IH (sb_probe sc i) (i + 1)).
        replace (i + 1 - 1) with i in IH by lia.
        specialize (IH Hdev1 ltac:(lia) ltac:(lia) Hc'). cbv zeta in IH.
        destruct IH as (Hr & Hmax & Hdev & Hage & Htr).
        set (r := sb_scan SS n (sb_probe sc i) (i + 1) (sb_gen (sb_at d i))) in *.
        split; [lia|]. split; [exact Hmax|]. split; [exact Hdev|].
        split; [rewrite Hage; exact Hage1|]. rewrite Htr, Htr1.
        replace (Z.to_nat (Z.min (fst r + 1) (SECTORS_PER_SEG SS) - i))
          with (S (Z.to_nat (Z.min (fst r + 1) (SECTORS_PER_SEG SS) - (i + 1)))) by lia.
        rewrite zseq_cons. cbn [map rev]. rewrite <- app_assoc. reflexivity.
      * apply Z.eqb_neq in Hg. cbn [fst snd].
        split; [lia|]. split.
        { split; [exact Hc|]. right. replace (i - 1 + 1) with i by lia.
          intros [_ Hg']. contradiction. }
        split; [exact Hdev1|]. split; [exact Hage1|].
        replace (Z.to_nat (Z.min (i + 1) (SECTORS_PER_SEG SS) - i)) with 1%nat by lia.
        rewrite zseq_one, Htr1. reflexivity.
    + apply Z.eqb_neq in Hs. cbn [fst snd].
      split; [lia|]. split.
      { split; [exact Hc|]. right. replace (i - 1 + 1) with i by lia.
        intros [Hs' _]. contradiction. }
      split; [exact Hdev1|]. split; [exact Hage1|].
      replace (Z.to_nat (Z.min (i + 1) (SECTORS_PER_SEG SS) - i)) with 1%nat by lia.
      rewrite zseq_one, Htr1. reflexivity.
Qed.

(** C3, as stated, fails.  On this device the sectors 0 and 1 form the
    maximal chain (sector 2 has no signature), sector 0 carries the
    signature, and the pointers of the selected superblock, sector 1, are
    below its [seg_cnt]; yet [superblock_read] fails, because
    [seg_alloc_p] of sector 0 is not below [seg_cnt]. *)
Lemma superblock_read_rejects_first_sector :
  let d := mkDevice (fun sa => if sa =? 0 then sb_sector 5 4 3 4 1
                               else if sa =? 1 then sb_sector 6 4 1 3 1
                               else [])
             (fun _ => false) (16 * 1024 * 1024) in
  sig (sb_at d 0) = SIG_LOGSTOR /\
  gen_chain_maximal 4096 d 1 /\
  seg_alloc_p (sb_at d 1) < seg_cnt (sb_at d 1) /\
  seg_reclaim_p (sb_at d 1) < seg_cnt (sb_at d 1) /\
  fst (superblock_read 4096 (softc_zero 4096 d)) = EINVAL.
Proof.
  cbv zeta. split; [reflexivity|]. split.
  - split.
    + intros j Hj. assert (Hj' : j = 0 \/ j = 1) by lia.
      destruct Hj' as [-> | ->]; (split; [reflexivity|]); intros H; [lia | reflexivity].
    + right. intros [H _]. vm_compute in H. discriminate H.
  - split; [reflexivity|]. split; reflexivity.
Qed.

(** C3, amended: [superblock_read] probes the sectors from 0 on, in
    order, up to the first one that breaks the chain, and selects the last
    sector of the maximal chain that starts at sector 0, in which every
    sector carries the LOGS signature and every next sector has the
    generation of the one before plus 1 modulo 2^16.  It fails, with
    EINVAL, exactly when sector 0 lacks the signature, or [seg_alloc_p] or
    [seg_reclaim_p] of sector 0 is not below its [seg_cnt] (then after the
    probe of sector 0 alone), or [seg_alloc_p] or [seg_reclaim_p] of the
    selected superblock is not below its [seg_cnt].  A selected superblock
    that passes this test has its [seg_cnt] bytes of ages copied out of the
    sector buffer: the result is stated for a [seg_cnt] that is not
    negative and whose ages fit into the sector, and for a [seg_age] that,
    if already allocated, has room for them. *)
Theorem superblock_read_selects (SS : Z) (sc : softc) :
  1 <= SECTORS_PER_SEG SS ->
  let d := dev sc in
  let r := superblock_read SS sc in
  (sb_invalid (sb_at d 0) = true ->
     fst r = EINVAL /\ trace (snd r) = EvSbRead 0 :: trace sc) /\
  (sb_invalid (sb_at d 0) = false ->
     exists k,
       0 <= k < SECTORS_PER_SEG SS /\
       gen_chain_maximal SS d k /\
       (sb_invalid (sb_at d k) = true \/
        seg_cnt_fits SS (sb_at d k) /\ seg_age_room sc (seg_cnt (sb_at d k)) ->
        sb_sa (snd r) = k /\ sb (snd r) = sb_at d k /\
        trace (snd r) =
          rev (map EvSbRead (zseq 0 (Z.to_nat (Z.min (k + 2) (SECTORS_PER_SEG SS)))))
          ++ trace sc /\
        (fst r = 0 \/ fst r = EINVAL) /\
        (fst r = EINVAL <->
           seg_alloc_p (sb_at d k) >= seg_cnt (sb_at d k) \/
           seg_reclaim_p (sb_at d k) >= seg_cnt (sb_at d k)))).
Proof.
  intros HS. cbv zeta. unfold superblock_read.
  assert (Hsb0 : sb (sb_probe sc 0) = sb_at (dev sc) 0) by reflexivity.
  rewrite Hsb0. split; intros H0; rewrite H0.
  - split; reflexivity.
  - cbv iota.
    assert (Hsig0 : sig (sb_at (dev sc) 0) = SIG_LOGSTOR).
    { unfold sb_invalid in H0. apply orb_false_iff in H0. destruct H0 as [H0 _].
      apply orb_false_iff in H0. destruct H0 as [H0 _].
      apply negb_false_iff in H0. apply Z.eqb_eq in H0. exact H0. }
    assert (Hc0 : gen_chain (dev sc) (1 - 1)).
    { intros j Hj. assert (j = 0) by lia. subst j. split; [exact Hsig0 | lia]. }
    pose proof (sb_scan_spec SS (dev sc) (Z.to_nat (SECTORS_PER_SEG SS))
                  (sb_probe sc 0) 1 eq_refl ltac:(lia) ltac:(lia) Hc0) as Hscan.
    cbv zeta in Hscan. replace (1 - 1) with 0 in Hscan by lia.
    set (r := sb_scan SS (Z.to_nat (SECTORS_PER_SEG SS)) (sb_probe sc 0) 1
                (sb_gen (sb_at (dev sc) 0))) in *.
    destruct Hscan as (Hi & Hmax & Hdev & Hage & Htr).
    exists (fst r - 1).
    assert (Hsel : sb_of_words (dev_read (dev sc) (fst r - 1)) = sb_at (dev sc) (fst r - 1))
      by reflexivity.
    rewrite Hsel.
    assert (Htrace : trace (snd r) =
              rev (map EvSbRead
                     (zseq 0 (Z.to_nat (Z.min (fst r - 1 + 2) (SECTORS_PER_SEG SS)))))
              ++ trace sc).
    { rewrite Htr.
      replace (Z.to_nat (Z.min (fst r - 1 + 2) (SECTORS_PER_SEG SS)))
        with (S (Z.to_nat (Z.min (fst r + 1) (SECTORS_PER_SEG SS) - 1))) by lia.
      rewrite zseq_cons. simpl. rewrite <- app_assoc. reflexivity. }
    assert (Hsigk : sig (sb_at (dev sc) (fst r - 1)) = SIG_LOGSTOR).
    { destruct Hmax as [Hc _]. apply (Hc (fst r - 1)). lia. }
    assert (Hinv : sb_invalid (sb_at (dev sc) (fst r - 1)) = true <->
              seg_alloc_p (sb_at (dev sc) (fst r - 1)) >= seg_cnt (sb_at (dev sc) (fst r - 1)) \/
              seg_reclaim_p (sb_at (dev sc) (fst r - 1)) >= seg_cnt (sb_at (dev sc) (fst r - 1))).
    { unfold sb_invalid. rewrite Hsigk, Z.eqb_refl. simpl.
      rewrite orb_true_iff, !Z.geb_le. lia. }
    split; [lia|]. split; [exact Hmax|]. intros _.
    destruct (sb_invalid (sb_at (dev sc) (fst r - 1))) eqn:Hk; simpl.
    + split; [reflexivity|]. split; [reflexivity|]. split; [exact Htrace|].
      split; [right; reflexivity|]. split; intros _; [apply Hinv|]; reflexivity.
    + split; [reflexivity|]. split; [reflexivity|]. split; [exact Htrace|].
      split; [left; reflexivity|]. split.
      * intros H. discriminate H.
      * intros H. apply Hinv in H. discriminate H.
Qed.

Lemma superblock_read_selects_witness :
  let d := mkDevice (fun sa => if sa =? 0 then sb_sector 5 4 3 1 1
                               else if sa =? 1 then sb_sector 6 4 1 3 1
                               else [])
             (fun _ => false) (16 * 1024 * 1024) in
  let r := superblock_read 4096 (softc_zero 4096 d) in
  1 <= SECTORS_PER_SEG 4096 /\
  sb_invalid (sb_at d 0) = false /\
  gen_chain_maximal 4096 d 1 /\
  seg_cnt_fits 4096 (sb_at d 1) /\
  seg_age_room (softc_zero 4096 d) (seg_cnt (sb_at d 1)) /\
  sb_sa (snd r) = 1 /\ sb (snd r) = sb_at d 1 /\
  trace (snd r) = [EvSbRead 2; EvSbRead 1; EvSbRead 0] /\
  fst r = 0.
Proof.
  cbv zeta.
  set (d := mkDevice (fun sa => if sa =? 0 then sb_sector 5 4 3 1 1
                                else if sa =? 1 then sb_sector 6 4 1 3 1
                                else [])
              (fun _ => false) (16 * 1024 * 1024)).
  assert (HS : 1 <= SECTORS_PER_SEG 4096) by (vm_compute; discriminate).
  assert (H0 : sb_invalid (sb_at d 0) = false) by reflexivity.
  assert (Hmax : gen_chain_maximal 4096 d 1).
  { split.
    - intros j Hj. assert (Hj' : j = 0 \/ j = 1) by lia.
      destruct Hj' as [-> | ->]; (split; [reflexivity|]); intros H; [lia | reflexivity].
    - right. intros [H _]. vm_compute in H. discriminate H. }
  assert (Hfits : seg_cnt_fits 4096 (sb_at d 1))
    by (vm_compute; split; [discriminate | reflexivity]).
  assert (Hroom : seg_age_room (softc_zero 4096 d) (seg_cnt (sb_at d 1))) by exact I.
  destruct (proj2 (superblock_read_selects 4096 (softc_zero 4096 d) HS) H0)
    as (k & Hk & Hmaxk & Hsel).
  assert (Ek : k = 1).
  { apply (gen_chain_maximal_unique 4096 d); [exact Hk | | exact Hmaxk | exact Hmax].
    vm_compute. split; [discriminate | reflexivity]. }
  subst k.
  destruct (Hsel (or_intror (conj Hfits Hroom))) as (H1 & H2 & H3 & H4 & H5).
  split; [exact HS|]. split; [exact H0|]. split; [exact Hmax|].
  split; [exact Hfits|]. split; [exact Hroom|].
  split; [exact H1|]. split; [exact H2|]. split; [exact H3|].
  destruct H4 as [Hz | He]; [exact Hz|].
  apply H5 in He. vm_compute in He. destruct He as [He | He]; exfalso; apply He; reflexivity.
Defined.

(* ================================================================= *)
(** * Further properties of the code *)

(** ** Bit fields of the addresses *)

Lemma testbit_ones_full n m : 0 <= n -> Z.testbit (Z.ones n) m = (0 <=? m) && (m <? n).
Proof.
  intros Hn. destruct (Z.leb_spec 0 m).
  - rewrite Z.testbit_ones_nonneg by lia. reflexivity.
  - rewrite Z.testbit_neg_r by lia. reflexivity.
Qed.

Lemma u32_bits x n : Z.testbit (u32 x) n = (n <? 32) && Z.testbit x n.
Proof.
  unfold u32. destruct (Z.leb_spec 0 n).
  - destruct (Z.ltb_spec n 32).
    + rewrite Z.mod_pow2_bits_low by lia. reflexivity.
    + rewrite Z.mod_pow2_bits_high by lia. reflexivity.
  - rewrite !Z.testbit_neg_r by lia. destruct (n <? 32); reflexivity.
Qed.

Lemma small_bits x k n : 0 <= x < 2 ^ k -> k <= n -> Z.testbit x n = false.
Proof.
  intros Hx Hn. destruct (Z.eq_dec x 0) as [-> | Hne].
  - apply Z.bits_0.
  - assert (Hk : 0 <= k).
    { destruct (Z.leb_spec 0 k); [assumption|].
      rewrite Z.pow_neg_r in Hx by lia. lia. }
    apply Z.bits_above_log2; [lia|].
    assert (Z.log2 x < k) by (apply Z.log2_lt_pow2; lia). lia.
Qed.

(** The masks of the source as sets of bits. *)
Ltac masks :=
  change 0x3ff with (Z.ones 10) in *;
  change 0xfff with (Z.ones 12) in *;
  change 0xFFFFF with (Z.ones 20) in *;
  change 3 with (Z.ones 2) in *;
  change 0xfffffc00 with (Z.ldiff (Z.ones 32) (Z.ones 10)) in *;
  change 0xfff003ff with (Z.lor (Z.ones 10) (Z.ldiff (Z.ones 32) (Z.ones 20))) in *;
  change 0xFFCFFFFF with (Z.lor (Z.ones 20) (Z.ldiff (Z.ones 32) (Z.ones 22))) in *;
  change 0xFF3FFFFF with (Z.lor (Z.ones 22) (Z.ldiff (Z.ones 32) (Z.ones 24))) in *;
  change META_BASE with (Z.ldiff (Z.ones 32) (Z.ones 30)) in *.

Ltac bit_rw :=
  repeat first
    [ rewrite Z.land_spec | rewrite Z.lor_spec | rewrite Z.ldiff_spec
    | rewrite Z.shiftr_spec by lia | rewrite Z.shiftl_spec by lia
    | rewrite u32_bits | rewrite testbit_ones_full by lia ].

Ltac bit_cases :=
  repeat match goal with
    | |- context [?a <? ?b] => destruct (Z.ltb_spec a b)
    | |- context [?a <=? ?b] => destruct (Z.leb_spec a b)
    end;
  repeat match goal with
    | |- context [Z.testbit ?a ?k] => rewrite (Z.testbit_neg_r a k) by lia
    end;
  cbn [andb orb negb];
  rewrite ?andb_true_r, ?andb_false_r, ?orb_false_r, ?orb_true_r;
  try reflexivity; try lia.

(** Equality of two numbers, bit by bit. *)
Ltac by_bits :=
  masks; apply Z.bits_inj'; let n := fresh "n" in let Hn := fresh "Hn" in
  intros n Hn; bit_rw.

Lemma ma_index_set_0_get_0 ma idx :
  0 <= idx < 1024 ->
  Z.land (Z.shiftr (Z.lor (Z.land ma 0xfff003ff) (u32 (Z.shiftl idx 10))) 10) 0x3ff = idx.
Proof.
  intros H. by_bits. bit_cases.
  all: try (replace (n + 10 - 10) with n by lia).
  all: rewrite ?(small_bits idx 10 n) by lia.
  all: bit_cases.
Qed.

Lemma ma_index_set_0_get_1 ma idx :
  Z.land (Z.lor (Z.land ma 0xfff003ff) (u32 (Z.shiftl idx 10))) 0x3ff = Z.land ma 0x3ff.
Proof. by_bits. bit_cases. Qed.

Lemma ma_index_set_1_get_1 ma idx :
  0 <= idx < 1024 ->
  Z.land (Z.lor (Z.land ma 0xfffffc00) idx) 0x3ff = idx.
Proof.
  intros H. by_bits. bit_cases.
  all: rewrite ?(small_bits idx 10 n) by lia.
  all: bit_cases.
Qed.

Lemma ma_index_set_1_get_0 ma idx :
  0 <= idx < 1024 ->
  Z.land (Z.shiftr (Z.lor (Z.land ma 0xfffffc00) idx) 10) 0x3ff
  = Z.land (Z.shiftr ma 10) 0x3ff.
Proof.
  intros H. by_bits. bit_cases.
  all: rewrite ?(small_bits idx 10 (n + 10)) by lia.
  all: bit_cases.
Qed.

Lemma ma_index_set_0_high ma idx k :
  0 <= idx < 1024 -> 20 <= k ->
  Z.shiftr (Z.lor (Z.land ma 0xfff003ff) (u32 (Z.shiftl idx 10))) k
  = Z.shiftr (Z.land ma (Z.ones 32)) k.
Proof.
  intros H Hk. by_bits. bit_cases.
  all: rewrite ?(small_bits idx 10 (n + k - 10)) by lia.
  all: bit_cases.
Qed.

Lemma ma_index_set_1_high ma idx k :
  0 <= idx < 1024 -> 20 <= k ->
  Z.shiftr (Z.lor (Z.land ma 0xfffffc00) idx) k = Z.shiftr (Z.land ma (Z.ones 32)) k.
Proof.
  intros H Hk. by_bits. bit_cases.
  all: rewrite ?(small_bits idx 10 (n + k)) by lia.
  all: bit_cases.
Qed.

(** [ma_index_set] followed by [ma_index_get] at the same depth (0 or 1)
    gives back the index, a 10-bit number; the index at the other depth,
    the depth, the file descriptor and the metadata tag of the address stay
    as they were. *)
Theorem ma_index_set_get (m d idx : Z) :
  0 <= idx < 1024 -> d = 0 \/ d = 1 ->
  exists m',
    ma_index_set m d idx = Some m' /\
    ma_index_get m' d = Some idx /\
    ma_index_get m' (1 - d) = ma_index_get m (1 - d) /\
    ma_depth m' = ma_depth (u32 m) /\ ma_fd m' = ma_fd (u32 m) /\
    ma_meta m' = ma_meta (u32 m).
Proof.
  intros Hi Hd.
  assert (Hu : u32 m = Z.land m (Z.ones 32))
    by (unfold u32; rewrite Z.land_ones by lia; reflexivity).
  rewrite Hu. unfold ma_depth, ma_fd, ma_meta.
  destruct Hd as [-> | ->].
  - exists (Z.lor (Z.land m 0xfff003ff) (u32 (Z.shiftl idx 10))).
    split; [reflexivity|].
    change (ma_index_get ?x 0) with (Some (Z.land (Z.shiftr x 10) 0x3ff)).
    change (ma_index_get ?x (1 - 0)) with (Some (Z.land x 0x3ff)).
    rewrite ma_index_set_0_get_0 by lia. rewrite ma_index_set_0_get_1.
    rewrite !ma_index_set_0_high by lia. repeat split.
  - exists (Z.lor (Z.land m 0xfffffc00) idx).
    split; [reflexivity|].
    change (ma_index_get ?x 1) with (Some (Z.land x 0x3ff)).
    change (ma_index_get ?x (1 - 1)) with (Some (Z.land (Z.shiftr x 10) 0x3ff)).
    rewrite ma_index_set_1_get_1 by lia. rewrite ma_index_set_1_get_0 by lia.
    rewrite !ma_index_set_1_high by lia. repeat split.
Qed.

Lemma ma_index_set_get_witness :
  exists m',
    ma_index_set 0xC0600000 0 5 = Some m' /\
    ma_index_get m' 0 = Some 5.
Proof.
  destruct (ma_index_set_get 0xC0600000 0 5) as (m' & H1 & H2 & _);
    [lia | left; reflexivity |].
  exists m'. split; assumption.
Defined.

(** Outside the depths 0 and 1 both functions end in MY_PANIC. *)
Lemma ma_index_panics (m d idx : Z) :
  d <> 0 -> d <> 1 -> ma_index_get m d = None /\ ma_index_set m d idx = None.
Proof.
  intros H0 H1. unfold ma_index_get, ma_index_set.
  apply Z.eqb_neq in H0, H1. rewrite H0, H1. split; reflexivity.
Qed.

(** The leaf address [file_access] builds from a 20-bit block index. *)
Lemma leaf_ma_as_lor (q : Z) :
  0 <= q < 2 ^ 20 -> u32 (META_BASE + q) = Z.lor META_BASE q.
Proof.
  intros Hq. rewrite u32_small by (unfold META_BASE; lia).
  assert (Hz : Z.land META_BASE q = 0).
  { by_bits. rewrite Z.bits_0. bit_cases.
    all: rewrite ?(small_bits q 20 n) by lia; reflexivity. }
  rewrite Z.add_nocarry_lxor by exact Hz. apply Z.lxor_lor. exact Hz.
Qed.

Lemma leaf_ma_fields (q fd : Z) :
  0 <= q < 2 ^ 20 -> 0 <= fd < 4 ->
  let m := ma_set_fd (ma_set_depth (u32 (META_BASE + q)) META_LEAF_DEPTH) fd in
  Z.land m META_BASE = META_BASE /\ ma_depth m = META_LEAF_DEPTH /\
  ma_fd m = fd /\ ma_index m = q /\
  Z.land (Z.shiftr m 10) 0x3ff = Z.shiftr q 10 /\
  Z.land m 0x3ff = Z.land q 0x3ff /\ 0 <= m < 2 ^ 32.
Proof.
  intros Hq Hfd. cbv zeta. rewrite leaf_ma_as_lor by exact Hq.
  unfold ma_set_fd, ma_set_depth, ma_depth, ma_fd, ma_index.
  change (Z.shiftl (Z.land META_LEAF_DEPTH 3) 20) with (2 ^ 21).
  change META_LEAF_DEPTH with (Z.shiftr (2 ^ 21) 20).
  assert (Hbits : forall n, 0 <= n ->
            Z.testbit (Z.lor (Z.land (Z.lor (Z.land (Z.lor META_BASE q) 0xFFCFFFFF) (2 ^ 21))
                                0xFF3FFFFF) (Z.shiftl (Z.land fd 3) 22)) n
            = if n <? 20 then Z.testbit q n
              else if n <? 22 then n =? 21
              else if n <? 24 then Z.testbit fd (n - 22)
              else (30 <=? n) && (n <? 32)).
  { intros n Hn. masks. bit_rw. rewrite Z.pow2_bits_eqb by lia.
    destruct (Z.eqb_spec 21 n); bit_cases;
      rewrite ?(small_bits q 20 n) by lia; bit_cases;
      try (destruct (Z.eqb_spec n 21); try lia; bit_cases).
    all: rewrite ?(small_bits fd 2 (n - 22)) by lia; bit_cases. }
  set (m := Z.lor _ _) in *.
  repeat split.
  - apply Z.bits_inj'. intros n Hn. rewrite Z.land_spec, Hbits by lia.
    masks. bit_rw. bit_cases.
  - apply Z.bits_inj'. intros n Hn. masks. bit_rw. rewrite Hbits by lia.
    rewrite Z.pow2_bits_eqb by lia.
    destruct (Z.eqb_spec 21 (n + 20)); bit_cases;
      try (destruct (Z.eqb_spec (n + 20) 21); try lia; bit_cases).
  - apply Z.bits_inj'. intros n Hn. masks. bit_rw. rewrite Hbits by lia.
    bit_cases.
    all: try (f_equal; lia).
    all: rewrite (small_bits fd 2 n) by lia; reflexivity.
  - apply Z.bits_inj'. intros n Hn. masks. bit_rw. rewrite Hbits by lia.
    bit_cases. all: rewrite (small_bits q 20 n) by lia; reflexivity.
  - apply Z.bits_inj'. intros n Hn. masks. bit_rw. rewrite Hbits by lia.
    bit_cases. all: rewrite (small_bits q 20 (n + 10)) by lia; reflexivity.
  - apply Z.bits_inj'. intros n Hn. masks. bit_rw. rewrite Hbits by lia.
    bit_cases.
  - assert (Hm : m = u32 m).
    { apply Z.bits_inj'. intros n Hn. rewrite u32_bits, Hbits by lia. bit_cases. }
    rewrite Hm. apply u32_range.
  - assert (Hm : m = u32 m).
    { apply Z.bits_inj'. intros n Hn. rewrite u32_bits, Hbits by lia. bit_cases. }
    rewrite Hm. apply u32_range.
Qed.

(** The block index of a block address: [(ba << 2) >> 12]. *)
Lemma leaf_index_of_ba (ba : Z) :
  0 <= ba < 2 ^ 30 ->
  Z.shiftr (file_4byte_offset ba) 12 = ba / 1024 /\
  file_access_buf_off (file_4byte_offset ba) = 4 * (ba mod 1024).
Proof.
  intros Hba. unfold file_4byte_offset, file_access_buf_off.
  rewrite Z.shiftl_mul_pow2 by lia. rewrite u32_small by lia.
  rewrite Z.shiftr_div_pow2 by lia.
  change 0xfff with (Z.ones 12). rewrite Z.land_ones by lia.
  change (2 ^ 2) with 4. change (2 ^ 12) with 4096.
  split; Z.div_mod_to_equations; lia.
Qed.

(** The leaf address [file_access] resolves a block address through: it is
    a metadata address (which no block address below 2^30 is), of depth 2,
    for the file asked for; its index is the block address without its low
    10 bits, which [ma_index_get] splits into the entry of the root block
    (depth 0) and the entry of the inner block (depth 1); the low 10 bits
    select the four-byte entry of the leaf block. *)
Theorem file_access_ma_fields (fd ba : Z) :
  0 <= ba < 2 ^ 30 -> 0 <= fd < 4 ->
  let off := file_4byte_offset ba in
  let m := file_access_ma fd off in
  IS_META_ADDR m = true /\ IS_META_ADDR ba = false /\
  0 <= m < 2 ^ 32 /\
  ma_depth m = META_LEAF_DEPTH /\ ma_fd m = fd /\ ma_index m = ba / 1024 /\
  ma_index_get m 0 = Some (ba / 1048576) /\
  ma_index_get m 1 = Some ((ba / 1024) mod 1024) /\
  file_access_buf_off off = 4 * (ba mod 1024).
Proof.
  intros Hba Hfd. cbv zeta.
  destruct (leaf_index_of_ba ba Hba) as [Hq Hoff].
  unfold file_access_ma. rewrite Hq.
  assert (Hqr : 0 <= ba / 1024 < 2 ^ 20) by (Z.div_mod_to_equations; lia).
  destruct (leaf_ma_fields (ba / 1024) fd Hqr Hfd) as (Hmeta & Hd & Hf & Hi & H0 & H1 & Hr).
  cbv zeta in Hmeta, Hd, Hf, Hi, H0, H1, Hr.
  set (m := ma_set_fd _ fd) in *.
  split; [unfold IS_META_ADDR; rewrite Hmeta; apply Z.eqb_refl|].
  split.
  { unfold IS_META_ADDR. apply Z.eqb_neq. intros Hc.
    assert (Hb : Z.testbit (Z.land ba META_BASE) 30 = Z.testbit META_BASE 30)
      by (rewrite Hc; reflexivity).
    rewrite Z.land_spec, (small_bits ba 30 30) in Hb by lia. discriminate Hb. }
  split; [exact Hr|]. split; [exact Hd|]. split; [exact Hf|]. split; [exact Hi|].
  change (ma_index_get m 0) with (Some (Z.land (Z.shiftr m 10) 0x3ff)).
  change (ma_index_get m 1) with (Some (Z.land m 0x3ff)).
  rewrite H0, H1. rewrite Z.shiftr_div_pow2 by lia.
  change 0x3ff with (Z.ones 10). rewrite Z.land_ones by lia.
  change (2 ^ 10) with 1024.
  split; [f_equal; Z.div_mod_to_equations; lia|]. split; [reflexivity | exact Hoff].
Qed.

Lemma file_access_ma_fields_witness :
  ma_index_get (file_access_ma FD_ACTIVE (file_4byte_offset 3000000)) 1
  = Some ((3000000 / 1024) mod 1024).
Proof.
  apply (file_access_ma_fields FD_ACTIVE 3000000); [lia | unfold FD_ACTIVE; lia].
Defined.

(** Two block addresses that [file_access] sends to the same entry of the
    same leaf block are the same: no two block addresses share a forward-map
    entry. *)
Theorem file_access_injective (fd ba ba' : Z) :
  0 <= ba < 2 ^ 30 -> 0 <= ba' < 2 ^ 30 -> 0 <= fd < 4 ->
  file_access_ma fd (file_4byte_offset ba) = file_access_ma fd (file_4byte_offset ba') ->
  file_access_buf_off (file_4byte_offset ba)
  = file_access_buf_off (file_4byte_offset ba') ->
  ba = ba'.
Proof.
  intros Hba Hba' Hfd Hm Ho.
  destruct (leaf_index_of_ba ba Hba) as [Hq Hoff].
  destruct (leaf_index_of_ba ba' Hba') as [Hq' Hoff'].
  unfold file_access_ma in Hm. rewrite Hq, Hq' in Hm.
  assert (Hqr : 0 <= ba / 1024 < 2 ^ 20) by (Z.div_mod_to_equations; lia).
  assert (Hqr' : 0 <= ba' / 1024 < 2 ^ 20) by (Z.div_mod_to_equations; lia).
  destruct (leaf_ma_fields (ba / 1024) fd Hqr Hfd) as (_ & _ & _ & Hi & _).
  destruct (leaf_ma_fields (ba' / 1024) fd Hqr' Hfd) as (_ & _ & _ & Hi' & _).
  cbv zeta in Hi, Hi'. rewrite Hm in Hi. rewrite Hi' in Hi.
  rewrite Hoff, Hoff' in Ho.
  Z.div_mod_to_equations; lia.
Qed.

Lemma file_access_injective_witness :
  (0 <= 77 < 2 ^ 30 /\ 0 <= FD_ACTIVE < 4) /\ 77 = 77.
Proof.
  split; [unfold FD_ACTIVE; lia|].
  apply (file_access_injective FD_ACTIVE 77 77);
    try reflexivity; unfold FD_ACTIVE; lia.
Defined.


(* ================================================================= *)
(** ** Sector addresses *)

Lemma sega2sa_mul (s : Z) : 0 <= s < 2 ^ 22 -> sega2sa s = s * 1024.
Proof.
  intros H. unfold sega2sa, SA2SEGA_SHIFT.
  rewrite Z.shiftl_mul_pow2 by lia. change (2 ^ 10) with 1024.
  apply u32_small. lia.
Qed.

(** A sector address [sega2sa sega + off] with [off] inside the segment
    determines the segment and the offset: the segment is the address
    shifted right by 10 bits, the offset its low 10 bits, and two slots of
    the log have the same sector address only if they are the same slot. *)
Theorem sega2sa_slot (s off s' off' : Z) :
  0 <= s < 2 ^ 22 -> 0 <= off < 1024 ->
  0 <= s' < 2 ^ 22 -> 0 <= off' < 1024 ->
  Z.shiftr (sega2sa s + off) SA2SEGA_SHIFT = s /\
  Z.land (sega2sa s + off) 0x3ff = off /\
  u32 (sega2sa s + off) = sega2sa s + off /\
  (sega2sa s + off = sega2sa s' + off' -> s = s' /\ off = off').
Proof.
  intros Hs Ho Hs' Ho'. rewrite !sega2sa_mul by assumption.
  unfold SA2SEGA_SHIFT. rewrite Z.shiftr_div_pow2 by lia.
  change 0x3ff with (Z.ones 10). rewrite Z.land_ones by lia.
  change (2 ^ 10) with 1024.
  split; [Z.div_mod_to_equations; lia|].
  split; [Z.div_mod_to_equations; lia|].
  split; [apply u32_small; lia | lia].
Qed.

Lemma sega2sa_slot_witness :
  Z.shiftr (sega2sa 3 + 1022) SA2SEGA_SHIFT = 3 /\
  Z.land (sega2sa 3 + 1022) 0x3ff = 1022.
Proof.
  pose proof (sega2sa_slot 3 1022 3 1022 ltac:(lia) ltac:(lia) ltac:(lia) ltac:(lia))
    as H.
  destruct H as (H1 & H2 & _). split; [exact H1 | exact H2].
Defined.

(* ================================================================= *)
(** ** The superblock on the device *)

Lemma i32_u32 (x : Z) : - 2 ^ 31 <= x < 2 ^ 31 -> i32 (u32 x) = x.
Proof.
  intros H. unfold i32, u32.
  destruct (Z.ltb_spec x 0).
  - replace (x mod 2 ^ 32) with (x + 2 ^ 32)
      by (apply Z.mod_unique with (q := -1); lia).
    replace ((x + 2 ^ 32 + 2 ^ 31) mod 2 ^ 32) with (x + 2 ^ 31)
      by (apply Z.mod_unique with (q := 1); lia).
    lia.
  - rewrite (Z.mod_small x) by lia. rewrite Z.mod_small by lia. lia.
Qed.

Lemma u8_small x : 0 <= x < 2 ^ 8 -> u8 x = x.
Proof. intros. unfold u8. apply Z.mod_small. lia. Qed.

(** The word that holds the two version bytes and [sb_gen]. *)
Lemma sb_word1_fields (a b g : Z) :
  0 <= a < 2 ^ 8 -> 0 <= b < 2 ^ 8 -> 0 <= g < 2 ^ 16 ->
  let w := Z.lor (Z.lor (u8 a) (Z.shiftl (u8 b) 8)) (Z.shiftl (u16 g) 16) in
  Z.land w 0xff = a /\
  Z.land (Z.shiftr w 8) 0xff = b /\
  Z.land (Z.shiftr w 16) 0xffff = g.
Proof.
  intros Ha Hb Hg. cbv zeta.
  rewrite (u8_small a), (u8_small b), (u16_small g) by assumption.
  change 0xff with (Z.ones 8). change 0xffff with (Z.ones 16).
  repeat split; apply Z.bits_inj'; intros n Hn; bit_rw; bit_cases.
  all: try (replace (n + 8 - 8) with n by lia).
  all: try (replace (n + 16 - 16) with n by lia).
  all: rewrite ?(small_bits a 8 n), ?(small_bits a 8 (n + 8)), ?(small_bits a 8 (n + 16)),
         ?(small_bits b 8 n), ?(small_bits b 8 (n + 16 - 8)),
         ?(small_bits g 16 n) by lia.
  all: bit_cases.
Qed.

(** Decoding the sector image of a superblock gives the superblock. *)
Lemma sb_of_words_of_sb (s : superblock) (age junk : list Z) :
  sb_in_range s -> sb_of_words (words_of_sb s age junk) = s.
Proof.
  intros (Hsig & Hma & Hmi & Hg & Hmb & Hc & Hf & Ha & Hr & f0 & f1 & f2 & Hft & H0 & H1 & H2).
  destruct s as [sg vma vmi gen mbc cnt fre alp rcp ft].
  cbn [sig ver_major ver_minor sb_gen max_block_cnt seg_cnt seg_free_cnt
       seg_alloc_p seg_reclaim_p ftab] in *.
  subst ft. unfold sb_of_words, words_of_sb.
  cbn [sig ver_major ver_minor sb_gen max_block_cnt seg_cnt seg_free_cnt
       seg_alloc_p seg_reclaim_p ftab nth].
  set (tl := map _ _ ++ _).
  destruct (sb_word1_fields vma vmi gen Hma Hmi Hg) as (W1 & W2 & W3).
  cbv zeta in W1, W2, W3.
  cbn [app].
  change (zget (?a :: _) 0) with a.
  change (zget (_ :: ?a :: _) 1) with a.
  change (zget (_ :: _ :: ?a :: _) 2) with a.
  change (zget (_ :: _ :: _ :: ?a :: _) 3) with a.
  change (zget (_ :: _ :: _ :: _ :: ?a :: _) 4) with a.
  change (zget (_ :: _ :: _ :: _ :: _ :: ?a :: _) 5) with a.
  change (zget (_ :: _ :: _ :: _ :: _ :: _ :: ?a :: _) 6) with a.
  change (zget (_ :: _ :: _ :: _ :: _ :: _ :: _ :: ?a :: _) 7) with a.
  change (zget (_ :: _ :: _ :: _ :: _ :: _ :: _ :: _ :: ?a :: _) 8) with a.
  change (zget (_ :: _ :: _ :: _ :: _ :: _ :: _ :: _ :: _ :: ?a :: _) 9) with a.
  rewrite W1, W2, W3.
  rewrite !i32_u32 by assumption.
  rewrite !u32_small by assumption.
  reflexivity.
Qed.

Lemma u8_bits x n : Z.testbit (u8 x) n = (n <? 8) && Z.testbit x n.
Proof.
  unfold u8. destruct (Z.leb_spec 0 n).
  - destruct (Z.ltb_spec n 8).
    + rewrite Z.mod_pow2_bits_low by lia. reflexivity.
    + rewrite Z.mod_pow2_bits_high by lia. reflexivity.
  - rewrite !Z.testbit_neg_r by lia. destruct (n <? 8); reflexivity.
Qed.

(** The four bytes of a packed word. *)
Lemma pack4_byte (l : list Z) (j r : Z) :
  0 <= r < 4 ->
  Z.land (Z.shiftr (pack4 l j) (8 * r)) 0xff = u8 (zget l (4 * j + r)).
Proof.
  intros Hr. unfold pack4. change 0xff with (Z.ones 8).
  assert (Hc : r = 0 \/ r = 1 \/ r = 2 \/ r = 3) by lia.
  destruct Hc as [-> | [-> | [-> | ->]]];
    apply Z.bits_inj'; intros n Hn; bit_rw; rewrite !u8_bits;
    rewrite ?Z.add_0_r; bit_cases.
  all: try (f_equal; lia).
Qed.

Lemma zget_app_r (l1 l2 : list Z) (i : Z) :
  0 <= i -> zget (l1 ++ l2) (Z.of_nat (length l1) + i) = zget l2 i.
Proof.
  intros Hi. unfold zget. rewrite app_nth2 by lia. f_equal. lia.
Qed.

Lemma zget_app_l (l1 l2 : list Z) (i : Z) :
  0 <= i < Z.of_nat (length l1) -> zget (l1 ++ l2) i = zget l1 i.
Proof. intros Hi. unfold zget. apply app_nth1. lia. Qed.

Lemma zget_map_seq (f : nat -> Z) (n : nat) (i : Z) :
  0 <= i < Z.of_nat n -> zget (map f (seq 0 n)) i = f (Z.to_nat i).
Proof.
  intros Hi. unfold zget.
  rewrite nth_indep with (d' := f O) by (rewrite length_map, length_seq; lia).
  rewrite map_nth, seq_nth by lia. reflexivity.
Qed.

Lemma map_zget_seq (l : list Z) :
  map (fun k => zget l (Z.of_nat k)) (seq 0 (length l)) = l.
Proof.
  apply nth_ext with (d := 0) (d' := 0).
  - rewrite length_map, length_seq. reflexivity.
  - intros k Hk. rewrite length_map, length_seq in Hk.
    rewrite nth_indep with (d' := zget l (Z.of_nat 0))
      by (rewrite length_map, length_seq; lia).
    pose proof (map_nth (fun k => zget l (Z.of_nat k)) (seq 0 (length l)) 0%nat k) as Hm.
    cbv beta in Hm. rewrite Hm, seq_nth by lia. unfold zget. f_equal. lia.
Qed.

(** Decoding the sector image of a superblock gives the ages back. *)
Lemma seg_age_of_words_of_sb (s : superblock) (age junk : list Z) :
  0 <= seg_cnt s -> length age = Z.to_nat (seg_cnt s) ->
  Forall (fun b => 0 <= b < 2 ^ 8) age ->
  seg_age_of_words (words_of_sb s age junk) (seg_cnt s) = age.
Proof.
  intros Hc Hlen Hage. unfold seg_age_of_words.
  rewrite <- Hlen. rewrite <- (map_zget_seq age) at 2.
  apply map_ext_in. intros k Hk. apply in_seq in Hk.
  unfold age_byte_of_words, words_of_sb.
  rewrite <- Hlen. rewrite firstn_all, Nat.sub_diag. cbn [repeat].
  rewrite app_nil_l.
  set (nw := ((length age + 3) / 4)%nat).
  set (l10 := [u32 (sig s); _; _; _; _; _; _; _; _; _]).
  change 10 with (Z.of_nat (length l10)).
  assert (Hk4 : (Z.to_nat (Z.of_nat k / 4) < nw)%nat).
  { assert (Hz : Z.of_nat nw = (Z.of_nat (length age) + 3) / 4).
    { unfold nw. rewrite Nat2Z.inj_div, Nat2Z.inj_add. reflexivity. }
    assert (Z.of_nat k / 4 < Z.of_nat nw)
      by (rewrite Hz; Z.div_mod_to_equations; lia).
    assert (0 <= Z.of_nat k / 4) by (Z.div_mod_to_equations; lia).
    lia. }
  rewrite zget_app_r by (Z.div_mod_to_equations; lia).
  rewrite zget_app_l
    by (rewrite length_map, length_seq; split; [Z.div_mod_to_equations; lia | lia]).
  rewrite zget_map_seq by (split; [Z.div_mod_to_equations; lia | lia]).
  rewrite Z2Nat.id by (Z.div_mod_to_equations; lia).
  rewrite pack4_byte by (Z.div_mod_to_equations; lia).
  replace (4 * (Z.of_nat k / 4) + Z.of_nat k mod 4) with (Z.of_nat k)
    by (Z.div_mod_to_equations; lia).
  rewrite zget_app_l by lia.
  apply u8_small.
  rewrite Forall_forall in Hage. apply Hage. unfold zget.
  apply nth_In. lia.
Qed.

(** Under the condition the source asserts, the image is one sector. *)
Lemma words_of_sb_length (SS : Z) (s : superblock) (age junk : list Z) :
  seg_cnt_fits SS s -> SS mod 4 = 0 -> length junk = Z.to_nat (SS / 4) ->
  length (words_of_sb s age junk) = Z.to_nat (SS / 4).
Proof.
  intros [Hc Hf] H4 Hj. unfold words_of_sb. cbv zeta.
  set (nw := ((Z.to_nat (seg_cnt s) + 3) / 4)%nat).
  assert (Hnw : Z.of_nat nw = (seg_cnt s + 3) / 4).
  { unfold nw. rewrite Nat2Z.inj_div, Nat2Z.inj_add, Z2Nat.id by lia. reflexivity. }
  assert (Hle : (10 + nw <= Z.to_nat (SS / 4))%nat).
  { unfold sizeof_superblock, FD_COUNT in Hf.
    assert (10 + Z.of_nat nw <= SS / 4) by (rewrite Hnw; Z.div_mod_to_equations; lia).
    lia. }
  rewrite length_app, length_app, length_map, length_seq, length_skipn, Hj.
  cbn [length]. lia.
Qed.

(** The superblock a [superblock_read] ends with when sector 0 passes its
    test: the end of the maximal chain. *)
Lemma superblock_read_chain (SS : Z) (sc : softc) :
  1 <= SECTORS_PER_SEG SS ->
  sb_invalid (sb_at (dev sc) 0) = false ->
  let r := superblock_read SS sc in
  exists k,
    0 <= k < SECTORS_PER_SEG SS /\
    gen_chain_maximal SS (dev sc) k /\
    sb_sa (snd r) = k /\ sb (snd r) = sb_at (dev sc) k /\
    (fst r = 0 \/ fst r = EINVAL) /\
    (fst r = EINVAL <-> sb_invalid (sb_at (dev sc) k) = true).
Proof.
  intros HS H0. cbv zeta. unfold superblock_read.
  change (sb (sb_probe sc 0)) with (sb_at (dev sc) 0). rewrite H0.
  assert (Hsig0 : sig (sb_at (dev sc) 0) = SIG_LOGSTOR).
  { unfold sb_invalid in H0. apply orb_false_iff in H0. destruct H0 as [H0 _].
    apply orb_false_iff in H0. destruct H0 as [H0 _].
    apply negb_false_iff in H0. apply Z.eqb_eq in H0. exact H0. }
  assert (Hc0 : gen_chain (dev sc) (1 - 1)).
  { intros j Hj. assert (j = 0) by lia. subst j. split; [exact Hsig0 | lia]. }
  pose proof (sb_scan_spec SS (dev sc) (Z.to_nat (SECTORS_PER_SEG SS))
                (sb_probe sc 0) 1 eq_refl ltac:(lia) ltac:(lia) Hc0) as Hscan.
  cbv zeta in Hscan. replace (1 - 1) with 0 in Hscan by lia.
  set (r := sb_scan SS (Z.to_nat (SECTORS_PER_SEG SS)) (sb_probe sc 0) 1
              (sb_gen (sb_at (dev sc) 0))) in *.
  destruct Hscan as (Hi & Hmax & _).
  exists (fst r - 1).
  change (sb_of_words (dev_read (dev sc) (fst r - 1))) with (sb_at (dev sc) (fst r - 1)).
  split; [lia|]. split; [exact Hmax|].
  destruct (sb_invalid (sb_at (dev sc) (fst r - 1))) eqn:Hk; cbn [fst snd].
  - split; [reflexivity|]. split; [reflexivity|]. split; [right; reflexivity|].
    split; reflexivity.
  - split; [reflexivity|]. split; [reflexivity|]. split; [left; reflexivity|].
    split; intros H; discriminate H.
Qed.

(** What a successful [superblock_read] leaves in [seg_age]. *)
Lemma superblock_read_seg_age (SS : Z) (sc : softc) :
  1 <= SECTORS_PER_SEG SS ->
  let r := superblock_read SS sc in
  fst r = 0 ->
  seg_age (snd r) =
    Some (seg_age_of_words (dev_read (dev sc) (sb_sa (snd r))) (seg_cnt (sb (snd r)))
          ++ skipn (Z.to_nat (seg_cnt (sb (snd r))))
               (match seg_age sc with
                | None => repeat 0 (Z.to_nat (seg_cnt (sb (snd r))))
                | Some a => a
                end)).
Proof.
  intros HS. cbv zeta. unfold superblock_read.
  destruct (sb_invalid (sb (sb_probe sc 0))) eqn:H0; cbn [fst snd].
  - intros H. discriminate H.
  - set (r := sb_scan SS (Z.to_nat (SECTORS_PER_SEG SS)) (sb_probe sc 0) 1
                (sb_gen (sb (sb_probe sc 0)))).
    assert (Hage : seg_age (snd r) = seg_age sc).
    { assert (Hc0 : gen_chain (dev sc) (1 - 1)).
      { intros j Hj. assert (j = 0) by lia. subst j. split; [|lia].
        unfold sb_invalid in H0. apply orb_false_iff in H0. destruct H0 as [H0 _].
        apply orb_false_iff in H0. destruct H0 as [H0 _].
        apply negb_false_iff in H0. apply Z.eqb_eq in H0. exact H0. }
      pose proof (sb_scan_spec SS (dev sc) (Z.to_nat (SECTORS_PER_SEG SS))
                    (sb_probe sc 0) 1 eq_refl ltac:(lia) ltac:(lia) Hc0) as Hscan.
      cbv zeta in Hscan. destruct Hscan as (_ & _ & _ & Hage & _). exact Hage. }
    destruct (sb_invalid (sb_of_words (dev_read (dev sc) (fst r - 1)))) eqn:Hk;
      cbn [fst snd].
    + intros H. discriminate H.
    + intros _.
      change (seg_age (set_seg_age ?s ?v)) with v.
      change (sb_sa (set_seg_age ?s ?v)) with (sb_sa s).
      change (sb (set_seg_age ?s ?v)) with (sb s).
      change (seg_age (set_sb_modified ?s ?v)) with (seg_age s).
      change (sb_sa (set_sb_modified ?s ?v)) with (sb_sa s).
      change (sb (set_sb_modified ?s ?v)) with (sb s).
      change (seg_age (set_sb ?s ?v)) with (seg_age s).
      change (sb_sa (set_sb ?s ?v)) with (sb_sa s).
      change (sb (set_sb ?s ?v)) with v.
      change (seg_age (set_sb_sa ?s ?v)) with (seg_age s).
      change (sb_sa (set_sb_sa ?s ?v)) with v.
      rewrite Hage. reflexivity.
Qed.

(** Projections of a state built by the setters. *)
Ltac sc_cbn :=
  cbn [seg_sum_cold seg_sum_hot clean_candidate cleaner_disabled clean_low_water
       clean_high_water fbuf_count fbuf_modified_count fbufs fbuf_bucket cir_queue
       indirect_head data_write_count other_write_count fbuf_hit fbuf_miss
       sb_modified sb_sa seg_age sb dev trace
       set_seg_sum_cold set_seg_sum_hot set_clean_candidate set_cleaner_disabled
       set_clean_low_water set_clean_high_water set_fbuf_count
       set_fbuf_modified_count set_fbufs set_fbuf_bucket set_cir_queue
       set_indirect_head set_data_write_count set_other_write_count set_fbuf_hit
       set_fbuf_miss set_sb_modified set_sb_sa set_seg_age set_sb set_dev set_trace
       upd_fbuf log sc_dev_write set_ss get_ss fst snd] in *.

(** [superblock_write]: the generation goes up by one modulo 2^16, the
    position moves to the next sector of the first segment, back to sector
    0 after the last one, and the image of the superblock is sent there. *)
Lemma superblock_write_spec (SS : Z) (sc : softc) (junk : list Z) :
  0 <= sb_sa sc < SECTORS_PER_SEG SS -> SECTORS_PER_SEG SS < 2 ^ 32 ->
  let sc1 := superblock_write SS sc junk in
  let k' := if sb_sa sc + 1 =? SECTORS_PER_SEG SS then 0 else sb_sa sc + 1 in
  sb sc1 = set_sb_gen (sb sc) (u16 (sb_gen (sb sc) + 1)) /\
  sb_sa sc1 = k' /\ 0 <= k' < SECTORS_PER_SEG SS /\
  seg_age sc1 = seg_age sc /\
  dev sc1 = fst (dev_write (dev sc) k'
                   (words_of_sb (sb sc1)
                      (match seg_age sc with Some a => a | None => [] end) junk)) /\
  trace sc1 = EvSbWrite k' :: trace sc.
Proof.
  intros Hk HS. cbv zeta. unfold superblock_write, sb_image. sc_cbn.
  rewrite (u32_small (sb_sa sc + 1)) by lia.
  destruct (sb_sa sc + 1 =? SECTORS_PER_SEG SS) eqn:He.
  - repeat split; try reflexivity; lia.
  - apply Z.eqb_neq in He. repeat split; try reflexivity; lia.
Qed.

Lemma dev_write_blk (d : device) (sa : Z) (w : list Z) (a : Z) :
  wr_fail d sa = false ->
  blk (fst (dev_write d sa w)) a = if a =? sa then w else blk d a.
Proof. intros H. unfold dev_write. cbn [fst blk]. rewrite H. reflexivity. Qed.

(** Recovery of the superblock.  The device holds the chain of superblocks
    up to sector [sb_sa], the last of them with the generation kept in
    memory, and the ages of the superblock fit into a sector (the condition
    [superblock_init] asserts), [seg_age] holding [seg_cnt] of them.  After
    [superblock_write] has put the superblock into the next sector, that
    sector is one sector long, and [superblock_read] on the device (from a
    fresh softc, as after a restart) succeeds and gives back the superblock
    just written, its position and the segment ages, provided the sector
    after it does not happen to continue the chain.  [junk], the content
    of the stack buffer of [superblock_write] before it is filled, is any
    sector. *)
Theorem superblock_write_read (SS : Z) (sc sc' : softc) (junk age : list Z) :
  0 <= sb_sa sc -> sb_sa sc + 1 < SECTORS_PER_SEG SS -> SECTORS_PER_SEG SS < 2 ^ 32 ->
  SS mod 4 = 0 -> length junk = Z.to_nat (SS / 4) ->
  sb_in_range (sb sc) -> sig (sb sc) = SIG_LOGSTOR ->
  seg_cnt_fits SS (sb sc) ->
  seg_alloc_p (sb sc) < seg_cnt (sb sc) -> seg_reclaim_p (sb sc) < seg_cnt (sb sc) ->
  seg_age sc = Some age -> length age = Z.to_nat (seg_cnt (sb sc)) ->
  Forall (fun b => 0 <= b < 2 ^ 8) age ->
  wr_fail (dev sc) (sb_sa sc + 1) = false ->
  gen_chain (dev sc) (sb_sa sc) ->
  sb_gen (sb_at (dev sc) (sb_sa sc)) = sb_gen (sb sc) ->
  sb_invalid (sb_at (dev sc) 0) = false ->
  (sb_sa sc + 2 = SECTORS_PER_SEG SS \/
   ~ (sig (sb_at (dev sc) (sb_sa sc + 2)) = SIG_LOGSTOR /\
      sb_gen (sb_at (dev sc) (sb_sa sc + 2)) = u16 (u16 (sb_gen (sb sc) + 1) + 1))) ->
  let sc1 := superblock_write SS sc junk in
  dev sc' = dev sc1 -> seg_age sc' = None ->
  let r := superblock_read SS sc' in
  fst r = 0 /\ sb (snd r) = sb sc1 /\ sb_sa (snd r) = sb_sa sc1 /\
  sb_sa sc1 = sb_sa sc + 1 /\ sb_gen (sb sc1) = u16 (sb_gen (sb sc) + 1) /\
  seg_age (snd r) = Some age /\
  length (dev_read (dev sc1) (sb_sa sc1)) = Z.to_nat (SS / 4).
Proof.
  intros Hk0 Hk1 HS HS4 Hjunk Hrange Hsig Hfits Hap Hrp Hage Hlen Hbytes Hwr Hchain Hgen
    H0 Hnext.
  pose proof (proj1 Hfits) as Hcnt.
  cbv zeta. intros Hdev Hnone.
  set (k := sb_sa sc) in *.
  destruct (superblock_write_spec SS sc junk ltac:(fold k; lia) HS)
    as (Hsb & Hsa & _ & Hage1 & Hd1 & _).
  cbv zeta in Hsb, Hsa, Hd1. fold k in Hsa, Hd1.
  assert (Hne : (k + 1 =? SECTORS_PER_SEG SS) = false) by (apply Z.eqb_neq; lia).
  rewrite Hne in Hsa, Hd1. rewrite Hage in Hd1.
  set (sc1 := superblock_write SS sc junk) in *.
  set (d1 := dev sc1) in *.
  assert (Hrange1 : sb_in_range (sb sc1)).
  { rewrite Hsb. destruct Hrange as (R1 & R2 & R3 & R4 & R5 & R6 & R7 & R8 & R9 & R10).
    destruct (sb sc); cbn in *.
    repeat (split; [assumption || apply u16_range|]). exact R10. }
  assert (Hother : forall j, j <> k + 1 -> sb_at d1 j = sb_at (dev sc) j).
  { intros j Hj. unfold sb_at, dev_read. rewrite Hd1, dev_write_blk by exact Hwr.
    apply Z.eqb_neq in Hj. rewrite Hj. reflexivity. }
  assert (Hnew : sb_at d1 (k + 1) = sb sc1).
  { unfold sb_at, dev_read. rewrite Hd1, dev_write_blk by exact Hwr.
    rewrite Z.eqb_refl. apply sb_of_words_of_sb. exact Hrange1. }
  assert (Hsig1 : sig (sb sc1) = SIG_LOGSTOR) by (rewrite Hsb; destruct (sb sc); exact Hsig).
  assert (Hgen1 : sb_gen (sb sc1) = u16 (sb_gen (sb sc) + 1))
    by (rewrite Hsb; destruct (sb sc); reflexivity).
  assert (Hcnt1 : seg_cnt (sb sc1) = seg_cnt (sb sc))
    by (rewrite Hsb; destruct (sb sc); reflexivity).
  assert (Hap1 : seg_alloc_p (sb sc1) = seg_alloc_p (sb sc))
    by (rewrite Hsb; destruct (sb sc); reflexivity).
  assert (Hrp1 : seg_reclaim_p (sb sc1) = seg_reclaim_p (sb sc))
    by (rewrite Hsb; destruct (sb sc); reflexivity).
  assert (Hmax : gen_chain_maximal SS d1 (k + 1)).
  { split.
    - intros j Hj. destruct (Z.eq_dec j (k + 1)) as [-> | Hjne].
      + rewrite Hnew. split; [exact Hsig1|]. intros _.
        replace (k + 1 - 1) with k by lia. rewrite Hother by lia.
        rewrite Hgen1, Hgen. reflexivity.
      + rewrite !Hother by lia. apply Hchain. lia.
    - destruct Hnext as [He | Hn]; [left; lia | right].
      replace (k + 1 + 1) with (k + 2) by lia.
      rewrite Hother by lia. rewrite Hnew, Hgen1. exact Hn. }
  assert (H0' : sb_invalid (sb_at (dev sc') 0) = false)
    by (rewrite Hdev; fold d1; rewrite (Hother 0) by lia; exact H0).
  pose proof (superblock_read_chain SS sc' ltac:(lia) H0') as Hsel.
  cbv zeta in Hsel. rewrite Hdev in Hsel. fold d1 in Hsel.
  destruct Hsel as (k0 & Hk0r & Hmax0 & Hsa0 & Hsb0 & Hcode & Hiff).
  assert (Hk0e : k0 = k + 1)
    by (apply (gen_chain_maximal_unique SS d1); [lia | lia | exact Hmax0 | exact Hmax]).
  rewrite Hk0e in Hsa0, Hsb0, Hiff. rewrite Hnew in Hsb0, Hiff.
  assert (Hok : fst (superblock_read SS sc') = 0).
  { destruct Hcode as [Hz | He]; [exact Hz|]. apply Hiff in He.
    unfold sb_invalid in He. rewrite Hsig1, Z.eqb_refl in He. cbn [negb orb] in He.
    apply orb_true_iff in He. rewrite !Z.geb_le in He. lia. }
  split; [exact Hok|]. split; [exact Hsb0|]. split; [lia|]. split; [exact Hsa|].
  split; [exact Hgen1|].
  assert (Hw : dev_read d1 (k + 1) = words_of_sb (sb sc1) age junk).
  { unfold dev_read. rewrite Hd1, dev_write_blk by exact Hwr.
    rewrite Z.eqb_refl. reflexivity. }
  split.
  - pose proof (superblock_read_seg_age SS sc' ltac:(lia)) as Ha.
    cbv zeta in Ha. rewrite (Ha Hok), Hsa0, Hsb0, Hnone, Hdev. fold d1.
    rewrite Hw, seg_age_of_words_of_sb by (rewrite ?Hcnt1; assumption).
    rewrite skipn_all2 by (rewrite repeat_length; lia).
    rewrite app_nil_r. reflexivity.
  - rewrite Hsa, Hw. apply (words_of_sb_length SS); [|exact HS4 | exact Hjunk].
    unfold seg_cnt_fits. rewrite Hcnt1. exact Hfits.
Qed.

Lemma superblock_write_read_witness :
  let junk := repeat 0xDEADBEEF 1024 in
  let sc := snd (superblock_init 4096 (softc_zero 4096 (blank_device (16 * 1024 * 1024)))
                   (16 * 1024 * 1024) 7 junk) in
  let sc1 := superblock_write 4096 sc junk in
  let r := superblock_read 4096 (softc_zero 4096 (dev sc1)) in
  fst r = 0 /\ sb (snd r) = sb sc1 /\ sb_sa (snd r) = sb_sa sc1 /\
  sb_sa sc1 = sb_sa sc + 1 /\ sb_gen (sb sc1) = u16 (sb_gen (sb sc) + 1) /\
  seg_age (snd r) = Some [0; 0; 0; 0] /\
  length (dev_read (dev sc1) (sb_sa sc1)) = Z.to_nat (4096 / 4).
Proof.
  cbv zeta.
  apply (superblock_write_read 4096
           (snd (superblock_init 4096 (softc_zero 4096 (blank_device (16 * 1024 * 1024)))
                   (16 * 1024 * 1024) 7 (repeat 0xDEADBEEF 1024)))
           (softc_zero 4096
              (dev (superblock_write 4096
                      (snd (superblock_init 4096
                              (softc_zero 4096 (blank_device (16 * 1024 * 1024)))
                              (16 * 1024 * 1024) 7 (repeat 0xDEADBEEF 1024)))
                      (repeat 0xDEADBEEF 1024))))
           (repeat 0xDEADBEEF 1024) [0; 0; 0; 0]).
  - vm_compute. discriminate.
  - vm_compute. reflexivity.
  - vm_compute. reflexivity.
  - reflexivity.
  - reflexivity.
  - set (s0 := sb _).
    assert (Hs : s0 = mkSuperblock SIG_LOGSTOR 0 1 7 2751 4 3 1 1 [0; 0; 0])
      by (vm_compute; reflexivity).
    clearbody s0. subst s0. unfold sb_in_range, SIG_LOGSTOR.
    cbn [sig ver_major ver_minor sb_gen max_block_cnt seg_cnt seg_free_cnt
         seg_alloc_p seg_reclaim_p ftab].
    repeat (split; [lia|]).
    exists 0, 0, 0. split; [reflexivity|]. lia.
  - reflexivity.
  - vm_compute. split; [discriminate | reflexivity].
  - vm_compute. reflexivity.
  - vm_compute. reflexivity.
  - reflexivity.
  - reflexivity.
  - repeat constructor; lia.
  - reflexivity.
  - intros j Hj. set (x := sb_sa _) in Hj.
    assert (Hx : x = 0) by (vm_compute; reflexivity).
    assert (j = 0) by lia. subst j.
    split; [vm_compute; reflexivity | lia].
  - vm_compute. reflexivity.
  - vm_compute. reflexivity.
  - right. intros [H _]. vm_compute in H. discriminate H.
  - reflexivity.
  - reflexivity.
Defined.

(** [superblock_init] on a device [superblock_read] can read back.  The
    device is small enough for the ages of its segments to fit into a
    sector (the condition the source asserts at line 843) and has a data
    segment.  The superblock [superblock_init] puts into sector 0 has one
    segment less free than the device holds, both pointers at the first
    data segment, no file root and all ages 0; the sector written is one
    sector long; and a [superblock_read] of the device afterwards (from a
    fresh softc) succeeds with exactly this superblock at position 0,
    provided sector 1 does not happen to continue the chain.  [junk], the
    content of the stack buffer before it is filled, is any sector. *)
Theorem superblock_init_read (SS : Z) (sc sc' : softc) (media rnd : Z) (junk : list Z) :
  let sc1 := snd (superblock_init SS sc media rnd junk) in
  1 <= SECTORS_PER_SEG SS ->
  SS mod 4 = 0 -> length junk = Z.to_nat (SS / 4) ->
  0 <= media ->
  seg_cnt_fits SS (sb sc1) ->
  1 < seg_cnt (sb sc1) ->
  seg_age sc = None ->
  wr_fail (dev sc) 0 = false ->
  (SECTORS_PER_SEG SS = 1 \/
   ~ (sig (sb_at (dev sc) 1) = SIG_LOGSTOR /\
      sb_gen (sb_at (dev sc) 1) = u16 (u16 rnd + 1))) ->
  dev sc' = dev sc1 -> seg_age sc' = None ->
  let r := superblock_read SS sc' in
  fst r = 0 /\ sb (snd r) = sb sc1 /\ sb_sa (snd r) = 0 /\
  seg_age (snd r) = Some (repeat 0 (Z.to_nat (seg_cnt (sb sc1)))) /\
  seg_age sc1 = Some (repeat 0 (Z.to_nat (seg_cnt (sb sc1)))) /\
  sig (sb sc1) = SIG_LOGSTOR /\ sb_gen (sb sc1) = u16 rnd /\
  max_block_cnt (sb sc1) = fst (superblock_init SS sc media rnd junk) /\
  seg_free_cnt (sb sc1) = i32 (seg_cnt (sb sc1) - 1) /\
  seg_alloc_p (sb sc1) = SEG_DATA_START /\ seg_reclaim_p (sb sc1) = SEG_DATA_START /\
  ftab (sb sc1) = [SECTOR_NULL; SECTOR_NULL; SECTOR_NULL] /\
  length (dev_read (dev sc1) 0) = Z.to_nat (SS / 4).
Proof.
  cbv zeta. intros HS HS4 Hjunk _ Hfits Hcnt Hnone Hwr Hnext Hdev Hnone'.
  unfold superblock_init in *. rewrite Hnone in *.
  set (sector_cnt := u32 (media / SS)) in *.
  set (cnt := i32 (sector_cnt / SECTORS_PER_SEG SS)) in *.
  set (mbc := u32 (u32 (i32 (cnt - SEG_DATA_START) * BLOCKS_PER_SEG SS
                        - sector_cnt / (SS / 4) * FD_COUNT) * 9 / 10)) in *.
  set (sb1 := mkSuperblock SIG_LOGSTOR VER_MAJOR VER_MINOR (u16 rnd) mbc cnt
                (i32 (cnt - SEG_DATA_START)) SEG_DATA_START SEG_DATA_START
                [SECTOR_NULL; SECTOR_NULL; SECTOR_NULL]) in *.
  sc_cbn.
  change (sb_image ?s junk)
    with (words_of_sb (sb s) (match seg_age s with Some a => a | None => [] end) junk)
    in *.
  sc_cbn.
  set (d1 := fst (dev_write (dev sc) 0 (words_of_sb sb1 (repeat 0 (Z.to_nat cnt)) junk))) in *.
  change (seg_cnt sb1) with cnt in *.
  assert (Hi32 : forall x, - 2 ^ 31 <= i32 x < 2 ^ 31).
  { intros x. unfold i32. pose proof (Z.mod_pos_bound (x + 2 ^ 31) (2 ^ 32) ltac:(lia)). lia. }
  assert (Hrange1 : sb_in_range sb1).
  { unfold sb_in_range, sb1, SIG_LOGSTOR, VER_MAJOR, VER_MINOR, SECTOR_NULL, SEG_DATA_START.
    cbn [sig ver_major ver_minor sb_gen max_block_cnt seg_cnt seg_free_cnt
         seg_alloc_p seg_reclaim_p ftab].
    pose proof (u16_range rnd). pose proof (u32_range
      (u32 (i32 (cnt - 1) * BLOCKS_PER_SEG SS - sector_cnt / (SS / 4) * FD_COUNT) * 9 / 10)).
    pose proof (Hi32 (sector_cnt / SECTORS_PER_SEG SS)). pose proof (Hi32 (cnt - 1)).
    fold cnt in H1.
    repeat (split; [first [lia | assumption]|]).
    exists 0, 0, 0. split; [reflexivity|]. lia. }
  assert (Hother : forall j, j <> 0 -> sb_at d1 j = sb_at (dev sc) j).
  { intros j Hj. unfold sb_at, dev_read, d1. rewrite dev_write_blk by exact Hwr.
    apply Z.eqb_neq in Hj. rewrite Hj. reflexivity. }
  assert (Hw : dev_read d1 0 = words_of_sb sb1 (repeat 0 (Z.to_nat cnt)) junk).
  { unfold dev_read, d1. rewrite dev_write_blk by exact Hwr. reflexivity. }
  assert (Hnew : sb_at d1 0 = sb1).
  { unfold sb_at. rewrite Hw. apply sb_of_words_of_sb. exact Hrange1. }
  assert (Hvalid : sb_invalid sb1 = false).
  { unfold sb_invalid, sb1, SEG_DATA_START.
    cbn [sig seg_alloc_p seg_reclaim_p seg_cnt]. rewrite Z.eqb_refl.
    cbn [negb orb]. rewrite !Z.geb_leb.
    assert (Hle : (cnt <=? 1) = false) by (apply Z.leb_gt; lia).
    rewrite Hle. reflexivity. }
  assert (Hmax : gen_chain_maximal SS d1 0).
  { split.
    - intros j Hj. assert (j = 0) by lia. subst j. rewrite Hnew. split; [reflexivity | lia].
    - destruct Hnext as [He | Hn]; [left; lia | right].
      rewrite Hnew. change (0 + 1) with 1. rewrite Hother by lia. exact Hn. }
  assert (H0' : sb_invalid (sb_at (dev sc') 0) = false)
    by (rewrite Hdev, Hnew; exact Hvalid).
  pose proof (superblock_read_chain SS sc' ltac:(lia) H0') as Hsel.
  cbv zeta in Hsel. rewrite Hdev in Hsel.
  destruct Hsel as (k0 & Hk0r & Hmax0 & Hsa0 & Hsb0 & Hcode & Hiff).
  assert (Hk0e : k0 = 0)
    by (apply (gen_chain_maximal_unique SS d1); [lia | lia | exact Hmax0 | exact Hmax]).
  rewrite Hk0e in Hsa0, Hsb0, Hiff. rewrite Hnew in Hsb0, Hiff.
  assert (Hok : fst (superblock_read SS sc') = 0).
  { destruct Hcode as [Hz | He]; [exact Hz|]. apply Hiff in He.
    rewrite Hvalid in He. discriminate He. }
  split; [exact Hok|]. split; [exact Hsb0|]. split; [exact Hsa0|].
  split.
  { pose proof (superblock_read_seg_age SS sc' ltac:(lia)) as Ha.
    cbv zeta in Ha. rewrite (Ha Hok), Hsa0, Hsb0, Hnone', Hdev.
    change (seg_cnt sb1) with cnt.
    rewrite Hw, seg_age_of_words_of_sb.
    - rewrite skipn_all2 by (rewrite repeat_length; lia).
      rewrite app_nil_r. reflexivity.
    - change (seg_cnt sb1) with cnt. lia.
    - rewrite repeat_length. reflexivity.
    - apply Forall_forall. intros x Hx. apply repeat_spec in Hx. subst x. lia. }
  repeat (split; [reflexivity|]).
  change (length (dev_read d1 0) = Z.to_nat (SS / 4)).
  rewrite Hw. apply (words_of_sb_length SS); [exact Hfits | exact HS4 | exact Hjunk].
Qed.

Lemma superblock_init_read_witness :
  let d := blank_device (16 * 1024 * 1024) in
  let junk := repeat 0xDEADBEEF 1024 in
  let sc1 := snd (superblock_init 4096 (softc_zero 4096 d) (16 * 1024 * 1024) 7 junk) in
  let r := superblock_read 4096 (softc_zero 4096 (dev sc1)) in
  fst r = 0 /\ sb (snd r) = sb sc1 /\ sb_sa (snd r) = 0 /\
  length (dev_read (dev sc1) 0) = Z.to_nat (4096 / 4).
Proof.
  cbv zeta.
  pose proof (superblock_init_read 4096 (softc_zero 4096 (blank_device (16 * 1024 * 1024)))
                (softc_zero 4096
                   (dev (snd (superblock_init 4096
                                (softc_zero 4096 (blank_device (16 * 1024 * 1024)))
                                (16 * 1024 * 1024) 7 (repeat 0xDEADBEEF 1024)))))
                (16 * 1024 * 1024) 7 (repeat 0xDEADBEEF 1024)) as H.
  cbv zeta in H.
  destruct H as (H1 & H2 & H3 & _ & _ & _ & _ & _ & _ & _ & _ & _ & H13).
  - vm_compute. discriminate.
  - reflexivity.
  - reflexivity.
  - vm_compute. discriminate.
  - vm_compute. split; [discriminate | reflexivity].
  - vm_compute. reflexivity.
  - reflexivity.
  - reflexivity.
  - right. intros [Hs _]. vm_compute in Hs. discriminate Hs.
  - reflexivity.
  - reflexivity.
  - split; [exact H1|]. split; [exact H2|]. split; [exact H3 | exact H13].
Defined.

(* ================================================================= *)
(** ** Segment summaries on the device *)

Lemma upd_nth_length {A : Type} (n : nat) (x : A) (l : list A) :
  length (upd_nth n x l) = length l.
Proof.
  revert n. induction l as [|h t IH]; intros [|n]; cbn [upd_nth length];
    try reflexivity. rewrite IH. reflexivity.
Qed.

Lemma nth_upd_nth_eq {A : Type} (n : nat) (x d : A) (l : list A) :
  (n < length l)%nat -> nth n (upd_nth n x l) d = x.
Proof.
  revert n. induction l as [|h t IH]; intros [|n] H; cbn [length] in H;
    cbn [upd_nth nth]; try lia; try reflexivity. apply IH. lia.
Qed.

Lemma nth_upd_nth_neq {A : Type} (n m : nat) (x d : A) (l : list A) :
  n <> m -> nth m (upd_nth n x l) d = nth m l d.
Proof.
  revert n m. induction l as [|h t IH]; intros [|n] [|m] H;
    cbn [upd_nth nth]; try reflexivity; try lia. apply IH. lia.
Qed.

Lemma get_set_ss (sc : softc) (p : ss_ptr) (s : seg_sum) :
  ss_ptr_ok sc p -> get_ss (set_ss sc p s) p = s.
Proof.
  destruct p as [| |i]; intros H; try reflexivity.
  cbn [get_ss set_ss]. sc_cbn. apply nth_upd_nth_eq. exact H.
Qed.

(** The last word of a segment summary sector. *)
Lemma seg_sum_word_fields (g a : Z) :
  0 <= g < 2 ^ 16 -> 0 <= a < 2 ^ 16 ->
  let w := Z.lor (u16 g) (Z.shiftl (u16 a) 16) in
  Z.land w 0xffff = g /\ Z.land (Z.shiftr w 16) 0xffff = a.
Proof.
  intros Hg Ha. cbv zeta. rewrite (u16_small g), (u16_small a) by assumption.
  change 0xffff with (Z.ones 16).
  split; apply Z.bits_inj'; intros n Hn; bit_rw; bit_cases.
  all: try (replace (n + 16 - 16) with n by lia).
  all: rewrite ?(small_bits g 16 n), ?(small_bits g 16 (n + 16)),
         ?(small_bits a 16 n) by lia.
  all: bit_cases.
Qed.

(** A segment summary written by [seg_sum_write] is read back by
    [seg_sum_read]: the summary goes to the last sector of its segment with
    the generation of the superblock, and reading that segment into any
    summary of the softc restores the reverse map, the generation and the
    allocation pointer, and leaves the soft part of the target alone. *)
Theorem seg_sum_write_read (SS : Z) (sc sc' : softc) (p q : ss_ptr) :
  let s := get_ss sc p in
  0 <= SEG_SUM_OFF SS ->
  ss_ptr_ok sc p -> ss_ptr_ok sc' q ->
  length (ss_rm s) = Z.to_nat (SEG_SUM_OFF SS) ->
  0 <= ss_alloc_p s < 2 ^ 16 -> 0 <= sb_gen (sb sc) < 2 ^ 16 ->
  wr_fail (dev sc) (u32 (sega2sa (sega s) + SEG_SUM_OFF SS)) = false ->
  let sc1 := seg_sum_write SS sc p in
  dev sc' = dev sc1 -> sega (get_ss sc' q) = sega s ->
  let t := get_ss (seg_sum_read SS sc' q) q in
  ss_gen (get_ss sc1 p) = sb_gen (sb sc) /\
  trace sc1 = EvSegSumWrite (u32 (sega2sa (sega s) + SEG_SUM_OFF SS)) :: trace sc /\
  ss_rm t = ss_rm s /\ ss_gen t = sb_gen (sb sc) /\ ss_alloc_p t = ss_alloc_p s /\
  sega t = sega s /\ live_count t = live_count (get_ss sc' q).
Proof.
  cbv zeta. intros Hoff Hp Hq Hlen Ha Hg Hwr Hdev Hsega.
  set (s := get_ss sc p) in *.
  set (sa := u32 (sega2sa (sega s) + SEG_SUM_OFF SS)) in *.
  set (s1 := set_ss_gen s (sb_gen (sb sc))).
  assert (Hd1 : dev (seg_sum_write SS sc p)
                = fst (dev_write (dev sc) sa (words_of_seg_sum s1))).
  { unfold seg_sum_write. fold s. fold sa. fold s1. sc_cbn.
    destruct p; reflexivity. }
  assert (Hs1 : get_ss (seg_sum_write SS sc p) p = s1).
  { unfold seg_sum_write. fold s. fold sa. fold s1.
    destruct p as [| |i]; try reflexivity.
    cbn [get_ss set_ss]. sc_cbn. apply nth_upd_nth_eq. exact Hp. }
  assert (Htr : trace (seg_sum_write SS sc p) = EvSegSumWrite sa :: trace sc).
  { unfold seg_sum_write. fold s. fold sa. fold s1. sc_cbn.
    destruct p; reflexivity. }
  rewrite Hs1. split; [reflexivity|]. split; [exact Htr|].
  unfold seg_sum_read. rewrite get_set_ss by exact Hq.
  rewrite Hsega. fold sa. rewrite Hdev, Hd1.
  unfold dev_read. rewrite dev_write_blk by exact Hwr. rewrite Z.eqb_refl.
  unfold seg_sum_of_words, words_of_seg_sum.
  cbn [ss_rm ss_gen ss_alloc_p sega live_count s1 set_ss_gen].
  rewrite <- Hlen.
  assert (Hz : zget (ss_rm s ++ [Z.lor (u16 (sb_gen (sb sc))) (Z.shiftl (u16 (ss_alloc_p s)) 16)])
                 (Z.of_nat (length (ss_rm s)))
               = Z.lor (u16 (sb_gen (sb sc))) (Z.shiftl (u16 (ss_alloc_p s)) 16)).
  { unfold zget. rewrite Nat2Z.id, app_nth2 by lia. rewrite Nat.sub_diag. reflexivity. }
  rewrite Hz.
  destruct (seg_sum_word_fields (sb_gen (sb sc)) (ss_alloc_p s) Hg Ha) as [W1 W2].
  cbv zeta in W1, W2. rewrite W1, W2.
  rewrite firstn_app, firstn_all, Nat.sub_diag. cbn [firstn]. rewrite app_nil_r.
  repeat split. exact Hsega.
Qed.

Lemma seg_sum_write_read_witness :
  let sc := set_seg_sum_hot (softc_zero 4096 (blank_device (16 * 1024 * 1024)))
              (mkSegSum (repeat 7 1023) 0 5 2 0) in
  let sc1 := seg_sum_write 4096 sc PHot in
  let t := get_ss (seg_sum_read 4096 (set_ss sc1 (PCand 0) (set_sega (seg_sum_zero 0) 2))
                     (PCand 0)) (PCand 0) in
  ss_rm t = repeat 7 1023%nat /\ ss_gen t = 0 /\ ss_alloc_p t = 5.
Proof.
  cbv zeta.
  set (sc := set_seg_sum_hot (softc_zero 4096 (blank_device (16 * 1024 * 1024)))
               (mkSegSum (repeat 7 1023) 0 5 2 0)).
  pose proof (seg_sum_write_read 4096 sc
                (set_ss (seg_sum_write 4096 sc PHot) (PCand 0) (set_sega (seg_sum_zero 0) 2))
                PHot (PCand 0)) as H.
  cbv zeta in H.
  destruct H as (_ & _ & H1 & H2 & H3 & _).
  - vm_compute. discriminate.
  - exact I.
  - vm_compute. lia.
  - vm_compute. reflexivity.
  - vm_compute. split; [discriminate | reflexivity].
  - vm_compute. split; [discriminate | reflexivity].
  - vm_compute. reflexivity.
  - vm_compute. reflexivity.
  - vm_compute. reflexivity.
  - split; [exact H1|]. split; [exact H2 | exact H3].
Defined.

(* ================================================================= *)
(** ** What the flush of a buffer leaves alone *)

Lemma bind_Ok {A B : Type} (m : result A) (k : A -> result B) (r : B) :
  bind m k = Ok r -> exists a, m = Ok a /\ k a = Ok r.
Proof.
  destruct m as [a| |]; cbn [bind]; intros H; try discriminate H.
  exists a. split; [reflexivity | exact H].
Qed.

Lemma of_option_Ok {A : Type} (o : option A) (a : A) :
  of_option o = Ok a -> o = Some a.
Proof. destruct o; cbn; intros H; inversion H; reflexivity. Qed.

Lemma same_shape_refl (sc : softc) : same_shape sc sc.
Proof. repeat split. Qed.

Lemma same_shape_trans (a b c : softc) :
  same_shape a b -> same_shape b c -> same_shape a c.
Proof.
  intros (H1 & H2 & H3 & H4 & H5) (G1 & G2 & G3 & G4 & G5).
  split; [congruence|]. split; [congruence|]. split; [congruence|].
  split; [congruence|]. intros b0.
  destruct (H5 b0) as (A1 & A2 & A3 & A4). destruct (G5 b0) as (B1 & B2 & B3 & B4).
  repeat split; congruence.
Qed.

(** An update of a buffer that keeps its links, count and address. *)
Lemma same_shape_upd_fbuf (sc : softc) (b : nat) (f : fbuf -> fbuf) :
  (forall x, ref_cnt (f x) = ref_cnt x /\ on_cir_queue (f x) = on_cir_queue x /\
             parent (f x) = parent x /\ ma (f x) = ma x) ->
  same_shape sc (upd_fbuf sc b f).
Proof.
  intros Hf. repeat split; sc_cbn; destruct (Nat.eqb b0 b); try reflexivity; apply Hf.
Qed.

Lemma same_shape_set_ss (sc : softc) (p : ss_ptr) (s : seg_sum) :
  same_shape sc (set_ss sc p s).
Proof. destruct p; repeat split. Qed.

Lemma same_shape_seg_sum_write (SS : Z) (sc : softc) (p : ss_ptr) :
  same_shape sc (seg_sum_write SS sc p).
Proof. unfold seg_sum_write. destruct p; repeat split. Qed.

Lemma same_shape_seg_alloc_loop (fuel : nat) :
  forall (sc sc' : softc) (p : ss_ptr) (c : Z),
    seg_alloc_loop fuel sc p c = Ok sc' -> same_shape sc sc'.
Proof.
  induction fuel as [|fuel IH]; intros sc sc' p c H; cbn [seg_alloc_loop] in H.
  - discriminate H.
  - unfold seg_alloc_advance in H. cbv zeta in H.
    set (sc1 := set_sb sc _) in H.
    assert (H1 : same_shape sc sc1) by (repeat split).
    destruct (u32 (seg_alloc_p (sb sc)) =? c).
    + apply (same_shape_trans _ _ _ H1). apply (IH _ _ _ _ H).
    + apply bind_Ok in H. destruct H as (age & _ & H).
      destruct (negb (age =? 0)).
      * apply (same_shape_trans _ _ _ H1). apply (IH _ _ _ _ H).
      * inversion H; subst sc'. apply (same_shape_trans _ _ _ H1).
        destruct p; repeat split.
Qed.

Lemma same_shape_seg_alloc (fuel : nat) (sc sc' : softc) (p : ss_ptr) :
  seg_alloc fuel sc p = Ok sc' -> same_shape sc sc'.
Proof. apply same_shape_seg_alloc_loop. Qed.

Lemma same_shape_fbuf_write (SS : Z) (fuel : nat) (sc sc' : softc) (b : nat)
  (p : ss_ptr) (sa : Z) :
  fbuf_write SS fuel sc b p = Ok (sa, sc') -> same_shape sc sc'.
Proof.
  unfold fbuf_write. cbv zeta.
  destruct (SEG_SUM_OFF SS <=? ss_alloc_p (get_ss sc p)); [intros H; discriminate H|].
  match goal with
  | |- (if ?c then _ else Ok (_, ?s6)) = _ -> _ =>
      assert (H6 : same_shape sc s6); [|destruct c]
  end.
  - destruct p; repeat split; sc_cbn; destruct (Nat.eqb b0 b); reflexivity.
  - intros H. apply bind_Ok in H. destruct H as (sc7 & Ha & H). inversion H; subst.
    apply (same_shape_trans _ _ _ H6).
    eapply same_shape_trans; [apply same_shape_seg_sum_write|].
    eapply same_shape_seg_alloc. exact Ha.
  - intros H. inversion H; subst. exact H6.
Qed.

Lemma same_shape_fbuf_flush (SS : Z) (fuel : nat) (sc sc' : softc) (b : nat)
  (p : ss_ptr) :
  fbuf_flush SS fuel sc b p = Ok sc' -> same_shape sc sc'.
Proof.
  unfold fbuf_flush. intros H. apply bind_Ok in H. destruct H as ([sa sc1] & Hw & H).
  apply same_shape_fbuf_write in Hw. cbn [fst snd] in H.
  apply (same_shape_trans _ _ _ Hw).
  destruct (parent (fbufs sc1 b)) as [pb|].
  - apply bind_Ok in H. destruct H as (pindex & _ & H).
    match type of H with
    | (if modified (fbufs ?s2 pb) then _ else _) = _ =>
        assert (H2 : same_shape sc1 s2)
          by (apply same_shape_upd_fbuf; intros x; repeat split);
        destruct (modified (fbufs s2 pb))
    end.
    + inversion H; subst. exact H2.
    + inversion H; subst. apply (same_shape_trans _ _ _ H2).
      repeat split; sc_cbn; destruct (Nat.eqb b0 pb); reflexivity.
  - destruct (FD_COUNT <=? ma_fd (ma (fbufs sc1 b))); [discriminate H|].
    inversion H; subst. repeat split.
Qed.

(* ================================================================= *)
(** ** The invariant of the buffer cache *)

Lemma children_ext (sc sc' : softc) (p : nat) :
  pool_size sc' = pool_size sc ->
  (forall b, parent (fbufs sc' b) = parent (fbufs sc b)) ->
  children sc' p = children sc p.
Proof.
  intros Hn Hp. unfold children. rewrite Hn. f_equal.
  apply filter_ext. intros b. unfold is_child. rewrite Hp. reflexivity.
Qed.

(** The invariant looks at the shape of the cache only. *)
Lemma cache_inv_shape (sc sc' : softc) (pin ex : option nat) :
  same_shape sc sc' -> cache_inv sc pin ex -> cache_inv sc' pin ex.
Proof.
  intros (Hc & Hq & Hi & Hb & Hf) [I1 I2 I3 I4 I5 I6 I7 I8 I9 I10 I11 I12].
  assert (Hn : pool_size sc' = pool_size sc) by (unfold pool_size; rewrite Hc; reflexivity).
  assert (Hiq : indirect_queues sc' = indirect_queues sc)
    by (unfold indirect_queues; rewrite Hi; reflexivity).
  assert (Hch : forall p, children sc' p = children sc p)
    by (intros p; apply children_ext; [exact Hn | intros b; apply Hf]).
  constructor; rewrite ?Hn, ?Hq, ?Hiq, ?Hb, ?Hi; try assumption.
  - intros b Hin. destruct (Hf b) as (A1 & A2 & A3 & A4). rewrite A1, A2. apply I4, Hin.
  - intros b Hin. destruct (Hf b) as (A1 & A2 & A3 & A4). rewrite A1, A2, Hch.
    apply I5, Hin.
  - intros b p Hb0 Hp. destruct (Hf b) as (A1 & A2 & A3 & A4). rewrite A3 in Hp.
    apply (I7 b p Hb0 Hp).
  - intros b b' Hb0 Hb' He Hm.
    destruct (Hf b) as (_ & _ & _ & A4). destruct (Hf b') as (_ & _ & _ & A4').
    rewrite A4 in He, Hm. rewrite A4' in He. apply (I9 b b' Hb0 Hb' He Hm).
  - intros b Hb0 Hm. destruct (Hf b) as (_ & _ & _ & A4). rewrite A4 in *.
    apply (I11 b Hb0 Hm).
  - intros b Hb0 Hex Hm Hd. destruct (Hf b) as (_ & _ & A3 & A4). rewrite A4 in *.
    destruct (I12 b Hb0 Hex Hm Hd) as (p & Hp & Hmp & Hmm).
    exists p. destruct (Hf p) as (_ & _ & _ & A4p). rewrite A3, A4p.
    repeat split; assumption.
Qed.

(** The chains built by hashing the buffers of a list by their index. *)
Lemma fold_hash_insert_spec (l : list nat) :
  forall (s : softc),
    let s' := fold_left (fun s i => fbuf_hash_insert s i (Z.of_nat i)) l s in
    fbufs s' = fbufs s /\ fbuf_count s' = fbuf_count s /\
    cir_queue s' = cir_queue s /\ indirect_head s' = indirect_head s /\
    forall h b, In b (fbuf_bucket s' h) <->
                (In b l /\ bucket_of (Z.of_nat b) = h) \/ In b (fbuf_bucket s h).
Proof.
  induction l as [|i l IH]; intros s; cbv zeta.
  - cbn [fold_left]. repeat split; try tauto. intros [[[] _] | H]; exact H.
  - cbn [fold_left]. specialize (IH (fbuf_hash_insert s i (Z.of_nat i))).
    cbv zeta in IH. destruct IH as (A1 & A2 & A3 & A4 & A5).
    split; [exact A1|]. split; [exact A2|]. split; [exact A3|]. split; [exact A4|].
    intros h b. rewrite A5. unfold fbuf_hash_insert. sc_cbn.
    destruct (Z.eqb_spec h (bucket_of (Z.of_nat i))) as [He | Hne].
    + cbn [In]. split.
      * intros [[H1 H2] | [H | H]]; [left; tauto | | right; exact H].
        subst b. left. split; [left; reflexivity | symmetry; exact He].
      * intros [[[H1 | H1] H2] | H]; [subst b; right; left; reflexivity | left; tauto | right; right; exact H].
    + cbn [In]. split.
      * intros [[H1 H2] | H]; [left; tauto | right; exact H].
      * intros [[[H1 | H1] H2] | H]; [subst b; congruence | left; tauto | right; exact H].
Qed.

Lemma IS_META_ADDR_invalid : IS_META_ADDR META_INVALID = false.
Proof. reflexivity. Qed.

(** The state [file_mod_init] leaves. *)
Lemma file_mod_init_facts (SS : Z) (sc : softc) :
  let n := max_block_cnt (sb sc) / (SS / 4) in
  let sc' := file_mod_init SS sc in
  0 <= n < 65535 ->
  fbuf_count sc' = n /\
  cir_queue sc' = seq 0 (Z.to_nat n) /\
  (forall d, indirect_head sc' d = []) /\
  (forall b, fbufs sc' b = mkFbuf 0 true false false None META_INVALID
                             (repeat 0 (Z.to_nat (fbuf_data_len SS)))) /\
  (forall h b, In b (fbuf_bucket sc' h) <->
               (b < Z.to_nat n)%nat /\ bucket_of (Z.of_nat b) = h) /\
  cache_inv sc' None None /\
  (forall m, IS_META_ADDR m = true -> fst (fbuf_search sc' m) = None) /\
  fbuf_modified_count sc' = 0.
Proof.
  cbv zeta. intros Hn. unfold file_mod_init. cbv zeta.
  set (n := max_block_cnt (sb sc) / (SS / 4)) in *.
  set (zero := mkFbuf 0 true false false None META_INVALID
                 (repeat 0 (Z.to_nat (fbuf_data_len SS)))).
  match goal with
  | |- context [fold_left ?f ?l ?s] =>
      pose proof (fold_hash_insert_spec l s) as Hfold; cbv zeta in Hfold;
      set (sc5 := fold_left f l s) in *
  end.
  destruct Hfold as (F1 & F2 & F3 & F4 & F5).
  sc_cbn.
  assert (Hfb : forall b, fbufs sc5 b = zero) by (intros b; rewrite F1; reflexivity).
  assert (Hbk : forall h b, In b (fbuf_bucket sc5 h) <->
                  (b < Z.to_nat n)%nat /\ bucket_of (Z.of_nat b) = h).
  { intros h b. rewrite F5. sc_cbn. rewrite in_seq. split.
    - intros [[H1 H2] | []]. split; [lia | exact H2].
    - intros [H1 H2]. left. split; [lia | exact H2]. }
  split; [exact F2|]. split; [reflexivity|]. split; [reflexivity|].
  split; [exact Hfb|]. split; [exact Hbk|].
  assert (Hps : forall s, pool_size (set_indirect_head (set_cir_queue sc5 (seq 0 (Z.to_nat n))) s)
                          = Z.to_nat n).
  { intros s. unfold pool_size. sc_cbn. rewrite F2. reflexivity. }
  split; [|split].
  - constructor; unfold indirect_queues; rewrite ?Hps; sc_cbn; rewrite ?app_nil_r.
    + apply seq_NoDup.
    + intros b. rewrite in_seq. lia.
    + lia.
    + intros b _. rewrite Hfb. split; reflexivity.
    + intros b [].
    + reflexivity.
    + intros b p _ Hp. rewrite Hfb in Hp. discriminate Hp.
    + intros p Hp. discriminate Hp.
    + intros b b' _ _ _ Hm. rewrite Hfb in Hm. discriminate Hm.
    + intros h b Hin. apply Hbk in Hin. tauto.
    + intros b _ Hm. rewrite Hfb in Hm. discriminate Hm.
    + intros b _ _ Hm. rewrite Hfb in Hm. discriminate Hm.
  - intros m Hm. unfold fbuf_search. sc_cbn.
    destruct (find _ _) as [b|] eqn:Hfind; [|reflexivity].
    apply find_some in Hfind. destruct Hfind as [_ He]. rewrite Hfb in He.
    apply Z.eqb_eq in He. cbn [ma zero] in He. subst m. discriminate Hm.
  - sc_cbn.
    assert (G : forall l s, fbuf_modified_count
                  (fold_left (fun s i => fbuf_hash_insert s i (Z.of_nat i)) l s)
                = fbuf_modified_count s).
    { induction l as [|i l IH]; intros s; cbn [fold_left]; [reflexivity|].
      rewrite IH. reflexivity. }
    unfold sc5. rewrite G. reflexivity.
Qed.

(** [file_mod_init] sets the cache up: every buffer of the pool is on the
    circular queue, in the order of the array, none on an indirect queue;
    each buffer is clean, not accessed, not referenced, without parent and
    without address, its data zeroed, and hashed by its index; the
    invariant of the cache holds, and every lookup of a metadata address
    misses. *)
Theorem file_mod_init_cache (SS : Z) (sc : softc) :
  let n := max_block_cnt (sb sc) / (SS / 4) in
  let sc' := file_mod_init SS sc in
  1 <= n < 65535 ->
  fbuf_count sc' = n /\
  cir_queue sc' = seq 0 (Z.to_nat n) /\
  (forall d, indirect_head sc' d = []) /\
  (forall b, fbufs sc' b = mkFbuf 0 true false false None META_INVALID
                             (repeat 0 (Z.to_nat (fbuf_data_len SS)))) /\
  (forall h b, In b (fbuf_bucket sc' h) <->
               (b < Z.to_nat n)%nat /\ bucket_of (Z.of_nat b) = h) /\
  cache_inv sc' None None /\
  (forall m, IS_META_ADDR m = true -> fst (fbuf_search sc' m) = None) /\
  fbuf_modified_count sc' = 0.
Proof.
  cbv zeta. intros Hn. apply (file_mod_init_facts SS sc). lia.
Qed.

Lemma file_mod_init_cache_witness :
  let sc := set_sb (softc_zero 4096 (blank_device 0))
              (mkSuperblock SIG_LOGSTOR 0 1 0 2751 4 3 1 1 [0; 0; 0]) in
  fbuf_count (file_mod_init 4096 sc) = 2751 / (4096 / 4) /\
  cir_queue (file_mod_init 4096 sc) = seq 0 (Z.to_nat (2751 / (4096 / 4))).
Proof.
  cbv zeta.
  pose proof (file_mod_init_cache 4096
                (set_sb (softc_zero 4096 (blank_device 0))
                   (mkSuperblock SIG_LOGSTOR 0 1 0 2751 4 3 1 1 [0; 0; 0]))) as H.
  cbv zeta in H. destruct H as (H1 & H2 & _).
  - vm_compute. split; [discriminate | reflexivity].
  - split; [exact H1 | exact H2].
Defined.

(** Counting with a predicate changed at one place. *)
Lemma filter_seq_change (f g : nat -> bool) (v n : nat) :
  (forall b, b <> v -> f b = g b) -> (v < n)%nat ->
  (length (filter f (seq 0 n)) + (if g v then 1 else 0)
   = length (filter g (seq 0 n)) + (if f v then 1 else 0))%nat.
Proof.
  intros Hfg. induction n as [|n IH]; intros Hv; [lia|].
  rewrite seq_S, !filter_app, !length_app. cbn [filter Nat.add].
  destruct (Nat.eq_dec v n) as [-> | Hne].
  - assert (He : filter f (seq 0 n) = filter g (seq 0 n)).
    { apply filter_ext_in. intros b Hb. apply in_seq in Hb. apply Hfg. lia. }
    rewrite He. destruct (f n), (g n); cbn [length]; lia.
  - specialize (IH ltac:(lia)). rewrite (Hfg n) by lia.
    destruct (g n); cbn [length]; lia.
Qed.

Lemma filter_seq_same (f g : nat -> bool) (n : nat) :
  (forall b, (b < n)%nat -> f b = g b) ->
  length (filter f (seq 0 n)) = length (filter g (seq 0 n)).
Proof.
  intros H. f_equal. apply filter_ext_in. intros b Hb. apply in_seq in Hb.
  apply H. lia.
Qed.

(** A buffer with no children is nobody's parent. *)
Lemma children_zero (sc : softc) (p b : nat) :
  children sc p = 0%nat -> (b < pool_size sc)%nat -> parent (fbufs sc b) <> Some p.
Proof.
  unfold children. intros Hz Hb Hp.
  assert (Hin : In b (filter (is_child sc p) (seq 0 (pool_size sc)))).
  { apply filter_In. split; [apply in_seq; lia|].
    unfold is_child. rewrite Hp. apply Nat.eqb_refl. }
  destruct (filter _ _); [destruct Hin | discriminate Hz].
Qed.

Lemma children_pos (sc : softc) (p b : nat) :
  (b < pool_size sc)%nat -> parent (fbufs sc b) = Some p -> (0 < children sc p)%nat.
Proof.
  intros Hb Hp. destruct (children sc p) eqn:Hc; [|lia].
  exfalso. exact (children_zero sc p b Hc Hb Hp).
Qed.

(** The effect on the counts of giving the buffer [v] another parent. *)
Lemma children_reparent (sc sc' : softc) (v : nat) :
  pool_size sc' = pool_size sc -> (v < pool_size sc)%nat ->
  (forall b, b <> v -> parent (fbufs sc' b) = parent (fbufs sc b)) ->
  forall p,
    (children sc' p + (if is_child sc p v then 1 else 0)
     = children sc p + (if is_child sc' p v then 1 else 0))%nat.
Proof.
  intros Hn Hv Hp p. unfold children. rewrite Hn.
  pose proof (filter_seq_change (is_child sc' p) (is_child sc p) v (pool_size sc)) as H.
  rewrite H; [lia | | exact Hv].
  intros b Hb. unfold is_child. rewrite Hp by exact Hb. reflexivity.
Qed.

Lemma Permutation_remove (l : list nat) (x : nat) :
  NoDup l -> In x l -> Permutation l (x :: remove Nat.eq_dec x l).
Proof.
  induction l as [|h t IH]; intros Hnd Hin; [destruct Hin|].
  inversion Hnd as [|? ? Hnotin Hnd']; subst.
  cbn [remove]. destruct (Nat.eq_dec x h) as [-> | Hne].
  - rewrite notin_remove by exact Hnotin. apply Permutation_refl.
  - destruct Hin as [He | Hin]; [congruence|].
    eapply perm_trans; [apply perm_skip, IH; assumption|].
    apply perm_swap.
Qed.

Lemma Permutation_rotate {A : Type} (n : nat) (l : list A) :
  Permutation (skipn n l ++ firstn n l) l.
Proof.
  eapply perm_trans; [apply Permutation_app_comm|].
  rewrite firstn_skipn. apply Permutation_refl.
Qed.

(** The walk of the second chance changes flags only, and what it selects
    is on the walk. *)
Lemma fbuf_alloc_walk_shape (q : list nat) :
  forall (sc : softc) (k : nat),
    let w := fbuf_alloc_walk sc q k in
    same_shape sc (fst w) /\
    match snd w with
    | Some (b, k') => (k <= k')%nat /\ nth_error q (k' - k) = Some b
    | None => True
    end.
Proof.
  induction q as [|b q IH]; intros sc k; cbv zeta; cbn [fbuf_alloc_walk].
  - split; [apply same_shape_refl | exact I].
  - destruct (negb (accessed (fbufs sc b))).
    + cbn [fst snd]. split; [apply same_shape_refl|].
      split; [lia|]. rewrite Nat.sub_diag. reflexivity.
    + specialize (IH (upd_fbuf sc b (fun x => set_accessed x false)) (S k)).
      cbv zeta in IH. destruct IH as [Hs Hr]. split.
      * eapply same_shape_trans; [|exact Hs].
        apply same_shape_upd_fbuf. intros x. repeat split.
      * destruct (snd (fbuf_alloc_walk _ q (S k))) as [[b' k']|]; [|exact I].
        destruct Hr as [Hk Hn]. split; [lia|].
        replace (k' - k)%nat with (S (k' - S k)) by lia. exact Hn.
Qed.

Lemma pool_size_set_cir_queue (sc : softc) (q : list nat) :
  pool_size (set_cir_queue sc q) = pool_size sc.
Proof. reflexivity. Qed.

(** The invariant does not depend on where the circular queue starts. *)
Lemma cache_inv_cir_perm (sc : softc) (q : list nat) (pin ex : option nat) :
  Permutation (cir_queue sc) q -> cache_inv sc pin ex ->
  cache_inv (set_cir_queue sc q) pin ex.
Proof.
  intros Hperm [I1 I2 I3 I4 I5 I6 I7 I8 I9 I10 I11 I12].
  assert (Hch : forall p, children (set_cir_queue sc q) p = children sc p)
    by (intros p; apply children_ext; [reflexivity | intros b; reflexivity]).
  assert (Hpa : Permutation (cir_queue sc ++ indirect_queues sc) (q ++ indirect_queues sc))
    by (apply Permutation_app_tail; exact Hperm).
  constructor.
  - change (NoDup (q ++ indirect_queues sc)). eapply Permutation_NoDup; eassumption.
  - intros b. change (In b (q ++ indirect_queues sc) <-> (b < pool_size sc)%nat).
    rewrite <- I2. split; apply Permutation_in;
      [apply Permutation_sym|]; exact Hpa.
  - exact I3.
  - intros b Hb. change (In b q) in Hb.
    apply (Permutation_in _ (Permutation_sym Hperm)) in Hb. apply (I4 b Hb).
  - intros b Hb. rewrite Hch. apply (I5 b Hb).
  - exact I6.
  - exact I7.
  - exact I8.
  - exact I9.
  - exact I10.
  - exact I11.
  - exact I12.
Qed.

(** Forgetting nothing, exempting one buffer more. *)
Lemma cache_inv_weaken_ex (sc : softc) (pin : option nat) (v : nat) :
  cache_inv sc pin None -> cache_inv sc pin (Some v).
Proof.
  intros [I1 I2 I3 I4 I5 I6 I7 I8 I9 I10 I11 I12].
  constructor; try assumption.
  intros b Hb _ Hm Hd. apply (I12 b Hb); [discriminate | assumption | assumption].
Qed.

Lemma fbufs_upd_eq (sc : softc) (b : nat) (f : fbuf -> fbuf) :
  fbufs (upd_fbuf sc b f) b = f (fbufs sc b).
Proof. unfold upd_fbuf. sc_cbn. rewrite Nat.eqb_refl. reflexivity. Qed.

Lemma fbufs_upd_neq (sc : softc) (b b' : nat) (f : fbuf -> fbuf) :
  b' <> b -> fbufs (upd_fbuf sc b f) b' = fbufs sc b'.
Proof.
  intros H. unfold upd_fbuf. sc_cbn. apply Nat.eqb_neq in H. rewrite H. reflexivity.
Qed.

Lemma NoDup_app_disjoint {A : Type} (l1 l2 : list A) (x : A) :
  NoDup (l1 ++ l2) -> In x l1 -> In x l2 -> False.
Proof.
  induction l1 as [|h t IH]; intros Hnd H1 H2; [destruct H1|].
  cbn [app] in Hnd. inversion Hnd as [|? ? Hnotin Hnd']; subst.
  destruct H1 as [-> | H1].
  - apply Hnotin. apply in_or_app. right. exact H2.
  - exact (IH Hnd' H1 H2).
Qed.

Lemma pin_bit_range (pin : option nat) (b : nat) : 0 <= pin_bit pin b <= 1.
Proof. unfold pin_bit. destruct pin as [x|]; [destruct (Nat.eqb x b)|]; lia. Qed.

Lemma children_le (sc : softc) (p : nat) : (children sc p <= pool_size sc)%nat.
Proof.
  unfold children. etransitivity; [apply filter_length_le|]. rewrite length_seq. lia.
Qed.

(** The victim [v] of [fbuf_alloc] leaves its parent [pb]: what changes in
    the buffers. *)
Lemma detach_facts (sc : softc) (pin : option nat) (v pb : nat) :
  cache_inv sc pin None -> In v (cir_queue sc) ->
  parent (fbufs sc v) = Some pb ->
  let sc5 := upd_fbuf (upd_fbuf sc v (fun x => set_parent x None)) pb
               (fun x => set_ref_cnt x (u16 (ref_cnt x - 1))) in
  pb <> v /\ In pb (indirect_queues sc) /\ (v < pool_size sc)%nat /\
  (forall b, b <> v -> parent (fbufs sc5 b) = parent (fbufs sc b)) /\
  parent (fbufs sc5 v) = None /\
  (forall b, ma (fbufs sc5 b) = ma (fbufs sc b)) /\
  (forall b, on_cir_queue (fbufs sc5 b) = on_cir_queue (fbufs sc b)) /\
  (forall b, b <> pb -> ref_cnt (fbufs sc5 b) = ref_cnt (fbufs sc b)) /\
  ref_cnt (fbufs sc5 pb) = Z.of_nat (children sc5 pb) + pin_bit pin pb /\
  (forall p, p <> pb -> children sc5 p = children sc p).
Proof.
  intros Hinv Hvq Hpar. cbv zeta.
  pose proof Hinv as [I1 I2 I3 I4 I5 I6 I7 I8 I9 I10 I11 I12].
  assert (Hv : (v < pool_size sc)%nat) by (apply I2, in_or_app; left; exact Hvq).
  assert (Hpb : In pb (indirect_queues sc)) by (apply (I7 v pb Hv Hpar)).
  assert (Hne : pb <> v).
  { intros ->. exact (NoDup_app_disjoint _ _ _ I1 Hvq Hpb). }
  set (sc4 := upd_fbuf sc v (fun x => set_parent x None)).
  set (sc5 := upd_fbuf sc4 pb (fun x => set_ref_cnt x (u16 (ref_cnt x - 1)))).
  assert (Hpar5 : forall b, b <> v -> parent (fbufs sc5 b) = parent (fbufs sc b)).
  { intros b Hb. unfold sc5, sc4.
    destruct (Nat.eq_dec b pb) as [-> | Hbp].
    - rewrite fbufs_upd_eq, fbufs_upd_neq by exact Hne. reflexivity.
    - rewrite !fbufs_upd_neq by assumption. reflexivity. }
  assert (Hparv : parent (fbufs sc5 v) = None).
  { unfold sc5, sc4. rewrite fbufs_upd_neq by (intros E; apply Hne; symmetry; exact E).
    rewrite fbufs_upd_eq. reflexivity. }
  assert (Hma5 : forall b, ma (fbufs sc5 b) = ma (fbufs sc b)).
  { intros b. unfold sc5, sc4.
    destruct (Nat.eq_dec b pb) as [-> | Hbp].
    - rewrite fbufs_upd_eq, fbufs_upd_neq by exact Hne. reflexivity.
    - rewrite fbufs_upd_neq by exact Hbp.
      destruct (Nat.eq_dec b v) as [-> | Hbv];
        [rewrite fbufs_upd_eq | rewrite fbufs_upd_neq by exact Hbv]; reflexivity. }
  assert (Hoc5 : forall b, on_cir_queue (fbufs sc5 b) = on_cir_queue (fbufs sc b)).
  { intros b. unfold sc5, sc4.
    destruct (Nat.eq_dec b pb) as [-> | Hbp].
    - rewrite fbufs_upd_eq, fbufs_upd_neq by exact Hne. reflexivity.
    - rewrite fbufs_upd_neq by exact Hbp.
      destruct (Nat.eq_dec b v) as [-> | Hbv];
        [rewrite fbufs_upd_eq | rewrite fbufs_upd_neq by exact Hbv]; reflexivity. }
  assert (Hrc5 : forall b, b <> pb -> ref_cnt (fbufs sc5 b) = ref_cnt (fbufs sc b)).
  { intros b Hbp. unfold sc5, sc4. rewrite fbufs_upd_neq by exact Hbp.
    destruct (Nat.eq_dec b v) as [-> | Hbv];
      [rewrite fbufs_upd_eq | rewrite fbufs_upd_neq by exact Hbv]; reflexivity. }
  assert (Hrcp : ref_cnt (fbufs sc5 pb) = u16 (ref_cnt (fbufs sc pb) - 1)).
  { unfold sc5, sc4. rewrite fbufs_upd_eq, fbufs_upd_neq by exact Hne. reflexivity. }
  assert (Hch : forall p,
             (children sc5 p + (if is_child sc p v then 1 else 0)
              = children sc p + (if is_child sc5 p v then 1 else 0))%nat)
    by (apply children_reparent; [reflexivity | exact Hv | exact Hpar5]).
  assert (Hic5 : forall p, is_child sc5 p v = false)
    by (intros p; unfold is_child; rewrite Hparv; reflexivity).
  assert (Hchp : (children sc5 pb + 1 = children sc pb)%nat).
  { specialize (Hch pb). rewrite Hic5 in Hch. unfold is_child in Hch.
    rewrite Hpar, Nat.eqb_refl in Hch. lia. }
  assert (Hcho : forall p, p <> pb -> children sc5 p = children sc p).
  { intros p Hp. specialize (Hch p). rewrite Hic5 in Hch. unfold is_child in Hch.
    rewrite Hpar in Hch. apply Nat.eqb_neq in Hp. rewrite Nat.eqb_sym, Hp in Hch. lia. }
  destruct (I5 pb Hpb) as (Hocp & Hrp & Hposp).
  pose proof (pin_bit_range pin pb) as Hpinr.
  pose proof (children_le sc pb) as Hcle.
  assert (Hrcp' : ref_cnt (fbufs sc5 pb) = Z.of_nat (children sc5 pb) + pin_bit pin pb).
  { rewrite Hrcp, Hrp, u16_small by lia. lia. }
  repeat (split; [assumption|]). exact Hcho.
Qed.

(** The parent stays on its indirect queue while it has other children or
    is pinned. *)
Lemma detach_keep_inv (sc : softc) (pin : option nat) (v pb : nat) :
  cache_inv sc pin None -> In v (cir_queue sc) ->
  parent (fbufs sc v) = Some pb ->
  let sc5 := upd_fbuf (upd_fbuf sc v (fun x => set_parent x None)) pb
               (fun x => set_ref_cnt x (u16 (ref_cnt x - 1))) in
  ref_cnt (fbufs sc5 pb) <> 0 -> cache_inv sc5 pin (Some v).
Proof.
  intros Hinv Hvq Hpar. cbv zeta.
  destruct (detach_facts sc pin v pb Hinv Hvq Hpar)
    as (Hne & Hpb & Hv & Hpar5 & Hparv & Hma5 & Hoc5 & Hrc5 & Hrcp' & Hcho).
  cbv zeta in *.
  set (sc5 := upd_fbuf (upd_fbuf sc v (fun x => set_parent x None)) pb
                (fun x => set_ref_cnt x (u16 (ref_cnt x - 1)))) in *.
  destruct Hinv as [I1 I2 I3 I4 I5 I6 I7 I8 I9 I10 I11 I12].
  destruct (I5 pb Hpb) as (Hocp & Hrp & Hposp).
  pose proof (pin_bit_range pin pb) as Hpinr.
  intros Hnz. constructor.
  - exact I1.
  - exact I2.
  - exact I3.
  - intros b Hb. rewrite Hoc5, Hrc5; [apply (I4 b Hb)|].
    intros ->. exact (NoDup_app_disjoint _ _ _ I1 Hb Hpb).
  - intros b Hb. rewrite Hoc5. destruct (Nat.eq_dec b pb) as [-> | Hbp].
    + split; [exact Hocp|]. split; [exact Hrcp'|]. lia.
    + rewrite Hrc5, Hcho by exact Hbp. apply (I5 b Hb).
  - exact I6.
  - intros b p Hb Hp. destruct (Nat.eq_dec b v) as [-> | Hbv].
    + rewrite Hparv in Hp. discriminate Hp.
    + rewrite Hpar5 in Hp by exact Hbv. apply (I7 b p Hb Hp).
  - exact I8.
  - intros b b' Hb Hb' He Hm. rewrite !Hma5 in *. apply (I9 b b' Hb Hb' He Hm).
  - exact I10.
  - intros b Hb Hm. rewrite Hma5 in *. apply (I11 b Hb Hm).
  - intros b Hb Hex Hm Hd. rewrite Hma5 in *.
    assert (Hbv : b <> v) by (intros ->; apply Hex; reflexivity).
    destruct (I12 b Hb ltac:(discriminate) Hm Hd) as (p & Hp & Hmp & Hmm).
    exists p. rewrite Hpar5, Hma5 by exact Hbv. repeat split; assumption.
Qed.

Lemma indirect_queues_remove (sc : softc) (pb : nat) :
  indirect_queues (indir_remove sc pb) = remove Nat.eq_dec pb (indirect_queues sc).
Proof. unfold indirect_queues, indir_remove. sc_cbn. rewrite remove_app. reflexivity. Qed.

Lemma fbuf_cir_queue_insert_ok (sc : softc) (b : nat) :
  cir_queue sc <> [] ->
  fbuf_cir_queue_insert sc b
  = Ok (upd_fbuf (set_cir_queue sc (cir_queue sc ++ [b])) b
          (fun x => set_on_cir_queue x true)).
Proof.
  intros H. unfold fbuf_cir_queue_insert.
  destruct (cir_queue sc); [contradiction | reflexivity].
Qed.

(** The parent goes back to the circular queue when its last child has
    left. *)
Lemma detach_demote_inv (sc : softc) (pin : option nat) (v pb : nat) :
  cache_inv sc pin None -> In v (cir_queue sc) ->
  parent (fbufs sc v) = Some pb ->
  let sc5 := upd_fbuf (upd_fbuf sc v (fun x => set_parent x None)) pb
               (fun x => set_ref_cnt x (u16 (ref_cnt x - 1))) in
  ref_cnt (fbufs sc5 pb) = 0 ->
  exists sc7,
    fbuf_cir_queue_insert (indir_remove sc5 pb) pb = Ok sc7 /\
    cache_inv (upd_fbuf sc7 pb (fun x => set_accessed x false)) pin (Some v) /\
    cir_queue sc7 = cir_queue sc ++ [pb] /\
    fbuf_bucket sc7 = fbuf_bucket sc /\ fbuf_count sc7 = fbuf_count sc /\
    (forall b, ma (fbufs (upd_fbuf sc7 pb (fun x => set_accessed x false)) b)
               = ma (fbufs sc b)) /\
    parent (fbufs (upd_fbuf sc7 pb (fun x => set_accessed x false)) v) = None.
Proof.
  intros Hinv Hvq Hpar. cbv zeta.
  destruct (detach_facts sc pin v pb Hinv Hvq Hpar)
    as (Hne & Hpb & Hv & Hpar5 & Hparv & Hma5 & Hoc5 & Hrc5 & Hrcp' & Hcho).
  cbv zeta in *.
  set (sc5 := upd_fbuf (upd_fbuf sc v (fun x => set_parent x None)) pb
                (fun x => set_ref_cnt x (u16 (ref_cnt x - 1)))) in *.
  destruct Hinv as [I1 I2 I3 I4 I5 I6 I7 I8 I9 I10 I11 I12].
  pose proof (pin_bit_range pin pb) as Hpinr.
  intros Hz.
  assert (Hc0 : children sc5 pb = 0%nat) by lia.
  assert (Hp0 : pin_bit pin pb = 0) by lia.
  rewrite fbuf_cir_queue_insert_ok
    by (change (cir_queue (indir_remove sc5 pb)) with (cir_queue sc);
        intros E; rewrite E in Hvq; destruct Hvq).
  eexists. split; [reflexivity|].
  set (F := upd_fbuf (upd_fbuf (set_cir_queue (indir_remove sc5 pb) (cir_queue sc ++ [pb]))
                        pb (fun x => set_on_cir_queue x true))
              pb (fun x => set_accessed x false)).
  assert (HFq : cir_queue F = cir_queue sc ++ [pb]) by reflexivity.
  assert (HFi : indirect_queues F = remove Nat.eq_dec pb (indirect_queues sc))
    by exact (indirect_queues_remove sc5 pb).
  assert (HFn : pool_size F = pool_size sc) by reflexivity.
  assert (HFo : forall b, b <> pb -> fbufs F b = fbufs sc5 b).
  { intros b Hb. unfold F. rewrite !fbufs_upd_neq by exact Hb. reflexivity. }
  assert (HFp : fbufs F pb
                = set_accessed (set_on_cir_queue (fbufs sc5 pb) true) false).
  { unfold F. rewrite !fbufs_upd_eq. reflexivity. }
  assert (HFpar : forall b, parent (fbufs F b) = parent (fbufs sc5 b)).
  { intros b. destruct (Nat.eq_dec b pb) as [-> | Hb];
      [rewrite HFp | rewrite HFo by exact Hb]; reflexivity. }
  assert (HFma : forall b, ma (fbufs F b) = ma (fbufs sc b)).
  { intros b. rewrite <- Hma5. destruct (Nat.eq_dec b pb) as [-> | Hb];
      [rewrite HFp | rewrite HFo by exact Hb]; reflexivity. }
  assert (HFch : forall p, children F p = children sc5 p)
    by (intros p; apply children_ext; [reflexivity | exact HFpar]).
  assert (Hnd_i : NoDup (indirect_queues sc)).
  { clear - I1. induction (cir_queue sc) as [|a l IH]; [exact I1|].
    cbn [app] in I1. inversion I1; subst. apply IH. assumption. }
  assert (Hperm : Permutation (cir_queue sc ++ indirect_queues sc)
                    ((cir_queue sc ++ [pb]) ++ remove Nat.eq_dec pb (indirect_queues sc))).
  { rewrite <- app_assoc. apply Permutation_app_head. cbn [app].
    apply Permutation_remove; assumption. }
  split; [|split; [exact HFq|]; split; [reflexivity|]; split; [reflexivity|];
           split; [exact HFma | change (parent (fbufs F v) = None);
                                rewrite HFpar; exact Hparv]].
  change (cache_inv F pin (Some v)).
  constructor; rewrite ?HFq, ?HFi, ?HFn.
  - eapply Permutation_NoDup; eassumption.
  - intros b. rewrite <- I2. split; apply Permutation_in;
      [apply Permutation_sym|]; exact Hperm.
  - exact I3.
  - intros b Hb. apply in_app_or in Hb. destruct Hb as [Hb | [<- | []]].
    + assert (Hbp : b <> pb)
        by (intros ->; exact (NoDup_app_disjoint _ _ _ I1 Hb Hpb)).
      rewrite HFo by exact Hbp. rewrite Hoc5, Hrc5 by exact Hbp. apply (I4 b Hb).
    + rewrite HFp. cbn [on_cir_queue ref_cnt set_accessed set_on_cir_queue].
      split; [reflexivity | exact Hz].
  - intros b Hb. apply in_remove in Hb. destruct Hb as [Hb Hbp].
    rewrite HFo by exact Hbp. rewrite Hoc5, Hrc5, HFch, Hcho by exact Hbp.
    apply (I5 b Hb).
  - intros d Hd0 Hd1. change (indirect_head F d) with (remove Nat.eq_dec pb (indirect_head sc d)).
    rewrite (I6 d Hd0 Hd1). reflexivity.
  - intros b p Hb Hp. rewrite HFpar in Hp.
    assert (Hpne : p <> pb).
    { intros ->. exact (children_zero sc5 pb b Hc0 Hb Hp). }
    apply in_in_remove; [exact Hpne|].
    destruct (Nat.eq_dec b v) as [-> | Hbv].
    + rewrite Hparv in Hp. discriminate Hp.
    + rewrite Hpar5 in Hp by exact Hbv. apply (I7 b p Hb Hp).
  - intros p Hp. apply in_in_remove; [|apply (I8 p Hp)].
    intros ->. unfold pin_bit in Hp0. rewrite Hp, Nat.eqb_refl in Hp0. discriminate Hp0.
  - intros b b' Hb Hb' He Hm. rewrite !HFma in *. apply (I9 b b' Hb Hb' He Hm).
  - exact I10.
  - intros b Hb Hm. rewrite HFma in *. apply (I11 b Hb Hm).
  - intros b Hb Hex Hm Hd. rewrite HFma in *.
    assert (Hbv : b <> v) by (intros ->; apply Hex; reflexivity).
    destruct (I12 b Hb ltac:(discriminate) Hm Hd) as (p & Hp & Hmp & Hmm).
    exists p. rewrite HFpar, Hpar5, HFma by exact Hbv. repeat split; assumption.
Qed.

(** [fbuf_alloc] keeps the queues in order.  The buffer it hands out is on
    the circular queue and has no parent any more; no address, hash chain
    or pool size changes. *)
Lemma fbuf_alloc_inv (SS : Z) (fuel : nat) (sc sc' : softc) (pin : option nat) (v : nat) :
  cache_inv sc pin None -> fbuf_alloc SS fuel sc = Ok (v, sc') ->
  cache_inv sc' pin (Some v) /\ In v (cir_queue sc') /\
  parent (fbufs sc' v) = None /\
  (forall b, ma (fbufs sc' b) = ma (fbufs sc b)) /\
  fbuf_bucket sc' = fbuf_bucket sc /\ fbuf_count sc' = fbuf_count sc.
Proof.
  intros Hinv. unfold fbuf_alloc.
  destruct (cir_queue sc) as [|h t] eqn:Hq; [intros H; discriminate H|].
  rewrite <- Hq. cbv zeta.
  pose proof (fbuf_alloc_walk_shape (cir_queue sc) sc 0) as Hw. cbv zeta in Hw.
  set (w := fbuf_alloc_walk sc (cir_queue sc) 0) in *.
  destruct Hw as [Hs1 Hsel].
  set (buf := match snd w with Some x => fst x | None => h end).
  set (k := match snd w with Some x => snd x | None => 0%nat end).
  assert (Hbuf : In buf (cir_queue sc)).
  { unfold buf. destruct (snd w) as [[b k']|].
    - destruct Hsel as [_ Hn]. cbn [fst]. apply nth_error_In in Hn. exact Hn.
    - rewrite Hq. left. reflexivity. }
  set (sc2 := set_cir_queue (fst w) _).
  assert (Hq1 : cir_queue (fst w) = cir_queue sc) by (apply Hs1).
  assert (Hinv2 : cache_inv sc2 pin None).
  { apply cache_inv_cir_perm.
    - rewrite Hq1. apply Permutation_sym, Permutation_rotate.
    - apply (cache_inv_shape sc); assumption. }
  assert (Hbuf2 : In buf (cir_queue sc2)).
  { change (In buf (skipn (S k) (cir_queue sc) ++ firstn (S k) (cir_queue sc))).
    apply (Permutation_in _ (Permutation_sym (Permutation_rotate (S k) (cir_queue sc)))).
    exact Hbuf. }
  assert (Hs2 : (forall b, ma (fbufs sc2 b) = ma (fbufs sc b)) /\
                fbuf_bucket sc2 = fbuf_bucket sc /\ fbuf_count sc2 = fbuf_count sc).
  { destruct Hs1 as (A1 & A2 & A3 & A4 & A5). split; [|split].
    - intros b. apply A5.
    - exact A4.
    - exact A1. }
  destruct Hs2 as (Hma2 & Hbk2 & Hcnt2).
  intros H. apply bind_Ok in H. destruct H as (sc3 & Hfl & H).
  assert (Hs3 : same_shape sc2 sc3).
  { destruct (modified (fbufs sc2 buf)).
    - eapply same_shape_fbuf_flush. exact Hfl.
    - inversion Hfl; subst. apply same_shape_refl. }
  assert (Hinv3 : cache_inv sc3 pin None) by (apply (cache_inv_shape sc2); assumption).
  destruct Hs3 as (B1 & B2 & B3 & B4 & B5).
  assert (Hbuf3 : In buf (cir_queue sc3)) by (rewrite B2; exact Hbuf2).
  assert (Hma3 : forall b, ma (fbufs sc3 b) = ma (fbufs sc b))
    by (intros b; destruct (B5 b) as (_ & _ & _ & E); rewrite E; apply Hma2).
  destruct (parent (fbufs sc3 buf)) as [pb|] eqn:Hpar.
  - destruct (detach_facts sc3 pin buf pb Hinv3 Hbuf3 Hpar)
      as (Hne & Hpb & Hv & Hpar5 & Hparv & Hma5 & Hoc5 & Hrc5 & Hrcp' & Hcho).
    cbv zeta in *.
    destruct (ref_cnt (fbufs (upd_fbuf (upd_fbuf sc3 buf (fun x => set_parent x None)) pb
                                (fun x => set_ref_cnt x (u16 (ref_cnt x - 1)))) pb) =? 0)
      eqn:Hz.
    + apply Z.eqb_eq in Hz.
      destruct (detach_demote_inv sc3 pin buf pb Hinv3 Hbuf3 Hpar Hz)
        as (sc7 & Hins & Hinv7 & Hq7 & Hbk7 & Hcnt7 & Hma7 & Hpar7).
      rewrite Hins in H. cbn [bind] in H. inversion H; subst v sc'.
      split; [exact Hinv7|]. split.
      { change (In buf (cir_queue sc7)). rewrite Hq7. apply in_or_app. left. exact Hbuf3. }
      split; [exact Hpar7|]. split; [intros b; rewrite Hma7; apply Hma3|].
      split; [change (fbuf_bucket sc7 = fbuf_bucket sc); congruence|].
      change (fbuf_count sc7 = fbuf_count sc). congruence.
    + apply Z.eqb_neq in Hz. inversion H; subst v sc'.
      split; [apply (detach_keep_inv sc3 pin buf pb Hinv3 Hbuf3 Hpar Hz)|].
      split; [exact Hbuf3|]. split; [exact Hparv|].
      split; [intros b; rewrite Hma5; apply Hma3|].
      split; [change (fbuf_bucket sc3 = fbuf_bucket sc); congruence|].
      change (fbuf_count sc3 = fbuf_count sc). congruence.
  - inversion H; subst v sc'.
    split; [apply cache_inv_weaken_ex; exact Hinv3|].
    split; [exact Hbuf3|]. split; [exact Hpar|]. split; [exact Hma3|].
    split; congruence.
Qed.

(** [fbuf_search] changes the two counters only; a hit is a buffer of the
    chain with the address looked for, a miss means the chain has none. *)
Lemma fbuf_search_spec (sc : softc) (m : Z) :
  same_shape sc (snd (fbuf_search sc m)) /\
  match fst (fbuf_search sc m) with
  | Some b => In b (fbuf_bucket sc (bucket_of m)) /\ ma (fbufs sc b) = m /\
              find (fun x => ma (fbufs sc x) =? m) (fbuf_bucket sc (bucket_of m)) = Some b
  | None => forall b, In b (fbuf_bucket sc (bucket_of m)) -> ma (fbufs sc b) <> m
  end.
Proof.
  unfold fbuf_search.
  destruct (find _ _) as [b|] eqn:Hf; cbn [fst snd].
  - split; [repeat split|]. pose proof (find_some _ _ Hf) as [Hin He].
    apply Z.eqb_eq in He. repeat split; assumption.
  - split; [repeat split|]. intros b Hin He.
    pose proof (find_none _ _ Hf b Hin) as Hn. cbv beta in Hn.
    apply Z.eqb_neq in Hn. contradiction.
Qed.

(** [fbuf_read_and_hash] gives the buffer it takes the address asked for,
    at the head of its hash chain, and keeps the cache in order, when no
    buffer holds this address yet. *)
Lemma fbuf_read_and_hash_inv (SS : Z) (fuel : nat) (sc sc' : softc) (pin : option nat)
  (sa m : Z) (v : nat) :
  cache_inv sc pin None -> IS_META_ADDR m = true ->
  (forall b, (b < pool_size sc)%nat -> ma (fbufs sc b) <> m) ->
  fbuf_read_and_hash SS fuel sc sa m = Ok (v, sc') ->
  cache_inv sc' pin (Some v) /\ In v (cir_queue sc') /\
  parent (fbufs sc' v) = None /\ ma (fbufs sc' v) = m /\
  (forall b, b <> v -> ma (fbufs sc' b) = ma (fbufs sc b)) /\
  fbuf_count sc' = fbuf_count sc /\
  (exists tl, fbuf_bucket sc' (bucket_of m) = v :: tl).
Proof.
  intros Hinv Hmeta Hmiss. unfold fbuf_read_and_hash. intros H.
  apply bind_Ok in H. destruct H as ([v1 sc1] & Ha & H). cbn [fst snd] in H.
  inversion H; subst v1. clear H.
  destruct (fbuf_alloc_inv SS fuel sc sc1 pin v Hinv Ha)
    as (Hinv1 & Hvq & Hpar & Hma1 & Hbk1 & Hcnt1).
  match goal with
  | |- context [fbuf_hash_insert ?s3 v m] => set (sc3 := s3) in *
  end.
  set (F := fbuf_hash_insert sc3 v m) in *.
  assert (Hn : pool_size F = pool_size sc1) by reflexivity.
  assert (Hn1 : pool_size sc1 = pool_size sc) by (unfold pool_size; rewrite Hcnt1; reflexivity).
  assert (HFv : fbufs F v = set_ma (set_data (fbufs sc1 v)
                  (if sa =? SECTOR_NULL then repeat 0 (Z.to_nat (fbuf_data_len SS))
                   else dev_read (dev sc1) sa)) m).
  { unfold F, sc3, fbuf_hash_insert, fbuf_hash_remove. sc_cbn.
    rewrite Nat.eqb_refl. reflexivity. }
  assert (HFo : forall b, b <> v -> fbufs F b = fbufs sc1 b).
  { intros b Hb. unfold F, sc3, fbuf_hash_insert, fbuf_hash_remove. sc_cbn.
    apply Nat.eqb_neq in Hb. rewrite Hb. reflexivity. }
  assert (HFbk : forall h, fbuf_bucket F h
                   = if h =? bucket_of m then v :: remove Nat.eq_dec v (fbuf_bucket sc1 h)
                     else remove Nat.eq_dec v (fbuf_bucket sc1 h)) by reflexivity.
  assert (HFpar : forall b, parent (fbufs F b) = parent (fbufs sc1 b)).
  { intros b. destruct (Nat.eq_dec b v) as [-> | Hb];
      [rewrite HFv | rewrite HFo by exact Hb]; reflexivity. }
  assert (HFrc : forall b, ref_cnt (fbufs F b) = ref_cnt (fbufs sc1 b)).
  { intros b. destruct (Nat.eq_dec b v) as [-> | Hb];
      [rewrite HFv | rewrite HFo by exact Hb]; reflexivity. }
  assert (HFoc : forall b, on_cir_queue (fbufs F b) = on_cir_queue (fbufs sc1 b)).
  { intros b. destruct (Nat.eq_dec b v) as [-> | Hb];
      [rewrite HFv | rewrite HFo by exact Hb]; reflexivity. }
  assert (HFmav : ma (fbufs F v) = m) by (rewrite HFv; reflexivity).
  assert (HFmao : forall b, b <> v -> ma (fbufs F b) = ma (fbufs sc b)).
  { intros b Hb. rewrite HFo by exact Hb. apply Hma1. }
  assert (HFch : forall p, children F p = children sc1 p)
    by (intros p; apply children_ext; [reflexivity | exact HFpar]).
  pose proof Hinv1 as [I1 I2 I3 I4 I5 I6 I7 I8 I9 I10 I11 I12].
  assert (Hv : (v < pool_size sc1)%nat) by (apply I2, in_or_app; left; exact Hvq).
  split; [|split; [exact Hvq|]; split; [rewrite HFpar; exact Hpar|];
           split; [exact HFmav|]; split; [exact HFmao|]; split; [exact Hcnt1|];
           rewrite HFbk, Z.eqb_refl; eexists; reflexivity].
  constructor; rewrite ?Hn.
  - exact I1.
  - exact I2.
  - exact I3.
  - intros b Hb. rewrite HFoc, HFrc. apply (I4 b Hb).
  - intros b Hb. rewrite HFoc, HFrc, HFch. apply (I5 b Hb).
  - exact I6.
  - intros b p Hb Hp. rewrite HFpar in Hp. apply (I7 b p Hb Hp).
  - exact I8.
  - intros b b' Hb Hb' He Hm.
    destruct (Nat.eq_dec b v) as [-> | Hbv]; destruct (Nat.eq_dec b' v) as [-> | Hbv'];
      try reflexivity.
    + rewrite HFmav in He. rewrite HFmao in He by exact Hbv'.
      exfalso. apply (Hmiss b'); [lia | symmetry; exact He].
    + rewrite HFmav in He. rewrite HFmao in He by exact Hbv.
      exfalso. apply (Hmiss b); [lia | exact He].
    + rewrite !HFo in * by assumption. apply (I9 b b' Hb Hb' He Hm).
  - intros h b Hin. rewrite HFbk in Hin.
    assert (Hr : In b (remove Nat.eq_dec v (fbuf_bucket sc1 h)) -> (b < pool_size sc1)%nat)
      by (intros Hx; apply in_remove in Hx; destruct Hx as [Hx _]; apply (I10 h b Hx)).
    destruct (h =? bucket_of m); [destruct Hin as [<- | Hin]|]; auto.
  - intros b Hb Hm. rewrite HFbk.
    destruct (Nat.eq_dec b v) as [-> | Hbv].
    + rewrite HFmav, Z.eqb_refl. apply in_eq.
    + rewrite HFo in * by exact Hbv.
      assert (Hin : In b (remove Nat.eq_dec v (fbuf_bucket sc1 (bucket_of (ma (fbufs sc1 b))))))
        by (apply in_in_remove; [exact Hbv | apply (I11 b Hb Hm)]).
      destruct (bucket_of (ma (fbufs sc1 b)) =? bucket_of m); [apply in_cons|]; exact Hin.
  - intros b Hb Hex Hm Hd.
    assert (Hbv : b <> v) by (intros ->; apply Hex; reflexivity).
    rewrite HFo in * by exact Hbv.
    destruct (I12 b Hb Hex Hm Hd) as (p & Hp & Hmp & Hmm).
    assert (Hpv : p <> v).
    { intros ->. apply (NoDup_app_disjoint _ _ _ I1 Hvq). apply (I7 b v Hb Hp). }
    exists p. rewrite HFo by exact Hpv. repeat split; assumption.
Qed.

(* ================================================================= *)
(** ** The addresses along the path of [fbuf_get] *)

Lemma is_meta_bits (x : Z) :
  IS_META_ADDR x = true <-> Z.testbit x 30 = true /\ Z.testbit x 31 = true.
Proof.
  unfold IS_META_ADDR. rewrite Z.eqb_eq. split.
  - intros H. split.
    + assert (E : Z.testbit (Z.land x META_BASE) 30 = Z.testbit META_BASE 30)
        by (rewrite H; reflexivity).
      rewrite Z.land_spec in E. change (Z.testbit META_BASE 30) with true in E.
      rewrite andb_true_r in E. exact E.
    + assert (E : Z.testbit (Z.land x META_BASE) 31 = Z.testbit META_BASE 31)
        by (rewrite H; reflexivity).
      rewrite Z.land_spec in E. change (Z.testbit META_BASE 31) with true in E.
      rewrite andb_true_r in E. exact E.
  - intros [H30 H31]. by_bits. bit_cases.
    assert (Hc : n = 30 \/ n = 31) by lia.
    destruct Hc as [-> | ->]; assumption.
Qed.

Lemma u32_fix (x : Z) : 0 <= x < 2 ^ 32 <-> u32 x = x.
Proof.
  split; [apply u32_small|]. intros H. rewrite <- H. apply u32_range.
Qed.

(** Bits of a buffer address with its depth field set. *)
Lemma ma_set_depth_bits (t i n : Z) :
  0 <= n ->
  Z.testbit (ma_set_depth t i) n
  = if (20 <=? n) && (n <? 22) then Z.testbit i (n - 20)
    else (n <? 32) && Z.testbit t n.
Proof.
  intros Hn. unfold ma_set_depth. masks. bit_rw. bit_cases.
Qed.

Lemma ma_set_depth_depth (t i : Z) : 0 <= i < 4 -> ma_depth (ma_set_depth t i) = i.
Proof.
  intros Hi. unfold ma_depth. apply Z.bits_inj'. intros n Hn.
  masks. bit_rw. rewrite ma_set_depth_bits by lia. bit_cases.
  all: try (replace (n + 20 - 20) with n by lia; reflexivity).
  all: rewrite (small_bits i 2 n) by lia; reflexivity.
Qed.

Lemma ma_set_depth_meta (t i : Z) :
  IS_META_ADDR t = true -> IS_META_ADDR (ma_set_depth t i) = true.
Proof.
  rewrite !is_meta_bits. intros [H30 H31].
  rewrite !ma_set_depth_bits by lia. split; bit_cases; assumption.
Qed.

Lemma ma_set_depth_range (t i : Z) : 0 <= ma_set_depth t i < 2 ^ 32.
Proof.
  apply u32_fix. apply Z.bits_inj'. intros n Hn.
  rewrite u32_bits, ma_set_depth_bits by lia. bit_cases.
Qed.

Lemma testbit_1 (k : Z) : Z.testbit 1 k = (k =? 0).
Proof.
  change 1 with (2 ^ 0). destruct (Z.leb_spec 0 k).
  - rewrite Z.pow2_bits_eqb by lia. apply Z.eqb_sym.
  - rewrite Z.testbit_neg_r by lia. symmetry. apply Z.eqb_neq. lia.
Qed.

Lemma testbit_2 (k : Z) : Z.testbit 2 k = (k =? 1).
Proof.
  change 2 with (2 ^ 1). destruct (Z.leb_spec 0 k).
  - rewrite Z.pow2_bits_eqb by lia. apply Z.eqb_sym.
  - rewrite Z.testbit_neg_r by lia. symmetry. apply Z.eqb_neq. lia.
Qed.

Ltac eqb_cases :=
  repeat match goal with
    | |- context [?a =? ?b] => destruct (Z.eqb_spec a b)
    end;
  cbn [andb orb negb];
  rewrite ?andb_true_r, ?andb_false_r, ?orb_false_r, ?orb_true_r;
  try reflexivity; try lia.



(** A small store used as an example: a zeroed softc with a superblock of
    2751 blocks, its cache set up by [file_mod_init]: two buffers. *)
Lemma example_cache_inv :
  cache_inv (file_mod_init 4096
               (set_sb (softc_zero 4096 (blank_device 0))
                  (mkSuperblock SIG_LOGSTOR 0 1 0 2751 4 3 1 1 [0; 0; 0])))
    None None.
Proof.
  pose proof (file_mod_init_facts 4096
                (set_sb (softc_zero 4096 (blank_device 0))
                   (mkSuperblock SIG_LOGSTOR 0 1 0 2751 4 3 1 1 [0; 0; 0]))) as H.
  cbv zeta in H. apply H. vm_compute. split; [discriminate | reflexivity].
Qed.

(** X: [fbuf_alloc] keeps the cache consistent.  From a consistent cache
    (with [pin] the buffer [fbuf_get] holds a reference on), the buffer it
    returns is on the circular queue and has no parent; no buffer changes
    its address, the hash chains and the size of the pool are unchanged; and
    the cache is consistent again, the returned buffer alone being exempt
    from having its parent cached. *)
Theorem fbuf_alloc_keeps_cache (SS : Z) (fuel : nat) (sc sc' : softc)
  (pin : option nat) (v : nat) :
  cache_inv sc pin None -> fbuf_alloc SS fuel sc = Ok (v, sc') ->
  cache_inv sc' pin (Some v) /\ In v (cir_queue sc') /\
  parent (fbufs sc' v) = None /\
  (forall b, ma (fbufs sc' b) = ma (fbufs sc b)) /\
  fbuf_bucket sc' = fbuf_bucket sc /\ fbuf_count sc' = fbuf_count sc.
Proof. exact (fbuf_alloc_inv SS fuel sc sc' pin v). Qed.

Lemma fbuf_alloc_keeps_cache_witness :
  match fbuf_alloc 4096 0
          (file_mod_init 4096
             (set_sb (softc_zero 4096 (blank_device 0))
                (mkSuperblock SIG_LOGSTOR 0 1 0 2751 4 3 1 1 [0; 0; 0]))) with
  | Ok (v, sc') => cache_inv sc' None (Some v) /\ In v (cir_queue sc')
  | _ => False
  end.
Proof.
  destruct (fbuf_alloc 4096 0 _) as [[v sc']| |] eqn:E;
    [| vm_compute in E; discriminate E ..].
  pose proof (fbuf_alloc_keeps_cache 4096 0 _ sc' None v example_cache_inv E) as H.
  split; apply H.
Defined.

(* ================================================================= *)
(** ** Pinning, attaching and promoting buffers in [fbuf_get] *)

Lemma filter_false_length {A : Type} (l : list A) :
  length (filter (fun _ => false) l) = 0%nat.
Proof. induction l as [|x l IH]; [reflexivity | exact IH]. Qed.

(** A buffer nobody names as its parent has no children. *)
Lemma children_none (sc : softc) (p : nat) :
  (forall b, (b < pool_size sc)%nat -> parent (fbufs sc b) <> Some p) ->
  children sc p = 0%nat.
Proof.
  intros H. unfold children.
  rewrite (filter_seq_same (is_child sc p) (fun _ => false)).
  - apply filter_false_length.
  - intros b Hb. unfold is_child. specialize (H b Hb).
    destruct (parent (fbufs sc b)) as [x|]; [|reflexivity].
    apply Nat.eqb_neq. intros ->. apply H. reflexivity.
Qed.

(** The invariant carried over to a state with the same queues, hash chains
    and addresses, whose counts and links are given buffer by buffer. *)
Lemma cache_inv_transfer (sc sc' : softc) (pin ex pin' ex' : option nat) :
  cache_inv sc pin ex ->
  fbuf_count sc' = fbuf_count sc -> cir_queue sc' = cir_queue sc ->
  indirect_head sc' = indirect_head sc -> fbuf_bucket sc' = fbuf_bucket sc ->
  (forall b, on_cir_queue (fbufs sc' b) = on_cir_queue (fbufs sc b)) ->
  (forall b, ma (fbufs sc' b) = ma (fbufs sc b)) ->
  (forall b, In b (cir_queue sc) -> ref_cnt (fbufs sc' b) = ref_cnt (fbufs sc b)) ->
  (forall b, In b (indirect_queues sc) ->
     ref_cnt (fbufs sc' b) = Z.of_nat (children sc' b) + pin_bit pin' b /\
     0 < ref_cnt (fbufs sc' b)) ->
  (forall b p, (b < pool_size sc)%nat -> parent (fbufs sc' b) = Some p ->
     In p (indirect_queues sc)) ->
  (forall p, pin' = Some p -> In p (indirect_queues sc)) ->
  (forall b, (b < pool_size sc)%nat -> ex' <> Some b ->
     IS_META_ADDR (ma (fbufs sc b)) = true -> ma_depth (ma (fbufs sc b)) <> 0 ->
     exists p, parent (fbufs sc' b) = Some p /\
               ma (fbufs sc p) = up_ma (ma (fbufs sc b)) /\
               IS_META_ADDR (ma (fbufs sc p)) = true) ->
  cache_inv sc' pin' ex'.
Proof.
  intros [I1 I2 I3 I4 I5 I6 I7 I8 I9 I10 I11 I12] Hc Hq Hi Hb Hoc Hma Hrc Hri Hpar Hpin Hst.
  assert (Hps : pool_size sc' = pool_size sc) by (unfold pool_size; rewrite Hc; reflexivity).
  assert (Hiq : indirect_queues sc' = indirect_queues sc)
    by (unfold indirect_queues; rewrite Hi; reflexivity).
  constructor; rewrite ?Hq, ?Hiq, ?Hps, ?Hb.
  - exact I1.
  - exact I2.
  - exact I3.
  - intros b Hin. rewrite Hoc, Hrc by exact Hin. apply (I4 b Hin).
  - intros b Hin. rewrite Hoc. split; [apply (I5 b Hin)|]. apply (Hri b Hin).
  - intros d H0 H1. rewrite Hi. apply (I6 d H0 H1).
  - exact Hpar.
  - exact Hpin.
  - intros b b' H1 H2. rewrite !Hma. apply (I9 b b' H1 H2).
  - exact I10.
  - intros b H1. rewrite !Hma. apply (I11 b H1).
  - intros b H1 H2. rewrite !Hma. intros H3 H4.
    destruct (Hst b H1 H2 H3 H4) as (p & Hp1 & Hp2 & Hp3).
    exists p. rewrite !Hma. repeat split; assumption.
Qed.

(** A hit below a pinned parent: the reference taken ahead is given back. *)
Lemma hit_unpin (sc : softc) (pb b : nat) :
  cache_inv sc (Some pb) None -> (b < pool_size sc)%nat ->
  parent (fbufs sc b) = Some pb ->
  cache_inv (upd_fbuf sc pb (fun x => set_ref_cnt x (u16 (ref_cnt x - 1)))) None None.
Proof.
  intros Hinv Hb Hpar.
  pose proof Hinv as [I1 I2 I3 I4 I5 I6 I7 I8 I9 I10 I11 I12].
  set (sc' := upd_fbuf sc pb (fun x => set_ref_cnt x (u16 (ref_cnt x - 1)))).
  assert (Hp' : forall x, parent (fbufs sc' x) = parent (fbufs sc x)).
  { intros x. unfold sc'. destruct (Nat.eq_dec x pb) as [-> | Hx];
      [rewrite fbufs_upd_eq | rewrite fbufs_upd_neq by exact Hx]; reflexivity. }
  assert (Hch : forall p, children sc' p = children sc p)
    by (intros p; apply children_ext; [reflexivity | exact Hp']).
  assert (Hpb : In pb (indirect_queues sc)) by (apply I8; reflexivity).
  apply (cache_inv_transfer sc sc' (Some pb) None None None Hinv); try reflexivity.
  - intros x. unfold sc'. destruct (Nat.eq_dec x pb) as [-> | Hx];
      [rewrite fbufs_upd_eq | rewrite fbufs_upd_neq by exact Hx]; reflexivity.
  - intros x. unfold sc'. destruct (Nat.eq_dec x pb) as [-> | Hx];
      [rewrite fbufs_upd_eq | rewrite fbufs_upd_neq by exact Hx]; reflexivity.
  - intros x Hx. unfold sc'. rewrite fbufs_upd_neq; [reflexivity|].
    intros ->. exact (NoDup_app_disjoint _ _ _ I1 Hx Hpb).
  - intros x Hx. rewrite Hch. destruct (I5 x Hx) as (_ & Hr & Hpos).
    unfold sc'. destruct (Nat.eq_dec x pb) as [-> | Hne].
    + rewrite fbufs_upd_eq. cbn [ref_cnt set_ref_cnt].
      pose proof (children_pos sc pb b Hb Hpar) as Hcp.
      pose proof (children_le sc pb) as Hcl.
      unfold pin_bit in Hr. rewrite Nat.eqb_refl in Hr.
      rewrite Hr, u16_small by lia. cbn [pin_bit]. lia.
    + rewrite fbufs_upd_neq by exact Hne. unfold pin_bit in Hr.
      assert (E : Nat.eqb pb x = false) by (apply Nat.eqb_neq; congruence).
      rewrite E in Hr. cbn [pin_bit]. split; [exact Hr | exact Hpos].
  - intros x p Hx. rewrite Hp'. apply (I7 x p Hx).
  - intros p Hp. discriminate Hp.
  - intros x Hx _ Hm Hd. destruct (I12 x Hx ltac:(discriminate) Hm Hd) as (p & H1 & H2 & H3).
    exists p. rewrite Hp'. repeat split; assumption.
Qed.

(** A buffer on an indirect queue takes the reference of the walk. *)
Lemma pin_indirect (sc : softc) (buf : nat) :
  cache_inv sc None None -> In buf (indirect_queues sc) ->
  cache_inv (upd_fbuf sc buf (fun x => set_ref_cnt x (u16 (ref_cnt x + 1))))
    (Some buf) None.
Proof.
  intros Hinv Hbuf.
  pose proof Hinv as [I1 I2 I3 I4 I5 I6 I7 I8 I9 I10 I11 I12].
  set (sc' := upd_fbuf sc buf (fun x => set_ref_cnt x (u16 (ref_cnt x + 1)))).
  assert (Hp' : forall x, parent (fbufs sc' x) = parent (fbufs sc x)).
  { intros x. unfold sc'. destruct (Nat.eq_dec x buf) as [-> | Hx];
      [rewrite fbufs_upd_eq | rewrite fbufs_upd_neq by exact Hx]; reflexivity. }
  assert (Hch : forall p, children sc' p = children sc p)
    by (intros p; apply children_ext; [reflexivity | exact Hp']).
  apply (cache_inv_transfer sc sc' None None (Some buf) None Hinv); try reflexivity.
  - intros x. unfold sc'. destruct (Nat.eq_dec x buf) as [-> | Hx];
      [rewrite fbufs_upd_eq | rewrite fbufs_upd_neq by exact Hx]; reflexivity.
  - intros x. unfold sc'. destruct (Nat.eq_dec x buf) as [-> | Hx];
      [rewrite fbufs_upd_eq | rewrite fbufs_upd_neq by exact Hx]; reflexivity.
  - intros x Hx. unfold sc'. rewrite fbufs_upd_neq; [reflexivity|].
    intros ->. exact (NoDup_app_disjoint _ _ _ I1 Hx Hbuf).
  - intros x Hx. rewrite Hch. destruct (I5 x Hx) as (_ & Hr & Hpos).
    cbn [pin_bit] in Hr. rewrite Z.add_0_r in Hr.
    unfold sc'. destruct (Nat.eq_dec x buf) as [-> | Hne].
    + rewrite fbufs_upd_eq. cbn [ref_cnt set_ref_cnt].
      pose proof (children_le sc buf) as Hcl.
      unfold pin_bit. rewrite Nat.eqb_refl.
      rewrite Hr, u16_small by lia. lia.
    + rewrite fbufs_upd_neq by exact Hne. unfold pin_bit.
      assert (E : Nat.eqb buf x = false) by (apply Nat.eqb_neq; congruence).
      rewrite E. split; [lia | exact Hpos].
  - intros x p Hx. rewrite Hp'. apply (I7 x p Hx).
  - intros p Hp. injection Hp as <-. exact Hbuf.
  - intros x Hx _ Hm Hd. destruct (I12 x Hx ltac:(discriminate) Hm Hd) as (p & H1 & H2 & H3).
    exists p. rewrite Hp'. repeat split; assumption.
Qed.

(** The buffer just read is linked to the parent the walk came through. *)
Lemma attach_child (sc : softc) (pbuf : option nat) (v : nat) :
  cache_inv sc pbuf (Some v) -> In v (cir_queue sc) ->
  parent (fbufs sc v) = None ->
  (IS_META_ADDR (ma (fbufs sc v)) = true -> ma_depth (ma (fbufs sc v)) <> 0 ->
   exists p, pbuf = Some p /\ ma (fbufs sc p) = up_ma (ma (fbufs sc v)) /\
             IS_META_ADDR (ma (fbufs sc p)) = true) ->
  cache_inv (upd_fbuf sc v (fun x => set_parent x pbuf)) None None.
Proof.
  intros Hinv Hvq Hpv Hst.
  pose proof Hinv as [I1 I2 I3 I4 I5 I6 I7 I8 I9 I10 I11 I12].
  set (sc' := upd_fbuf sc v (fun x => set_parent x pbuf)).
  assert (Hv : (v < pool_size sc)%nat) by (apply I2, in_or_app; left; exact Hvq).
  assert (Hpo : forall x, x <> v -> parent (fbufs sc' x) = parent (fbufs sc x))
    by (intros x Hx; unfold sc'; rewrite fbufs_upd_neq by exact Hx; reflexivity).
  assert (Hpv' : parent (fbufs sc' v) = pbuf)
    by (unfold sc'; rewrite fbufs_upd_eq; reflexivity).
  assert (Hch : forall p, Z.of_nat (children sc' p) = Z.of_nat (children sc p) + pin_bit pbuf p).
  { intros p.
    pose proof (children_reparent sc sc' v eq_refl Hv Hpo p) as H.
    unfold is_child in H. rewrite Hpv, Hpv' in H. unfold pin_bit.
    destruct pbuf as [pb|]; [destruct (Nat.eqb pb p)|]; lia. }
  apply (cache_inv_transfer sc sc' pbuf (Some v) None None Hinv); try reflexivity.
  - intros x. unfold sc'. destruct (Nat.eq_dec x v) as [-> | Hx];
      [rewrite fbufs_upd_eq | rewrite fbufs_upd_neq by exact Hx]; reflexivity.
  - intros x. unfold sc'. destruct (Nat.eq_dec x v) as [-> | Hx];
      [rewrite fbufs_upd_eq | rewrite fbufs_upd_neq by exact Hx]; reflexivity.
  - intros x _. unfold sc'. destruct (Nat.eq_dec x v) as [-> | Hx];
      [rewrite fbufs_upd_eq | rewrite fbufs_upd_neq by exact Hx]; reflexivity.
  - intros x Hx. destruct (I5 x Hx) as (_ & Hr & Hpos).
    assert (Hxv : x <> v) by (intros ->; exact (NoDup_app_disjoint _ _ _ I1 Hvq Hx)).
    unfold sc'. rewrite fbufs_upd_neq by exact Hxv. fold sc'.
    rewrite Hch. cbn [pin_bit]. split; [lia | exact Hpos].
  - intros x p Hx Hp. destruct (Nat.eq_dec x v) as [-> | Hxv].
    + rewrite Hpv' in Hp. apply I8. exact Hp.
    + rewrite Hpo in Hp by exact Hxv. apply (I7 x p Hx Hp).
  - intros p Hp. discriminate Hp.
  - intros x Hx _ Hm Hd. destruct (Nat.eq_dec x v) as [-> | Hxv].
    + destruct (Hst Hm Hd) as (p & H1 & H2 & H3). exists p. rewrite Hpv'.
      repeat split; assumption.
    + destruct (I12 x Hx ltac:(congruence) Hm Hd) as (p & H1 & H2 & H3).
      exists p. rewrite Hpo by exact Hxv. repeat split; assumption.
Qed.

Lemma NoDup_app_l {A : Type} (l1 l2 : list A) : NoDup (l1 ++ l2) -> NoDup l1.
Proof.
  induction l1 as [|x l1 IH]; intros H; [constructor|].
  cbn [app] in H. inversion H as [|? ? Hx Hnd]; subst. constructor.
  - intros Hin. apply Hx. apply in_or_app. left. exact Hin.
  - apply IH. exact Hnd.
Qed.

(** A buffer that leaves the circular queue for an indirect queue, with the
    reference of the walk on it. *)
Lemma promote_pin (sc s : softc) (buf : nat) (i : Z) :
  cache_inv sc None None -> In buf (cir_queue sc) -> i = 0 \/ i = 1 ->
  fbuf_cir_queue_remove sc buf = Ok s ->
  cache_inv
    (upd_fbuf
       (upd_fbuf (indir_insert_head s i buf) buf (fun x => set_ref_cnt x 0))
       buf (fun x => set_ref_cnt x (u16 (ref_cnt x + 1))))
    (Some buf) None.
Proof.
  intros Hinv Hbuf Hi Hrm.
  pose proof Hinv as [I1 I2 I3 I4 I5 I6 I7 I8 I9 I10 I11 I12].
  unfold fbuf_cir_queue_remove in Hrm.
  destruct (in_dec Nat.eq_dec buf (cir_queue sc)) as [_|Hn]; [|contradiction].
  destruct (2 <=? length (cir_queue sc))%nat; [|discriminate Hrm].
  injection Hrm as <-.
  match goal with |- cache_inv ?X _ _ => set (F := X) end.
  assert (Hcq : cir_queue F = remove Nat.eq_dec buf (cir_queue sc)) by reflexivity.
  assert (Hih : indirect_head F
                = fun d => if d =? i then buf :: indirect_head sc d else indirect_head sc d)
    by reflexivity.
  assert (Hps : pool_size F = pool_size sc) by reflexivity.
  assert (Hbk : fbuf_bucket F = fbuf_bucket sc) by reflexivity.
  assert (Hfo : forall x, x <> buf -> fbufs F x = fbufs sc x).
  { intros x Hx. unfold F. rewrite !fbufs_upd_neq by exact Hx.
    unfold indir_insert_head. sc_cbn. apply Nat.eqb_neq in Hx. rewrite Hx. reflexivity. }
  assert (Hfb : fbufs F buf
                = set_ref_cnt (set_ref_cnt (set_on_cir_queue (fbufs sc buf) false) 0)
                    (u16 (0 + 1))).
  { unfold F. rewrite !fbufs_upd_eq. unfold indir_insert_head. sc_cbn.
    rewrite Nat.eqb_refl. reflexivity. }
  assert (Hpar : forall x, parent (fbufs F x) = parent (fbufs sc x)).
  { intros x. destruct (Nat.eq_dec x buf) as [-> | Hx];
      [rewrite Hfb | rewrite Hfo by exact Hx]; reflexivity. }
  assert (Hma : forall x, ma (fbufs F x) = ma (fbufs sc x)).
  { intros x. destruct (Nat.eq_dec x buf) as [-> | Hx];
      [rewrite Hfb | rewrite Hfo by exact Hx]; reflexivity. }
  assert (Hch : forall p, children F p = children sc p)
    by (intros p; apply children_ext; [exact Hps | exact Hpar]).
  assert (Hndc : NoDup (cir_queue sc)) by (apply (NoDup_app_l _ _ I1)).
  assert (Hiq : indirect_queues F = (if i =? 0 then [buf] else []) ++ indirect_head sc 0
                                     ++ (if i =? 1 then [buf] else []) ++ indirect_head sc 1).
  { unfold indirect_queues. rewrite Hih.
    destruct Hi as [-> | ->]; reflexivity. }
  assert (Hperm : Permutation (cir_queue F ++ indirect_queues F)
                    (cir_queue sc ++ indirect_queues sc)).
  { rewrite Hcq, Hiq. unfold indirect_queues.
    transitivity ((buf :: remove Nat.eq_dec buf (cir_queue sc))
                  ++ indirect_head sc 0 ++ indirect_head sc 1).
    - destruct Hi as [-> | ->].
      + change (0 =? 0) with true. change (0 =? 1) with false. cbv iota. cbn [app].
        symmetry. apply Permutation_middle.
      + change (1 =? 0) with false. change (1 =? 1) with true. cbv iota. cbn [app].
        symmetry. rewrite !app_assoc.
        apply (Permutation_middle (remove Nat.eq_dec buf (cir_queue sc) ++ indirect_head sc 0)).
    - apply Permutation_app_tail. symmetry. apply Permutation_remove; assumption. }
  assert (Hinq : forall x, In x (indirect_queues F) <-> x = buf \/ In x (indirect_queues sc)).
  { intros x. rewrite Hiq. unfold indirect_queues.
    destruct Hi as [-> | ->];
      [change (0 =? 0) with true; change (0 =? 1) with false
      |change (1 =? 0) with false; change (1 =? 1) with true];
      cbv iota; cbn [app]; rewrite ?in_app_iff; cbn [In];
      rewrite ?in_app_iff; cbn [In]; intuition congruence. }
  assert (Hinc : forall x, In x (cir_queue F) <-> In x (cir_queue sc) /\ x <> buf).
  { intros x. rewrite Hcq. split.
    - apply in_remove.
    - intros [H1 H2]. apply in_in_remove; assumption. }
  assert (Hnoq : ~ In buf (indirect_queues sc))
    by (intros H; exact (NoDup_app_disjoint _ _ _ I1 Hbuf H)).
  assert (Hc0 : children sc buf = 0%nat).
  { apply children_none. intros x Hx Hp. apply Hnoq. apply (I7 x buf Hx Hp). }
  constructor; rewrite ?Hps, ?Hbk.
  - apply (Permutation_NoDup (Permutation_sym Hperm)). exact I1.
  - intros x. rewrite <- I2. split; apply Permutation_in;
      [exact Hperm | exact (Permutation_sym Hperm)].
  - exact I3.
  - intros x Hx. apply Hinc in Hx. destruct Hx as [Hx Hne].
    rewrite Hfo by exact Hne. apply (I4 x Hx).
  - intros x Hx. apply Hinq in Hx. rewrite Hch.
    destruct (Nat.eq_dec x buf) as [-> | Hne].
    + rewrite Hfb, Hc0. cbn [on_cir_queue ref_cnt set_ref_cnt set_on_cir_queue pin_bit].
      rewrite Nat.eqb_refl. rewrite u16_small by lia. repeat split; lia.
    + destruct Hx as [-> | Hx]; [contradiction Hne; reflexivity|].
      rewrite Hfo by exact Hne. destruct (I5 x Hx) as (H1 & H2 & H3).
      cbn [pin_bit] in *. assert (E : Nat.eqb buf x = false)
        by (apply Nat.eqb_neq; congruence).
      rewrite E. repeat split; [exact H1 | lia | exact H3].
  - intros d H0 H1. rewrite Hih.
    assert (E : (d =? i) = false) by (apply Z.eqb_neq; lia).
    rewrite E. apply (I6 d H0 H1).
  - intros x p Hx Hp. rewrite Hpar in Hp. apply Hinq. right. apply (I7 x p Hx Hp).
  - intros p Hp. injection Hp as <-. apply Hinq. left. reflexivity.
  - intros x x' Hx Hx'. rewrite !Hma. apply (I9 x x' Hx Hx').
  - exact I10.
  - intros x Hx. rewrite !Hma. apply (I11 x Hx).
  - intros x Hx _. rewrite !Hma. intros Hm Hd.
    destruct (I12 x Hx ltac:(discriminate) Hm Hd) as (p & H1 & H2 & H3).
    exists p. rewrite Hpar, !Hma. repeat split; assumption.
Qed.

(* ================================================================= *)
(** ** The addresses on the way from the root to a block *)

(** The bits of [anc m i]. *)
Lemma anc_bits (m i n : Z) :
  0 <= n -> i = 0 \/ i = 1 \/ i = 2 ->
  Z.testbit (anc m i) n
  = if n <? 10 then (2 <=? i) && Z.testbit m n
    else if n <? 20 then (1 <=? i) && Z.testbit m n
    else if n <? 22 then Z.testbit i (n - 20)
    else if n <? 24 then Z.testbit m n
    else (30 <=? n) && (n <? 32).
Proof.
  intros Hn Hi. unfold anc. rewrite ma_set_depth_bits by exact Hn.
  rewrite Z.lor_spec. unfold ma_set_fd, ma_fd.
  change 0xFFC00 with (Z.ldiff (Z.ones 20) (Z.ones 10)).
  destruct Hi as [-> | [-> | ->]].
  - change (0 =? 0) with true. cbv iota. rewrite Z.bits_0.
    masks. bit_rw. bit_cases.
    all: rewrite ?Z.bits_0, ?Z.shiftr_spec by lia; cbn [orb]; rewrite ?orb_false_r.
    all: try (replace (n - 22 + 22) with n by lia); try reflexivity.
  - change (1 =? 0) with false. change (1 =? 1) with true. cbv iota.
    masks. bit_rw. bit_cases.
    all: rewrite ?Z.bits_0, ?Z.shiftr_spec by lia; cbn [orb]; rewrite ?orb_false_r.
    all: try (replace (n - 22 + 22) with n by lia); try reflexivity.
  - change (2 =? 0) with false. change (2 =? 1) with false. cbv iota.
    masks. bit_rw. bit_cases.
    all: rewrite ?Z.bits_0, ?Z.shiftr_spec by lia; cbn [orb]; rewrite ?orb_false_r.
    all: try (replace (n - 22 + 22) with n by lia); try reflexivity.
Qed.

Lemma anc_meta (m i : Z) : i = 0 \/ i = 1 \/ i = 2 -> IS_META_ADDR (anc m i) = true.
Proof.
  intros Hi. apply is_meta_bits. rewrite !anc_bits by (try lia; exact Hi).
  split; reflexivity.
Qed.

Lemma anc_depth (m i : Z) : i = 0 \/ i = 1 \/ i = 2 -> ma_depth (anc m i) = i.
Proof. intros Hi. unfold anc. apply ma_set_depth_depth. lia. Qed.

Lemma anc_root (m : Z) : ma_set_depth (ma_set_fd META_BASE (ma_fd m)) 0 = anc m 0.
Proof. unfold anc. change (0 =? 0) with true. cbv iota. rewrite Z.lor_0_r. reflexivity. Qed.

(** One level down: the index of [m] at the level is entered into the
    address, and the depth set. *)
Lemma anc_step (m i idx : Z) :
  i = 0 \/ i = 1 -> ma_index_get m i = Some idx ->
  exists t', ma_index_set (anc m i) i idx = Some t' /\
             ma_set_depth t' (i + 1) = anc m (i + 1).
Proof.
  intros Hi Hg. destruct Hi as [-> | ->].
  - injection Hg as <-. eexists. split; [reflexivity|].
    apply Z.bits_inj'. intros n Hn.
    rewrite ma_set_depth_bits, anc_bits by (try lia; auto).
    masks. bit_rw. rewrite !anc_bits by (try lia; auto).
    change (0 + 1) with 1. bit_cases.
    all: rewrite ?Z.shiftr_spec by lia.
    all: try (replace (n - 10 + 10) with n by lia); try reflexivity.
  - injection Hg as <-. eexists. split; [reflexivity|].
    apply Z.bits_inj'. intros n Hn.
    rewrite ma_set_depth_bits, anc_bits by (try lia; auto).
    masks. bit_rw. rewrite !anc_bits by (try lia; auto).
    change (1 + 1) with 2. bit_cases.
Qed.

(** One level up. *)
Lemma anc_up (m i : Z) : i = 0 \/ i = 1 -> up_ma (anc m (i + 1)) = anc m i.
Proof.
  intros Hi. unfold up_ma. rewrite anc_depth by lia.
  apply Z.bits_inj'. intros n Hn. destruct Hi as [-> | ->].
  - change (0 + 1 =? 1) with true. cbv iota. change (0 + 1) with 1.
    change 0xFFC00000 with (Z.ldiff (Z.ones 32) (Z.ones 22)).
    bit_rw. rewrite !anc_bits by (try lia; auto). rewrite ?Z.bits_0. bit_cases.
    all: rewrite Z.testbit_neg_r by lia; reflexivity.
  - change (1 + 1 =? 1) with false. cbv iota. change (1 + 1) with 2.
    change 0xFFCFFC00
      with (Z.lor (Z.ldiff (Z.ones 20) (Z.ones 10)) (Z.ldiff (Z.ones 32) (Z.ones 22))).
    change 0x100000 with (2 ^ 20).
    rewrite Z.lor_spec, Z.land_spec, Z.pow2_bits_eqb by lia.
    bit_rw. rewrite !anc_bits by (try lia; auto). rewrite ?testbit_1, ?testbit_2.
    bit_cases; eqb_cases.
Qed.

(** The leaf addresses [file_access] builds are canonical. *)
Lemma file_access_ma_canonical (fd offset : Z) :
  0 <= offset < 2 ^ 32 -> canonical_ma (file_access_ma fd offset).
Proof.
  intros Ho. unfold canonical_ma.
  assert (Hq : 0 <= Z.shiftr offset 12 < 2 ^ 20).
  { rewrite Z.shiftr_div_pow2 by lia. split.
    - apply Z.div_pos; lia.
    - apply Z.div_lt_upper_bound; lia. }
  assert (Hd : ma_depth (file_access_ma fd offset) = 2).
  { unfold file_access_ma, ma_depth. apply Z.bits_inj'. intros n Hn.
    unfold ma_set_fd. masks. bit_rw. rewrite ma_set_depth_bits by lia.
    unfold META_LEAF_DEPTH. bit_cases.
    all: try (replace (n + 20 - 20) with n by lia; reflexivity).
    all: rewrite Z.bits_above_log2; [reflexivity | lia | cbn; lia]. }
  rewrite Hd. apply Z.bits_inj'. intros n Hn.
  rewrite anc_bits by (try lia; auto).
  unfold file_access_ma. rewrite leaf_ma_as_lor by exact Hq.
  unfold ma_set_fd. masks. bit_rw. rewrite !ma_set_depth_bits by lia.
  unfold META_LEAF_DEPTH. bit_rw. bit_cases.
  all: rewrite ?(small_bits _ 20 n Hq) by lia; try reflexivity.
  all: symmetry; apply (small_bits offset 32); lia.
Qed.

(* ================================================================= *)
(** ** [fbuf_get] keeps the cache consistent *)

(** One level of the walk: the block is found in the cache, or read into a
    buffer taken from the circular queue. *)
Lemma fbuf_get_level (SS : Z) (fuel : nat) (sc sc2 : softc) (T sa : Z)
  (pbuf : option nat) (buf : nat) :
  cache_inv sc pbuf None -> IS_META_ADDR T = true ->
  match pbuf with
  | None => ma_depth T = 0
  | Some pb => ma (fbufs sc pb) = up_ma T /\
               IS_META_ADDR (ma (fbufs sc pb)) = true /\ ma_depth T <> 0
  end ->
  match fst (fbuf_search sc T) with
  | None =>
      do r <- fbuf_read_and_hash SS fuel (snd (fbuf_search sc T)) sa T;
      Ok (fst r, upd_fbuf (snd r) (fst r) (fun x => set_parent x pbuf))
  | Some b =>
      Ok (b, match pbuf with
             | Some pb =>
                 upd_fbuf (snd (fbuf_search sc T)) pb
                   (fun x => set_ref_cnt x (u16 (ref_cnt x - 1)))
             | None => snd (fbuf_search sc T)
             end)
  end = Ok (buf, sc2) ->
  cache_inv sc2 None None /\ (buf < pool_size sc2)%nat /\
  ma (fbufs sc2 buf) = T /\ fbuf_count sc2 = fbuf_count sc.
Proof.
  intros Hinv HT Hp H.
  destruct (fbuf_search_spec sc T) as [Hsh Hres].
  set (sc1 := snd (fbuf_search sc T)) in *.
  pose proof (cache_inv_shape sc sc1 pbuf None Hsh Hinv) as Hinv1.
  destruct Hsh as (Hc & Hq & Hih & Hbk & Hfb).
  assert (Hps : pool_size sc1 = pool_size sc) by (unfold pool_size; rewrite Hc; reflexivity).
  assert (Hma1 : forall x, ma (fbufs sc1 x) = ma (fbufs sc x)) by (intros x; apply Hfb).
  destruct (fst (fbuf_search sc T)) as [b0|].
  - destruct Hres as (Hin & Hmb & _). injection H as <- <-.
    assert (Hb0 : (b0 < pool_size sc1)%nat).
    { rewrite Hps. apply (ci_bucket_in sc pbuf None Hinv _ _ Hin). }
    destruct pbuf as [pb|].
    + destruct Hp as (Hmp & Hmeta & Hd).
      assert (Hpar : parent (fbufs sc1 b0) = Some pb).
      { destruct (ci_struct sc1 (Some pb) None Hinv1 b0 Hb0 ltac:(discriminate))
          as (p & Hpp & Hpm & Hpi).
        - rewrite Hma1, Hmb. exact HT.
        - rewrite Hma1, Hmb. exact Hd.
        - assert (Hpq : In p (indirect_queues sc1))
            by (apply (ci_parent sc1 (Some pb) None Hinv1 b0 p Hb0 Hpp)).
          assert (Hpbq : In pb (indirect_queues sc1))
            by (apply (ci_pin sc1 (Some pb) None Hinv1 pb eq_refl)).
          assert (E : p = pb).
          { apply (ci_uniq sc1 (Some pb) None Hinv1 p pb).
            - apply (ci_cover sc1 (Some pb) None Hinv1), in_or_app. right. exact Hpq.
            - apply (ci_cover sc1 (Some pb) None Hinv1), in_or_app. right. exact Hpbq.
            - rewrite Hpm, !Hma1, Hmb, Hmp. reflexivity.
            - exact Hpi. }
          rewrite <- E. exact Hpp. }
      split; [apply (hit_unpin sc1 pb b0 Hinv1 Hb0 Hpar)|].
      split; [exact Hb0|]. split; [|exact Hc].
      destruct (Nat.eq_dec b0 pb) as [-> | Hne];
        [rewrite fbufs_upd_eq | rewrite fbufs_upd_neq by exact Hne];
        cbn [ma set_ref_cnt]; rewrite Hma1; exact Hmb.
    + split; [exact Hinv1|]. split; [exact Hb0|]. split; [|exact Hc].
      rewrite Hma1. exact Hmb.
  - destruct (fbuf_read_and_hash SS fuel sc1 sa T) as [[v s']| |] eqn:E;
      cbn [bind fst snd] in H; try discriminate H.
    injection H as <- <-.
    assert (Hno : forall b, (b < pool_size sc1)%nat -> ma (fbufs sc1 b) <> T).
    { intros b Hb He. apply (Hres b); [|rewrite <- Hma1; exact He].
      rewrite Hps in Hb.
      pose proof (ci_bucket sc pbuf None Hinv b Hb) as Hbb.
      rewrite <- Hma1, He in Hbb. apply Hbb. exact HT. }
    destruct (fbuf_read_and_hash_inv SS fuel sc1 s' pbuf sa T v Hinv1 HT Hno E)
      as (Hinv' & Hvq & Hpv & Hmv & Hmo & Hc' & _).
    assert (Hv : (v < pool_size s')%nat)
      by (apply (ci_cover s' pbuf (Some v) Hinv'), in_or_app; left; exact Hvq).
    split; [|split; [exact Hv | split; [|rewrite <- Hc; exact Hc']]].
    + apply (attach_child s' pbuf v Hinv' Hvq Hpv).
      rewrite Hmv. intros _ Hd. destruct pbuf as [pb|]; [|contradiction].
      destruct Hp as (Hmp & Hmeta & _). exists pb.
      assert (Hne : pb <> v).
      { intros ->.
        exact (NoDup_app_disjoint _ _ _ (ci_nodup s' _ _ Hinv') Hvq
                 (ci_pin s' _ _ Hinv' v eq_refl)). }
      rewrite (Hmo pb Hne), Hma1. repeat split; assumption.
    + rewrite fbufs_upd_eq. cbn [ma set_parent]. exact Hmv.
Qed.

(** Before the walk goes one level down, the buffer is moved to the
    indirect queue of its level if it was on the circular queue, and takes
    a reference. *)
Lemma fbuf_get_descend (sc2 sc3 : softc) (buf : nat) (i : Z) :
  cache_inv sc2 None None -> (buf < pool_size sc2)%nat -> i = 0 \/ i = 1 ->
  (if on_cir_queue (fbufs sc2 buf) then
     if META_LEAF_DEPTH <=? i then Fault
     else
       do s <- fbuf_cir_queue_remove sc2 buf;
       Ok (upd_fbuf (indir_insert_head s i buf) buf (fun x => set_ref_cnt x 0))
   else Ok sc2) = Ok sc3 ->
  let sc4 := upd_fbuf sc3 buf (fun x => set_ref_cnt x (u16 (ref_cnt x + 1))) in
  cache_inv sc4 (Some buf) None /\
  (forall x, ma (fbufs sc4 x) = ma (fbufs sc2 x)) /\
  fbuf_count sc4 = fbuf_count sc2.
Proof.
  intros Hinv Hb Hi H. cbv zeta.
  assert (Hwhere : In buf (cir_queue sc2) \/ In buf (indirect_queues sc2)).
  { apply in_app_or. apply (ci_cover sc2 None None Hinv). exact Hb. }
  destruct (on_cir_queue (fbufs sc2 buf)) eqn:Eon.
  - assert (Hcq : In buf (cir_queue sc2)).
    { destruct Hwhere as [Hw | Hw]; [exact Hw|].
      destruct (ci_ind sc2 None None Hinv buf Hw) as (Hf & _). congruence. }
    assert (El : (META_LEAF_DEPTH <=? i) = false)
      by (apply Z.leb_gt; unfold META_LEAF_DEPTH; lia).
    rewrite El in H.
    destruct (fbuf_cir_queue_remove sc2 buf) as [s| |] eqn:Er;
      cbn [bind] in H; try discriminate H.
    injection H as <-.
    split; [apply (promote_pin sc2 s buf i Hinv Hcq Hi Er)|].
    unfold fbuf_cir_queue_remove in Er.
    destruct (in_dec Nat.eq_dec buf (cir_queue sc2)); [|discriminate Er].
    destruct (2 <=? length (cir_queue sc2))%nat; [|discriminate Er].
    injection Er as <-. split; [|reflexivity].
    intros x. destruct (Nat.eq_dec x buf) as [-> | Hx].
    + rewrite !fbufs_upd_eq. unfold indir_insert_head. sc_cbn.
      rewrite Nat.eqb_refl. reflexivity.
    + rewrite !fbufs_upd_neq by exact Hx. unfold indir_insert_head. sc_cbn.
      apply Nat.eqb_neq in Hx. rewrite Hx. reflexivity.
  - injection H as <-.
    assert (Hiq : In buf (indirect_queues sc2)).
    { destruct Hwhere as [Hw | Hw]; [|exact Hw].
      destruct (ci_cir sc2 None None Hinv buf Hw) as (Hf & _). congruence. }
    split; [apply (pin_indirect sc2 buf Hinv Hiq)|]. split; [|reflexivity].
    intros x. destruct (Nat.eq_dec x buf) as [-> | Hx];
      [rewrite fbufs_upd_eq | rewrite fbufs_upd_neq by exact Hx]; reflexivity.
Qed.

Lemma fbuf_get_loop_S (SS : Z) (n fuel : nat) (sc : softc) (m i tma sa : Z)
  (pbuf : option nat) :
  fbuf_get_loop SS (S n) fuel sc m i tma sa pbuf
  = let tma := ma_set_depth tma i in
    let sr := fbuf_search sc tma in
    do r <- match fst sr with
            | None =>
                do r <- fbuf_read_and_hash SS fuel (snd sr) sa tma;
                Ok (fst r, upd_fbuf (snd r) (fst r) (fun x => set_parent x pbuf))
            | Some b =>
                Ok (b, match pbuf with
                       | Some pb =>
                           upd_fbuf (snd sr) pb
                             (fun x => set_ref_cnt x (u16 (ref_cnt x - 1)))
                       | None => snd sr
                       end)
            end;
    let buf := fst r in
    let sc2 := snd r in
    if i =? ma_depth m then Ok (buf, sc2)
    else
      do sc3 <- (if on_cir_queue (fbufs sc2 buf) then
                   if META_LEAF_DEPTH <=? i then Fault
                   else
                     do s <- fbuf_cir_queue_remove sc2 buf;
                     Ok (upd_fbuf (indir_insert_head s i buf) buf
                           (fun x => set_ref_cnt x 0))
                 else Ok sc2);
      let sc4 := upd_fbuf sc3 buf (fun x => set_ref_cnt x (u16 (ref_cnt x + 1))) in
      do index <- of_option (ma_index_get m i);
      do tma' <- of_option (ma_index_set tma i index);
      fbuf_get_loop SS n fuel sc4 m (i + 1) tma'
        (zget (data (fbufs sc4 buf)) index) (Some buf).
Proof. reflexivity. Qed.

(** The walk of [fbuf_get] from the level [i] on. *)
Lemma fbuf_get_loop_inv (SS : Z) (fuel : nat) (m : Z) (n : nat) :
  forall (sc : softc) (i tma sa : Z) (pbuf : option nat) (b : nat) (sc' : softc),
  cache_inv sc pbuf None ->
  i = 0 \/ i = 1 \/ i = 2 ->
  ma_set_depth tma i = anc m i ->
  match pbuf with
  | None => i = 0
  | Some pb => i <> 0 /\ ma (fbufs sc pb) = anc m (i - 1)
  end ->
  fbuf_get_loop SS n fuel sc m i tma sa pbuf = Ok (b, sc') ->
  cache_inv sc' None None /\ (b < pool_size sc')%nat /\
  ma (fbufs sc' b) = anc m (ma_depth m) /\ fbuf_count sc' = fbuf_count sc.
Proof.
  induction n as [|n IH]; intros sc i tma sa pbuf b sc' Hinv Hi HT Hp H;
    [discriminate H|].
  rewrite fbuf_get_loop_S in H. cbv zeta in H. rewrite HT in H.
  match type of H with
  | bind ?X _ = _ => destruct X as [[buf sc2]| |] eqn:EA
  end; cbn [bind fst snd] in H; try discriminate H.
  assert (HA : cache_inv sc2 None None /\ (buf < pool_size sc2)%nat /\
               ma (fbufs sc2 buf) = anc m i /\ fbuf_count sc2 = fbuf_count sc).
  { apply (fbuf_get_level SS fuel sc sc2 (anc m i) sa pbuf buf Hinv).
    - apply anc_meta. exact Hi.
    - rewrite anc_depth by exact Hi. destruct pbuf as [pb|]; [|exact Hp].
      destruct Hp as (Hi0 & Hmp).
      assert (Hi' : i - 1 = 0 \/ i - 1 = 1) by lia.
      pose proof (anc_up m (i - 1) Hi') as Hup.
      replace (i - 1 + 1) with i in Hup by lia.
      rewrite Hup, Hmp. split; [reflexivity|]. split; [|exact Hi0].
      apply anc_meta. lia.
    - exact EA. }
  destruct HA as (Hinv2 & Hb2 & Hm2 & Hc2).
  destruct (i =? ma_depth m) eqn:Hd.
  - apply Z.eqb_eq in Hd. injection H as <- <-. rewrite <- Hd.
    split; [exact Hinv2|]. split; [exact Hb2|]. split; [exact Hm2 | exact Hc2].
  - apply Z.eqb_neq in Hd.
    assert (Hi01 : i = 0 \/ i = 1).
    { destruct Hi as [Hi | [Hi | Hi]]; [left; exact Hi | right; exact Hi |].
      exfalso. subst i.
      match type of H with
      | bind ?X _ = _ => destruct X
      end; cbn [bind] in H; discriminate H. }
    match type of H with
    | bind ?X _ = _ => destruct X as [sc3| |] eqn:EB
    end; cbn [bind] in H; try discriminate H.
    cbv zeta in H.
    destruct (fbuf_get_descend sc2 sc3 buf i Hinv2 Hb2 Hi01 EB) as (Hinv4 & Hm4 & Hc4).
    cbv zeta in Hinv4, Hm4, Hc4.
    destruct (ma_index_get m i) as [idx|] eqn:Eg; cbn [of_option bind] in H;
      [|discriminate H].
    destruct (anc_step m i idx Hi01 Eg) as (t' & Es & Ht').
    rewrite Es in H. cbn [of_option bind] in H.
    apply IH in H.
    + destruct H as (H1 & H2 & H3 & H4).
      split; [exact H1|]. split; [exact H2|]. split; [exact H3|].
      rewrite H4, Hc4. exact Hc2.
    + exact Hinv4.
    + lia.
    + exact Ht'.
    + split; [lia|]. replace (i + 1 - 1) with i by lia. rewrite Hm4. exact Hm2.
Qed.

Lemma fbuf_get_inv (SS : Z) (fuel : nat) (sc sc' : softc) (m : Z) (b : nat) :
  cache_inv sc None None -> fbuf_get SS fuel sc m = Ok (b, sc') ->
  cache_inv sc' None None /\ (b < pool_size sc')%nat /\
  fbuf_count sc' = fbuf_count sc /\
  (canonical_ma m -> ma (fbufs sc' b) = m).
Proof.
  intros Hinv H. unfold fbuf_get in H. cbv zeta in H.
  destruct (fbuf_search_spec sc m) as [Hsh Hres].
  pose proof (cache_inv_shape sc _ None None Hsh Hinv) as Hinv1.
  destruct (fst (fbuf_search sc m)) as [b0|].
  - injection H as <- <-. destruct Hres as (Hin & Hmb & _).
    destruct Hsh as (Hc & _ & _ & _ & Hfb).
    split; [exact Hinv1|]. split; [|split; [exact Hc|]].
    + unfold pool_size. rewrite Hc.
      apply (ci_bucket_in sc None None Hinv _ _ Hin).
    + intros _. destruct (Hfb b0) as (_ & _ & _ & E). rewrite E. exact Hmb.
  - destruct (nth_error _ _) as [sa|]; cbn [of_option bind] in H; [|discriminate H].
    apply (fbuf_get_loop_inv SS fuel m 4 _ 0 _ sa None b sc' Hinv1) in H.
    + destruct H as (H1 & H2 & H3 & H4). destruct Hsh as (Hc & _).
      split; [exact H1|]. split; [exact H2|]. split; [rewrite H4; exact Hc|].
      intros Hcan. rewrite H3. exact Hcan.
    + left. reflexivity.
    + apply anc_root.
    + reflexivity.
Qed.




(* ================================================================= *)
(** ** The lengths of blocks *)

Lemma len_inv_same (SS : Z) (sc sc' : softc) :
  len_inv SS sc ->
  (forall b, length (data (fbufs sc' b)) = length (data (fbufs sc b))) ->
  dev sc' = dev sc -> ss_rm (seg_sum_hot sc') = ss_rm (seg_sum_hot sc) ->
  len_inv SS sc'.
Proof.
  intros (H1 & H2 & H3) Hd Hdev Hrm. unfold len_inv. rewrite Hdev, Hrm.
  split; [|split; assumption]. intros b. rewrite Hd. apply H1.
Qed.

Lemma len_inv_upd_fbuf (SS : Z) (sc : softc) (b : nat) (f : fbuf -> fbuf) :
  len_inv SS sc ->
  length (data (f (fbufs sc b))) = length (data (fbufs sc b)) ->
  len_inv SS (upd_fbuf sc b f).
Proof.
  intros H Hf. apply (len_inv_same SS sc); [exact H | | reflexivity | reflexivity].
  intros x. destruct (Nat.eq_dec x b) as [-> | Hx];
    [rewrite fbufs_upd_eq; exact Hf | rewrite fbufs_upd_neq by exact Hx; reflexivity].
Qed.

Lemma len_inv_dev_write (SS : Z) (sc : softc) (sa : Z) (w : list Z) :
  len_inv SS sc -> length w = Z.to_nat (fbuf_data_len SS) ->
  len_inv SS (fst (sc_dev_write sc sa w)).
Proof.
  intros (H1 & H2 & H3) Hw. unfold len_inv, sc_dev_write, dev_write, dev_read in *.
  sc_cbn. cbn [blk]. split; [exact H1|]. split; [|exact H3].
  intros a. destruct (negb (wr_fail (dev sc) sa) && (a =? sa)); [exact Hw | apply H2].
Qed.

Lemma len_seg_sum_write (SS : Z) (sc : softc) :
  len_inv SS sc -> len_inv SS (seg_sum_write SS sc PHot).
Proof.
  intros H. unfold seg_sum_write. cbv zeta.
  set (s1 := set_ss_gen (get_ss sc PHot) (sb_gen (sb sc))).
  assert (H1 : len_inv SS (set_ss sc PHot s1)).
  { apply (len_inv_same SS sc); [exact H | | |]; reflexivity. }
  match goal with
  | |- len_inv _ (set_other_write_count (log (fst (sc_dev_write ?s ?a ?w)) _) _) =>
      pose proof (len_inv_dev_write SS s a w H1) as H2
  end.
  apply (len_inv_same SS _ _ (H2 ltac:(
    unfold words_of_seg_sum; rewrite length_app; cbn [length];
    destruct H as (_ & _ & H3); unfold s1; cbn [ss_rm set_ss_gen get_ss];
    rewrite Nat.add_1_r; exact H3))); reflexivity.
Qed.

Lemma len_seg_alloc_loop (SS : Z) (fuel : nat) :
  forall (sc sc' : softc) (c : Z),
    seg_alloc_loop fuel sc PHot c = Ok sc' -> len_inv SS sc -> len_inv SS sc'.
Proof.
  induction fuel as [|fuel IH]; intros sc sc' c H HL; cbn [seg_alloc_loop] in H.
  - discriminate H.
  - unfold seg_alloc_advance in H. cbv zeta in H.
    set (sc1 := set_sb sc _) in H.
    assert (H1 : len_inv SS sc1) by (apply (len_inv_same SS sc); [exact HL | | |]; reflexivity).
    destruct (u32 (seg_alloc_p (sb sc)) =? c).
    + apply (IH _ _ _ H H1).
    + apply bind_Ok in H. destruct H as (age & _ & H).
      destruct (negb (age =? 0)).
      * apply (IH _ _ _ H H1).
      * inversion H; subst sc'.
        apply (len_inv_same SS sc1); [exact H1 | | |]; reflexivity.
Qed.

Lemma len_fbuf_write (SS : Z) (fuel : nat) (sc sc' : softc) (b : nat) (sa : Z) :
  fbuf_write SS fuel sc b PHot = Ok (sa, sc') -> len_inv SS sc -> len_inv SS sc'.
Proof.
  unfold fbuf_write. cbv zeta. intros H HL.
  destruct (SEG_SUM_OFF SS <=? ss_alloc_p (get_ss sc PHot)); [discriminate H|].
  match type of H with
  | (if ?c then _ else Ok (_, ?s6)) = _ =>
      assert (H6 : len_inv SS s6); [|destruct c]
  end.
  - pose proof (len_inv_dev_write SS sc
                  (u32 (sega2sa (sega (get_ss sc PHot)) + ss_alloc_p (get_ss sc PHot)))
                  (data (fbufs sc b)) HL (proj1 HL b)) as H1.
    destruct H1 as (A1 & A2 & A3).
    unfold len_inv. split; [|split].
    + intros x. sc_cbn. destruct (Nat.eqb x b); cbn [data set_modified]; apply A1.
    + exact A2.
    + sc_cbn. cbn [ss_rm set_ss_alloc_p set_ss_rm]. unfold zset.
      rewrite upd_nth_length. exact A3.
  - apply bind_Ok in H. destruct H as (sc7 & Ha & H). inversion H; subst.
    apply (len_seg_alloc_loop SS _ _ _ _ Ha). apply len_seg_sum_write. exact H6.
  - inversion H; subst. exact H6.
Qed.

Lemma len_fbuf_flush (SS : Z) (fuel : nat) (sc sc' : softc) (b : nat) :
  fbuf_flush SS fuel sc b PHot = Ok sc' -> len_inv SS sc -> len_inv SS sc'.
Proof.
  unfold fbuf_flush. intros H HL. apply bind_Ok in H. destruct H as ([sa sc1] & Hw & H).
  apply len_fbuf_write in Hw; [|exact HL]. cbn [fst snd] in H.
  destruct (parent (fbufs sc1 b)) as [pb|].
  - apply bind_Ok in H. destruct H as (pindex & _ & H).
    match type of H with
    | (if modified (fbufs ?s2 pb) then _ else _) = _ =>
        assert (H2 : len_inv SS s2)
          by (apply len_inv_upd_fbuf; [exact Hw|]; cbn [data set_data]; unfold zset;
              apply upd_nth_length);
        destruct (modified (fbufs s2 pb))
    end.
    + inversion H; subst. exact H2.
    + inversion H; subst.
      apply (len_inv_same SS _ _
               (len_inv_upd_fbuf SS _ pb (fun x => set_modified x true) H2 eq_refl));
        reflexivity.
  - destruct (FD_COUNT <=? ma_fd (ma (fbufs sc1 b))); [discriminate H|].
    inversion H; subst. apply (len_inv_same SS sc1); [exact Hw | | |]; reflexivity.
Qed.

Lemma len_fbuf_alloc_walk (SS : Z) (q : list nat) :
  forall (sc : softc) (k : nat),
    len_inv SS sc -> len_inv SS (fst (fbuf_alloc_walk sc q k)).
Proof.
  induction q as [|b q IH]; intros sc k HL; cbn [fbuf_alloc_walk].
  - exact HL.
  - destruct (negb (accessed (fbufs sc b))); [exact HL|].
    apply IH. apply len_inv_upd_fbuf; [exact HL | reflexivity].
Qed.

Lemma len_fbuf_alloc (SS : Z) (fuel : nat) (sc sc' : softc) (v : nat) :
  fbuf_alloc SS fuel sc = Ok (v, sc') -> len_inv SS sc -> len_inv SS sc'.
Proof.
  unfold fbuf_alloc. intros H HL.
  destruct (cir_queue sc) as [|h t] eqn:Eq; [discriminate H|]. cbv zeta in H.
  pose proof (len_fbuf_alloc_walk SS (h :: t) sc 0 HL) as Hw.
  set (w := fbuf_alloc_walk sc (h :: t) 0) in *.
  set (buf := match snd w with Some x => fst x | None => h end) in *.
  match type of H with
  | bind (if _ then _ else Ok ?s2) _ = _ =>
      assert (H2 : len_inv SS s2)
        by (apply (len_inv_same SS _ _ Hw); reflexivity);
      set (sc2 := s2) in *
  end.
  apply bind_Ok in H. destruct H as (sc3 & H3 & H).
  assert (HL3 : len_inv SS sc3).
  { destruct (modified (fbufs sc2 buf)).
    - apply (len_fbuf_flush SS fuel sc2 sc3 buf H3 H2).
    - inversion H3; subst. exact H2. }
  destruct (parent (fbufs sc3 buf)) as [pb|].
  - match type of H with
    | (if ref_cnt (fbufs ?s5 pb) =? 0 then _ else _) = _ =>
        assert (H5 : len_inv SS s5)
          by (apply len_inv_upd_fbuf; [apply len_inv_upd_fbuf; [exact HL3|]|];
              reflexivity);
        destruct (ref_cnt (fbufs s5 pb) =? 0)
    end.
    + apply bind_Ok in H. destruct H as (sc7 & H7 & H). inversion H; subst.
      apply len_inv_upd_fbuf; [|reflexivity].
      unfold fbuf_cir_queue_insert in H7.
      match type of H7 with
      | match ?q with _ => _ end = _ => destruct q; [discriminate H7|]
      end.
      inversion H7; subst.
      apply len_inv_upd_fbuf; [|reflexivity].
      apply (len_inv_same SS _ _ H5); reflexivity.
    + inversion H; subst. exact H5.
  - inversion H; subst. exact HL3.
Qed.

Lemma len_fbuf_read_and_hash (SS : Z) (fuel : nat) (sc sc' : softc) (sa m : Z) (v : nat) :
  fbuf_read_and_hash SS fuel sc sa m = Ok (v, sc') -> len_inv SS sc -> len_inv SS sc'.
Proof.
  unfold fbuf_read_and_hash. intros H HL.
  apply bind_Ok in H. destruct H as ([buf sc1] & Ha & H). cbn [fst snd] in H.
  apply len_fbuf_alloc in Ha; [|exact HL]. inversion H; subst.
  destruct Ha as (A1 & A2 & A3).
  unfold len_inv. split; [|split; [exact A2 | exact A3]].
  intros x. unfold fbuf_hash_insert, fbuf_hash_remove. sc_cbn.
  destruct (Nat.eqb x v); cbn [data set_ma set_data]; [|apply A1].
  destruct (sa =? SECTOR_NULL); [apply repeat_length | apply A2].
Qed.

Lemma len_fbuf_search (SS : Z) (sc : softc) (m : Z) :
  len_inv SS sc -> len_inv SS (snd (fbuf_search sc m)).
Proof.
  intros HL. unfold fbuf_search.
  destruct (find _ _); apply (len_inv_same SS sc); try exact HL; reflexivity.
Qed.

Lemma len_fbuf_get_loop (SS : Z) (fuel : nat) (m : Z) (n : nat) :
  forall (sc : softc) (i tma sa : Z) (pbuf : option nat) (b : nat) (sc' : softc),
  fbuf_get_loop SS n fuel sc m i tma sa pbuf = Ok (b, sc') ->
  len_inv SS sc -> len_inv SS sc'.
Proof.
  induction n as [|n IH]; intros sc i tma sa pbuf b sc' H HL; [discriminate H|].
  rewrite fbuf_get_loop_S in H. cbv zeta in H.
  pose proof (len_fbuf_search SS sc (ma_set_depth tma i) HL) as HL1.
  set (T := ma_set_depth tma i) in *. set (sc1 := snd (fbuf_search sc T)) in *.
  match type of H with
  | bind ?X _ = _ => destruct X as [[buf sc2]| |] eqn:EA
  end; cbn [bind fst snd] in H; try discriminate H.
  assert (HL2 : len_inv SS sc2).
  { destruct (fst (fbuf_search sc T)) as [b0|].
    - injection EA as <- <-. destruct pbuf as [pb|]; [|exact HL1].
      apply len_inv_upd_fbuf; [exact HL1 | reflexivity].
    - apply bind_Ok in EA. destruct EA as ([v s'] & Er & EA). cbn [fst snd] in EA.
      injection EA as <- <-. apply len_inv_upd_fbuf; [|reflexivity].
      apply (len_fbuf_read_and_hash SS fuel sc1 s' sa T v Er HL1). }
  destruct (i =? ma_depth m).
  - injection H as <- <-. exact HL2.
  - match type of H with
    | bind ?X _ = _ => destruct X as [sc3| |] eqn:EB
    end; cbn [bind] in H; try discriminate H.
    cbv zeta in H.
    assert (HL3 : len_inv SS sc3).
    { destruct (on_cir_queue (fbufs sc2 buf)); [|injection EB as <-; exact HL2].
      destruct (META_LEAF_DEPTH <=? i); [discriminate EB|].
      apply bind_Ok in EB. destruct EB as (s & Er & EB). injection EB as <-.
      apply len_inv_upd_fbuf; [|reflexivity].
      unfold fbuf_cir_queue_remove in Er.
      destruct (in_dec Nat.eq_dec buf (cir_queue sc2)); [|discriminate Er].
      destruct (2 <=? length (cir_queue sc2))%nat; [|discriminate Er].
      injection Er as <-.
      apply (len_inv_same SS (upd_fbuf sc2 buf (fun x => set_on_cir_queue x false)));
        [apply len_inv_upd_fbuf; [exact HL2 | reflexivity] | | |]; reflexivity. }
    apply bind_Ok in H. destruct H as (idx & _ & H).
    apply bind_Ok in H. destruct H as (t' & _ & H).
    apply IH in H; [exact H|]. apply len_inv_upd_fbuf; [exact HL3 | reflexivity].
Qed.

Lemma len_fbuf_get (SS : Z) (fuel : nat) (sc sc' : softc) (m : Z) (b : nat) :
  fbuf_get SS fuel sc m = Ok (b, sc') -> len_inv SS sc -> len_inv SS sc'.
Proof.
  unfold fbuf_get. cbv zeta. intros H HL.
  pose proof (len_fbuf_search SS sc m HL) as HL1.
  destruct (fst (fbuf_search sc m)) as [b0|].
  - injection H as <- <-. exact HL1.
  - apply bind_Ok in H. destruct H as (sa & _ & H).
    apply (len_fbuf_get_loop SS fuel m 4 _ _ _ _ _ _ _ H HL1).
Qed.

(** [file_access]: the buffer of the leaf block, marked as accessed, and as
    modified for a write. *)
Lemma file_access_inv (SS : Z) (fuel : nat) (sc sc' : softc) (fd offset off : Z)
  (w : bool) (b : nat) :
  cache_inv sc None None ->
  file_access SS fuel sc fd offset w = Ok (b, off, sc') ->
  cache_inv sc' None None /\ (b < pool_size sc')%nat /\
  off = file_access_buf_off offset /\
  (0 <= offset < 2 ^ 32 -> ma (fbufs sc' b) = file_access_ma fd offset) /\
  accessed (fbufs sc' b) = true /\ (w = true -> modified (fbufs sc' b) = true) /\
  (len_inv SS sc -> len_inv SS sc').
Proof.
  intros Hinv H. unfold file_access in H. cbv zeta in H.
  apply bind_Ok in H. destruct H as ([b0 s0] & Hg & H). cbn [fst snd] in H.
  pose proof (len_fbuf_get SS fuel sc s0 _ b0 Hg) as HLg.
  destruct (fbuf_get_inv SS fuel sc s0 _ b0 Hinv Hg) as (Hinv0 & Hb0 & Hc0 & Hm0).
  set (s1 := upd_fbuf s0 b0 (fun x => set_accessed x true)) in *.
  assert (Hsh1 : same_shape s0 s1)
    by (apply same_shape_upd_fbuf; intros x; repeat split).
  assert (HL1 : len_inv SS s0 -> len_inv SS s1)
    by (intros HL; apply len_inv_upd_fbuf; [exact HL | reflexivity]).
  assert (Hm1 : ma (fbufs s1 b0) = ma (fbufs s0 b0))
    by (unfold s1; rewrite fbufs_upd_eq; reflexivity).
  assert (Ha1 : accessed (fbufs s1 b0) = true)
    by (unfold s1; rewrite fbufs_upd_eq; reflexivity).
  destruct (negb (modified (fbufs s1 b0)) && w) eqn:Ew.
  - injection H as <- <- <-.
    set (s2 := upd_fbuf s1 b0 (fun x => set_modified x true)).
    assert (Hsh2 : same_shape s1 s2)
      by (apply same_shape_upd_fbuf; intros x; repeat split).
    assert (Hsh3 : same_shape s0 (set_fbuf_modified_count s2 (i32 (fbuf_modified_count s1 + 1)))).
    { apply (same_shape_trans _ _ _ Hsh1). apply (same_shape_trans _ _ _ Hsh2).
      repeat split. }
    split; [apply (cache_inv_shape _ _ _ _ Hsh3 Hinv0)|].
    split; [exact Hb0|]. split; [reflexivity|].
    split; [|split; [|split]].
    + intros Ho. change (ma (fbufs s2 b0) = file_access_ma fd offset).
      unfold s2. rewrite fbufs_upd_eq. cbn [ma set_modified]. rewrite Hm1.
      apply Hm0. apply file_access_ma_canonical. exact Ho.
    + change (accessed (fbufs s2 b0) = true). unfold s2. rewrite fbufs_upd_eq.
      cbn [accessed set_modified]. exact Ha1.
    + intros _. change (modified (fbufs s2 b0) = true). unfold s2.
      rewrite fbufs_upd_eq. reflexivity.
    + intros HL. apply (len_inv_same SS s2); [|reflexivity..].
      apply len_inv_upd_fbuf; [|reflexivity]. apply HL1, HLg, HL.
  - injection H as <- <- <-.
    split; [apply (cache_inv_shape _ _ _ _ Hsh1 Hinv0)|].
    split; [exact Hb0|]. split; [reflexivity|].
    split; [|split; [exact Ha1 | split]].
    + intros Ho. rewrite Hm1. apply Hm0. apply file_access_ma_canonical. exact Ho.
    + intros ->. rewrite andb_true_r in Ew. apply negb_false_iff in Ew. exact Ew.
    + intros HL. apply HL1, HLg, HL.
Qed.

(* ================================================================= *)
(** ** The forward map: an entry written is the entry read *)

(** A block that is in the cache is found by [fbuf_search]. *)
Lemma cache_hit (sc : softc) (m : Z) (b : nat) :
  cache_inv sc None None -> (b < pool_size sc)%nat ->
  ma (fbufs sc b) = m -> IS_META_ADDR m = true ->
  fst (fbuf_search sc m) = Some b.
Proof.
  intros Hinv Hb Hm HM. destruct (fbuf_search_spec sc m) as [_ Hres].
  destruct (fst (fbuf_search sc m)) as [b'|].
  - destruct Hres as (Hin & Hmb & _). f_equal.
    apply (ci_uniq sc None None Hinv b' b).
    + apply (ci_bucket_in sc None None Hinv _ _ Hin).
    + exact Hb.
    + rewrite Hmb, Hm. reflexivity.
    + rewrite Hmb. exact HM.
  - exfalso. apply (Hres b); [|exact Hm].
    pose proof (ci_bucket sc None None Hinv b Hb) as Hbb.
    rewrite Hm in Hbb. apply Hbb. exact HM.
Qed.

Lemma canonical_meta (m : Z) : canonical_ma m -> ma_depth m = 2 -> IS_META_ADDR m = true.
Proof.
  unfold canonical_ma. intros Hc Hd. rewrite <- Hc, Hd. apply anc_meta. auto.
Qed.

Lemma file_access_ma_depth (fd offset : Z) :
  ma_depth (file_access_ma fd offset) = 2.
Proof.
  unfold file_access_ma, ma_depth. apply Z.bits_inj'. intros n Hn.
  unfold ma_set_fd. masks. bit_rw. rewrite ma_set_depth_bits by lia.
  unfold META_LEAF_DEPTH. bit_cases.
  all: try (replace (n + 20 - 20) with n by lia; reflexivity).
  all: rewrite Z.bits_above_log2; [reflexivity | lia | cbn; lia].
Qed.

Lemma file_access_ma_meta (fd offset : Z) :
  0 <= offset < 2 ^ 32 -> IS_META_ADDR (file_access_ma fd offset) = true.
Proof.
  intros Ho. apply canonical_meta.
  - apply file_access_ma_canonical. exact Ho.
  - apply file_access_ma_depth.
Qed.

(** [file_write_4byte]: the entry is in the buffer of its leaf block. *)
Lemma file_write_4byte_inv (SS : Z) (fuel : nat) (sc sc1 : softc) (fd ba sa : Z) :
  static_asserts SS -> cache_inv sc None None -> len_inv SS sc ->
  file_write_4byte SS fuel sc fd ba sa = Ok sc1 ->
  cache_inv sc1 None None /\ len_inv SS sc1 /\
  trace sc1 = EvFwdMap fd ba sa :: skipn 1 (trace sc1) /\
  exists b, (b < pool_size sc1)%nat /\
    ma (fbufs sc1 b) = file_access_ma fd (file_4byte_offset ba) /\
    modified (fbufs sc1 b) = true /\
    zget (data (fbufs sc1 b)) (file_access_buf_off (file_4byte_offset ba) / 4) = sa.
Proof.
  intros HS Hinv HL H. apply static_asserts_sector_size in HS. subst SS.
  unfold file_write_4byte in H.
  apply bind_Ok in H. destruct H as ([[b off] s] & Ha & H). cbn [fst snd] in H.
  destruct (file_access_inv 4096 fuel sc s fd _ off true b Hinv Ha)
    as (Hinv' & Hb & Hoff & Hma & Hacc & Hmod & HL').
  specialize (HL' HL). specialize (Hma (u32_range _)). specialize (Hmod eq_refl).
  injection H as <-.
  set (s2 := upd_fbuf s b (fun x => set_data x (zset (data x) (off / 4) sa))).
  assert (Hsh : same_shape s (log s2 (EvFwdMap fd ba sa))).
  { apply (same_shape_trans _ s2); [|repeat split].
    apply same_shape_upd_fbuf. intros x. repeat split. }
  split; [apply (cache_inv_shape _ _ _ _ Hsh Hinv')|].
  split; [|split; [reflexivity|]].
  - apply (len_inv_same 4096 s2); [|reflexivity..].
    apply len_inv_upd_fbuf; [exact HL'|]. cbn [data set_data]. unfold zset.
    apply upd_nth_length.
  - exists b. split; [exact Hb|].
    change (ma (fbufs s2 b) = file_access_ma fd (file_4byte_offset ba) /\
            modified (fbufs s2 b) = true /\
            zget (data (fbufs s2 b)) (file_access_buf_off (file_4byte_offset ba) / 4) = sa).
    unfold s2. rewrite fbufs_upd_eq. cbn [ma modified data set_data].
    split; [exact Hma|]. split; [exact Hmod|].
    rewrite <- Hoff. unfold zget, zset. apply nth_upd_nth_eq.
    destruct HL' as (HLd & _). rewrite HLd.
    pose proof (land_fff (file_4byte_offset ba)) as Hr.
    fold (file_access_buf_off (file_4byte_offset ba)) in Hr. rewrite <- Hoff in Hr.
    change (Z.to_nat (fbuf_data_len 4096)) with 1024%nat.
    assert (0 <= off / 4 < 1024).
    { split; [apply Z.div_pos; lia | apply Z.div_lt_upper_bound; lia]. }
    lia.
Qed.

Lemma fbuf_search_hit (sc : softc) (m : Z) (b : nat) :
  fst (fbuf_search sc m) = Some b ->
  fbuf_search sc m = (Some b, set_fbuf_hit sc (u32 (fbuf_hit sc + 1))).
Proof.
  unfold fbuf_search. destruct (find _ _); cbn [fst]; intros H; [|discriminate H].
  injection H as <-. reflexivity.
Qed.

(** A read of an entry whose leaf block is in the cache. *)
Lemma file_read_4byte_hit (SS : Z) (fuel : nat) (sc : softc) (fd ba : Z) (b : nat) :
  cache_inv sc None None -> (b < pool_size sc)%nat ->
  ma (fbufs sc b) = file_access_ma fd (file_4byte_offset ba) ->
  exists sc', file_read_4byte SS fuel sc fd ba
              = Ok (zget (data (fbufs sc b))
                      (file_access_buf_off (file_4byte_offset ba) / 4), sc') /\
              same_shape sc sc' /\
              (forall x, data (fbufs sc' x) = data (fbufs sc x)) /\
              (forall x, modified (fbufs sc' x) = modified (fbufs sc x)) /\
              dev sc' = dev sc /\ trace sc' = trace sc /\
              seg_sum_hot sc' = seg_sum_hot sc.
Proof.
  intros Hinv Hb Hma.
  pose proof (cache_hit sc _ b Hinv Hb Hma (file_access_ma_meta fd _ (u32_range _))) as Hh.
  apply fbuf_search_hit in Hh.
  exists (upd_fbuf (set_fbuf_hit sc (u32 (fbuf_hit sc + 1))) b
            (fun x => set_accessed x true)).
  split; [|split; [|split; [|split; [|split; [|split]]]]].
  - unfold file_read_4byte, file_access, fbuf_get. cbv zeta.
    rewrite Hh. cbn [bind fst snd]. rewrite andb_false_r. cbn [bind fst snd].
    rewrite fbufs_upd_eq. reflexivity.
  - apply (same_shape_trans _ (set_fbuf_hit sc (u32 (fbuf_hit sc + 1))));
      [repeat split|].
    apply same_shape_upd_fbuf. intros x. repeat split.
  - intros x. sc_cbn. destruct (Nat.eqb x b); reflexivity.
  - intros x. sc_cbn. destruct (Nat.eqb x b); reflexivity.
  - reflexivity.
  - reflexivity.
  - reflexivity.
Qed.

(** The example store on a device whose sectors are zeroed blocks. *)
Lemma example_z_invs :
  let sc := file_mod_init 4096
              (set_sb (softc_zero 4096 (zero_device 1024 0))
                 (mkSuperblock SIG_LOGSTOR 0 1 0 5000 4 3 1 1 [0; 0; 0])) in
  cache_inv sc None None /\ len_inv 4096 sc.
Proof.
  cbv zeta.
  pose proof (file_mod_init_facts 4096
                (set_sb (softc_zero 4096 (zero_device 1024 0))
                   (mkSuperblock SIG_LOGSTOR 0 1 0 5000 4 3 1 1 [0; 0; 0]))) as H.
  cbv zeta in H.
  destruct H as (_ & _ & _ & Hf & _ & Hinv & _);
    [vm_compute; split; [discriminate | reflexivity]|].
  split; [exact Hinv|]. split; [|split].
  - intros b. rewrite Hf. cbn [data]. apply repeat_length.
  - intros sa. reflexivity.
  - reflexivity.
Qed.

(** X: an entry of the forward map that has just been written is the entry
    read.  When [file_write_4byte] returns, on a consistent cache whose
    blocks have their length, the cache is consistent again, and a
    [file_read_4byte] of the same block address of the same file returns,
    whatever its fuel, with the sector address written; it is served from
    the cache: the device and the trace are as they were, and the cache
    stays consistent. *)
Theorem file_write_read_4byte (SS : Z) (fuel fuel' : nat) (sc sc1 : softc)
  (fd ba sa : Z) :
  static_asserts SS -> cache_inv sc None None -> len_inv SS sc ->
  file_write_4byte SS fuel sc fd ba sa = Ok sc1 ->
  cache_inv sc1 None None /\ len_inv SS sc1 /\
  exists sc2, file_read_4byte SS fuel' sc1 fd ba = Ok (sa, sc2) /\
              cache_inv sc2 None None /\ len_inv SS sc2 /\
              dev sc2 = dev sc1 /\ trace sc2 = trace sc1.
Proof.
  intros HS Hinv HL Hw.
  destruct (file_write_4byte_inv SS fuel sc sc1 fd ba sa HS Hinv HL Hw)
    as (Hinv1 & HL1 & _ & b & Hb & Hma & _ & Hz).
  split; [exact Hinv1|]. split; [exact HL1|].
  destruct (file_read_4byte_hit SS fuel' sc1 fd ba b Hinv1 Hb Hma)
    as (sc2 & Hr & Hsh & Hd & _ & Hdev & Htr & Hss).
  exists sc2. rewrite Hr, Hz. split; [reflexivity|].
  split; [apply (cache_inv_shape _ _ _ _ Hsh Hinv1)|].
  split; [|split; [exact Hdev | exact Htr]].
  apply (len_inv_same SS sc1); [exact HL1 | | exact Hdev |].
  - intros x. rewrite Hd. reflexivity.
  - rewrite Hss. reflexivity.
Qed.

Lemma file_write_read_4byte_witness :
  match file_write_4byte 4096 0
          (file_mod_init 4096
             (set_sb (softc_zero 4096 (zero_device 1024 0))
                (mkSuperblock SIG_LOGSTOR 0 1 0 5000 4 3 1 1 [0; 0; 0])))
          0 2049 77 with
  | Ok sc1 => exists sc2, file_read_4byte 4096 0 sc1 0 2049 = Ok (77, sc2)
  | _ => False
  end.
Proof.
  match goal with
  | |- match ?X with _ => _ end =>
      assert (Hok : is_ok X = true) by (vm_compute; reflexivity);
      revert Hok; destruct X as [sc1| |] eqn:E; intros Hok;
      [| discriminate Hok ..]
  end.
  destruct (file_write_read_4byte 4096 0 0 _ sc1 0 2049 77 static_asserts_4096
              (proj1 example_z_invs) (proj2 example_z_invs) E)
    as (_ & _ & sc2 & Hr & _).
  exists sc2. exact Hr.
Defined.

(* ================================================================= *)
(** ** Requests of one block *)







